(** * T-REX factory deployment script (scripts/fireblocks): resumable deployment

    A shallow embedding of the resumable deployment script (the file that
    keeps [deployment-state.json]) and the properties of its ledger handling.

    The script is one [async function main] with nested helpers that all
    mutate a single object, [deploymentState], and talk to three outside
    parties: the chain provider, the artifact files and the clock.  The
    embedding threads one state record through a small exception monad:

    - the in-memory [deploymentState] object,
    - the outside world [W], reached only through a [Client] record,
    - the ledger file [deployment-state.json] and the backup files,
    - a log of the calls made to the chain and to the file system.

    A thrown JavaScript exception keeps the state reached so far (files
    written before the throw stay written), hence the result type carries
    the state in both cases.

    Choices of the embedding:

    - the collaborators may answer differently each time they are asked:
      every call takes the world and returns a new one;
    - [progress.step] is a rational, the decimal literals of the source
      ([1.1], [3.2], ...) being compared as such;
    - [fs.writeFileSync] succeeds; a file that [loadExistingDeployment]
      cannot parse or use is [Corrupt]; a ledger file has a [contracts]
      object or none at all;
    - the backup files are kept by the number in their name: a write to a
      name that exists replaces the file;
    - building the provider and the signer (no call of the script comes in
      between) is part of the account listing;
    - what a collaborator throws is an [Error] with a string [message],
      and the errors of the two artifact helpers for a missing or invalid
      file are among those of the artifact loading;
    - [contractFactory.attach(a)] is the handle whose [address] is [a];
    - the four [...Configured] properties of [progress], absent or [true]
      in the source, are booleans. *)

From Stdlib Require Import String Ascii List Bool ZArith QArith Lia Lqa.
From Stdlib Require Import DecimalString.
Import ListNotations.

Local Open Scope string_scope.
Local Open Scope list_scope.

(* ================================================================== *)
(** ** JavaScript values used by the script *)

(** [s.includes(t)]: case-sensitive substring test. *)
Fixpoint startsWith (t s : string) : bool :=
  match t, s with
  | EmptyString, _ => true
  | String a t', String b s' => Ascii.eqb a b && startsWith t' s'
  | String _ _, EmptyString => false
  end.

Fixpoint includes (s t : string) : bool :=
  startsWith t s ||
  match s with
  | EmptyString => false
  | String _ s' => includes s' t
  end.

(** Truthiness of a value that is a string, [null] or [undefined]. *)
Definition truthy (v : option string) : bool :=
  match v with
  | Some s => negb (String.eqb s "")
  | None => false
  end.

(** Arguments handed to constructors and contract methods. *)
Inductive Arg : Type :=
| VStr (s : string)
| VBool (b : bool)
| VUndefined
(* versionStruct: { major, minor, patch } *)
| VVersion (major minor patch : Z)
(* contractsStruct: the six implementation addresses *)
| VImplementations (token ctr ir irs tir mc : string).

Definition optArg (v : option string) : Arg :=
  match v with Some s => VStr s | None => VUndefined end.

(** A thrown [Error]; only [error.message] is ever inspected. *)
Record Error : Type := mkError { message : string }.

Inductive outcome (A : Type) : Type :=
| Returned (a : A)
| Thrown (e : Error).
Arguments Returned {A} a.
Arguments Thrown {A} e.

(* ================================================================== *)
(** ** The ledger object *)

(** [deploymentState.contracts]: a plain object with string keys.  Key order
    is insertion order; [Object.entries] walks it in that order, which fixes
    the order of the code queries at start-up, so the object is kept as an
    association list. *)
Definition Contracts : Type := list (string * string).

Fixpoint getContract (name : string) (cs : Contracts) : option string :=
  match cs with
  | [] => None
  | (k, v) :: cs' => if String.eqb k name then Some v else getContract name cs'
  end.

(** [cs[name] = v]: overwrite in place, or append a new key. *)
Fixpoint setContract (name v : string) (cs : Contracts) : Contracts :=
  match cs with
  | [] => [(name, v)]
  | (k, x) :: cs' =>
      if String.eqb k name then (k, v) :: cs'
      else (k, x) :: setContract name v cs'
  end.

(** [delete cs[name]]. *)
Fixpoint deleteContract (name : string) (cs : Contracts) : Contracts :=
  match cs with
  | [] => []
  | (k, x) :: cs' =>
      if String.eqb k name then deleteContract name cs'
      else (k, x) :: deleteContract name cs'
  end.

(** [deploymentState.progress].  The four [...Configured] properties are
    either absent or [true]; absent reads as falsy. *)
Record Progress : Type := mkProgress {
  step : Q;
  description : string;
  lastUpdated : option string;
  versionConfigured : bool;
  identityFactoryConfigured : bool;
  trexFactoryConfigured : bool;
  iaFactoryConfigured : bool
}.

Inductive ChainId : Type := HOODI | SEPOLIA.

Record deploymentState : Type := mkState {
  timestamp : string;
  network : ChainId;
  deployer : option string;
  contracts : Contracts;
  progress : Progress;
  completed : bool;
  completedAt : option string
}.

Definition set_deployer (v : option string) (d : deploymentState) :=
  mkState (timestamp d) (network d) v (contracts d) (progress d)
          (completed d) (completedAt d).

Definition set_contracts (cs : Contracts) (d : deploymentState) :=
  mkState (timestamp d) (network d) (deployer d) cs (progress d)
          (completed d) (completedAt d).

Definition set_progress (p : Progress) (d : deploymentState) :=
  mkState (timestamp d) (network d) (deployer d) (contracts d) p
          (completed d) (completedAt d).

Definition set_completed (t : string) (d : deploymentState) :=
  mkState (timestamp d) (network d) (deployer d) (contracts d) (progress d)
          true (Some t).

(** [progress.step = ..; progress.description = ..; progress.lastUpdated = ..]
    on the existing object: the flags stay. *)
Definition touch_progress (n : Q) (desc t : string) (p : Progress) :=
  mkProgress n desc (Some t) (versionConfigured p)
             (identityFactoryConfigured p) (trexFactoryConfigured p)
             (iaFactoryConfigured p).

Definition set_versionConfigured (p : Progress) :=
  mkProgress (step p) (description p) (lastUpdated p) true
             (identityFactoryConfigured p) (trexFactoryConfigured p)
             (iaFactoryConfigured p).

Definition set_identityFactoryConfigured (p : Progress) :=
  mkProgress (step p) (description p) (lastUpdated p) (versionConfigured p)
             true (trexFactoryConfigured p) (iaFactoryConfigured p).

Definition set_trexFactoryConfigured (p : Progress) :=
  mkProgress (step p) (description p) (lastUpdated p) (versionConfigured p)
             (identityFactoryConfigured p) true (iaFactoryConfigured p).

Definition set_iaFactoryConfigured (p : Progress) :=
  mkProgress (step p) (description p) (lastUpdated p) (versionConfigured p)
             (identityFactoryConfigured p) (trexFactoryConfigured p) true.

(** The object literal of [main]: the state every run starts from. *)
Definition freshState (now : string) : deploymentState :=
  mkState now HOODI None []
          (mkProgress 0 "Starting deployment..." None false false false false)
          false None.

(** What [deployment-state.json] holds: text that [loadExistingDeployment]
    cannot use (it does not parse, or has no [progress]), a ledger, or a
    ledger without the [contracts] property: [Bare d] has the other
    properties of [d]. *)
Inductive FileContent : Type :=
| Corrupt
| Stored (d : deploymentState)
| Bare (d : deploymentState).

(** What [JSON.parse] makes of the file, when [loadExistingDeployment] can
    use it: the ledger, with its contracts as [{ ...existingState.contracts }]
    has them (none when the property is missing), and whether there is a
    [contracts] property for [Object.entries] to list. *)
Definition parsed (f : option FileContent) : option (deploymentState * bool) :=
  match f with
  | Some (Stored d) => Some (d, true)
  | Some (Bare d) => Some (set_contracts [] d, false)
  | Some Corrupt => None
  | None => None
  end.

(** The backup files [deployment-complete-<ms>.json], each under its
    [ms]: writing one creates it, or replaces the file of that name. *)
Fixpoint writeFile (ms : Z) (d : deploymentState)
         (files : list (Z * deploymentState)) : list (Z * deploymentState) :=
  match files with
  | [] => [(ms, d)]
  | (k, x) :: files' =>
      if Z.eqb k ms then (k, d) :: files'
      else (k, x) :: writeFile ms d files'
  end.

(** A contract object: [contract.address]. *)
Record Handle : Type := mkHandle { address : string }.

(** A contract factory, named by the artifact it was built from. *)
Inductive Factory : Type :=
| TrexArtifact (name : string)
| OnchainIDArtifact (name : string).

(* ================================================================== *)
(** ** Calls that leave the process

    The log records, in order, every code query, deployment, method call and
    file write.  A deployment is logged under the unit name
    [deployIfNeeded] was called with. *)

Inductive Event : Type :=
| EvGetCode (a : string) (r : outcome string)
| EvDeploy (contractName : string) (f : Factory) (args : list Arg)
           (r : outcome string)
| EvInvoke (target method : string) (args : list Arg) (r : outcome unit)
| EvSave (d : deploymentState)
| EvBackup (ms : Z) (d : deploymentState).

(** The collaborators of the script, over a world [W] they may change. *)
Record Client (W : Type) : Type := mkClient {
  (* new Date().toISOString() *)
  clock : W -> string * W;
  (* Date.now() *)
  clockMs : W -> Z * W;
  (* new FireblocksWeb3Provider(...), new ethers.providers.Web3Provider(...),
     provider.getSigner() and provider.listAccounts() *)
  listAccounts : W -> outcome (list string) * W;
  (* deployer.getBalance(), only printed *)
  getBalance : W -> outcome unit * W;
  (* ethers.utils.isAddress *)
  isAddress : string -> bool;
  (* provider.getCode(address) *)
  getCode : W -> string -> outcome string * W;
  (* reading and checking the artifact file behind a factory *)
  readArtifact : W -> Factory -> outcome unit * W;
  (* contractFactory.deploy(...args) followed by contract.deployed() *)
  deployContract : W -> Factory -> list Arg -> outcome string * W;
  (* contract.method(...args) followed by tx.wait() *)
  invokeMethod : W -> string -> string -> list Arg -> outcome unit * W
}.
Arguments clock {W} _ _.
Arguments clockMs {W} _ _.
Arguments listAccounts {W} _ _.
Arguments getBalance {W} _ _.
Arguments isAddress {W} _ _.
Arguments getCode {W} _ _ _.
Arguments readArtifact {W} _ _ _.
Arguments deployContract {W} _ _ _ _.
Arguments invokeMethod {W} _ _ _ _ _.

(* ================================================================== *)
(** ** The run state and its monad *)

Record St (W : Type) : Type := mkSt {
  ds : deploymentState;
  world : W;
  file : option FileContent;
  backups : list (Z * deploymentState);
  log : list Event
}.
Arguments mkSt {W} _ _ _ _ _.
Arguments ds {W} _.
Arguments world {W} _.
Arguments file {W} _.
Arguments backups {W} _.
Arguments log {W} _.

Inductive Res (W A : Type) : Type :=
| Ok (a : A) (s : St W)
| Throw (e : Error) (s : St W).
Arguments Ok {W A} a s.
Arguments Throw {W A} e s.

Definition M (W A : Type) : Type := St W -> Res W A.

Definition ret {W A} (a : A) : M W A := fun s => Ok a s.

Definition bind {W A B} (m : M W A) (f : A -> M W B) : M W B :=
  fun s =>
    match m s with
    | Ok a s' => f a s'
    | Throw e s' => Throw e s'
    end.

Definition throw {W A} (e : Error) : M W A := fun s => Throw e s.

(** [try { m } catch (error) { h error }] *)
Definition try_catch {W A} (m : M W A) (h : Error -> M W A) : M W A :=
  fun s =>
    match m s with
    | Ok a s' => Ok a s'
    | Throw e s' => h e s'
    end.

Declare Scope js_scope.
Delimit Scope js_scope with js.
Notation "x <- m ;; k" := (bind m (fun x => k))
  (at level 61, m at next level, right associativity) : js_scope.
Notation "m ;; k" := (bind m (fun _ => k))
  (at level 61, right associativity) : js_scope.
Local Open Scope js_scope.

Definition final {W A} (r : Res W A) : St W :=
  match r with Ok _ s => s | Throw _ s => s end.

Definition getState {W} : M W deploymentState := fun s => Ok (ds s) s.

Definition modifyState {W} (f : deploymentState -> deploymentState) : M W unit :=
  fun s => Ok tt (mkSt (f (ds s)) (world s) (file s) (backups s) (log s)).

(** One call to a collaborator that returns or throws. *)
Definition call {W A} (op : W -> outcome A * W)
           (ev : outcome A -> list Event) : M W A :=
  fun s =>
    let '(r, w) := op (world s) in
    let s' := mkSt (ds s) w (file s) (backups s) (log s ++ ev r) in
    match r with
    | Returned a => Ok a s'
    | Thrown e => Throw e s'
    end.

(** One call that cannot throw. *)
Definition ask {W A} (op : W -> A * W) : M W A :=
  fun s =>
    let '(a, w) := op (world s) in
    Ok a (mkSt (ds s) w (file s) (backups s) (log s)).

(* ================================================================== *)
(** ** The script *)

Section Script.

Variable W : Type.
Variable cl : Client W.

(** The [--force] flag of the command line. *)
Variable forceRedeploy : bool.

Definition now : M W string := ask (clock cl).

(** [saveDeploymentState]: overwrite [deployment-state.json]. *)
Definition saveDeploymentState : M W unit :=
  fun s =>
    Ok tt (mkSt (ds s) (world s) (Some (Stored (ds s))) (backups s)
                (log s ++ [EvSave (ds s)])).

(** Lines 496-498: write [deployment-complete-<ms>.json], a new file or
    over the one of that name. *)
Definition writeBackup (ms : Z) : M W unit :=
  fun s =>
    Ok tt (mkSt (ds s) (world s) (file s) (writeFile ms (ds s) (backups s))
                (log s ++ [EvBackup ms (ds s)])).

(** [updateProgress(step, description, contractName, contractAddress)] *)
Definition updateProgress (n : Q) (desc : string)
           (contractName contractAddress : option string) : M W unit :=
  t <- now ;;
  modifyState (fun d => set_progress (touch_progress n desc t (progress d)) d) ;;
  (match contractName, contractAddress with
   | Some name, Some addr =>
       if truthy contractName && truthy contractAddress
       then modifyState (fun d => set_contracts (setContract name addr (contracts d)) d)
       else ret tt
   | _, _ => ret tt
   end) ;;
  saveDeploymentState.

(** [loadExistingDeployment]: the ledger on disk, or [null] when the file
    is missing or the [try] block throws while reading it. *)
Definition loadExistingDeployment : M W (option (deploymentState * bool)) :=
  fun s => Ok (parsed (file s)) s.

(** [isContractDeployed(provider, address)] *)
Definition isContractDeployed (addr : option string) : M W bool :=
  match addr with
  | Some a =>
      if negb (truthy addr) || negb (isAddress cl a) then ret false
      else
        try_catch
          (code <- call (fun w => getCode cl w a) (fun r => [EvGetCode a r]) ;;
           ret (negb (String.eqb code "0x") && negb (String.eqb code "0x0")))
          (fun _ => ret false)
  | None => ret false
  end.

(** [contractFactory.attach(address)] *)
Definition attach (a : string) : Handle := mkHandle a.

(** [deployIfNeeded(contractName, contractFactory, deployArgs, description)] *)
Definition deployIfNeeded (contractName : string) (contractFactory : Factory)
           (deployArgs : list Arg) : M W Handle :=
  d <- getState ;;
  let deploy : M W Handle :=
    a <- call (fun w => deployContract cl w contractFactory deployArgs)
              (fun r => [EvDeploy contractName contractFactory deployArgs r]) ;;
    modifyState (fun d => set_contracts (setContract contractName a (contracts d)) d) ;;
    saveDeploymentState ;;
    ret (mkHandle a) in
  let forget : M W unit :=
    modifyState (fun d => set_contracts (deleteContract contractName (contracts d)) d) in
  match getContract contractName (contracts d) with
  | Some a =>
      if negb forceRedeploy && truthy (Some a) then
        isDeployed <- isContractDeployed (Some a) ;;
        if isDeployed then ret (attach a)
        else forget ;; deploy
      else if forceRedeploy && truthy (Some a) then forget ;; deploy
      else deploy
  | None => deploy
  end.

(** The [contractPaths] table of [getContractArtifact]. *)
Definition contractPaths : list string :=
  ["Token"; "ClaimTopicsRegistry"; "TrustedIssuersRegistry";
   "IdentityRegistryStorage"; "IdentityRegistry"; "ModularCompliance";
   "TREXImplementationAuthority"; "TREXFactory"; "IAFactory"].

(** [getContractArtifact(contractName)] *)
Definition getContractArtifact (contractName : string) : M W Factory :=
  if existsb (String.eqb contractName) contractPaths then
    call (fun w => readArtifact cl w (TrexArtifact contractName)) (fun _ => []) ;;
    ret (TrexArtifact contractName)
  else throw (mkError ("Unknown contract: " ++ contractName)).

(** [getOnchainIDContractFactory(contractType)] *)
Definition getOnchainIDContractFactory (contractType : string) : M W Factory :=
  if existsb (String.eqb contractType) ["Identity"; "ImplementationAuthority"; "Factory"] then
    call (fun w => readArtifact cl w (OnchainIDArtifact contractType)) (fun _ => []) ;;
    ret (OnchainIDArtifact contractType)
  else throw (mkError ("Unknown OnchainID contract: " ++ contractType)).

(** [contract.method(...args)] and [tx.wait()]. *)
Definition invoke (target : Handle) (method : string) (args : list Arg) : M W unit :=
  call (fun w => invokeMethod cl w (address target) method args)
       (fun r => [EvInvoke (address target) method args r]).

Definition setFlag (f : Progress -> Progress) : M W unit :=
  modifyState (fun d => set_progress (f (progress d)) d).

(** Lines 205-219: the start-up verification of a resumed ledger.  The loop
    collects [contractsToRemove]; the entries are deleted afterwards. *)
Fixpoint contractsToRemove (entries : Contracts) : M W (list string) :=
  match entries with
  | [] => ret []
  | (contractName, a) :: rest =>
      isDeployed <- isContractDeployed (Some a) ;;
      names <- contractsToRemove rest ;;
      ret (if isDeployed then names else contractName :: names)
  end.

Definition removeAll (names : list string) (cs : Contracts) : Contracts :=
  fold_left (fun cs name => deleteContract name cs) names cs.

Definition verifyExisting : M W unit :=
  d <- getState ;;
  names <- contractsToRemove (contracts d) ;;
  modifyState (fun d => set_contracts (removeAll names (contracts d)) d).

(** Lines 228-233: record the deployer unless the ledger has one. *)
Definition initDeployer (accounts : list string) : M W unit :=
  d <- getState ;;
  if negb (truthy (deployer d)) then
    modifyState (set_deployer (hd_error accounts)) ;;
    updateProgress 0 "Initialized deployer" None None
  else ret tt.

(** Lines 373-400: the version configuration of step 3. *)
Definition configureVersion
           (trexImplementationAuthority tokenImplementation
            claimTopicsRegistryImplementation identityRegistryImplementation
            identityRegistryStorageImplementation
            trustedIssuersRegistryImplementation
            modularComplianceImplementation : Handle) : M W unit :=
  d <- getState ;;
  let needsVersionConfig :=
    negb (truthy (getContract "TREXImplementationAuthority" (contracts d)))
    || negb (versionConfigured (progress d)) in
  if needsVersionConfig then
    invoke trexImplementationAuthority "addAndUseTREXVersion"
      [VVersion 4 0 0;
       VImplementations (address tokenImplementation)
                        (address claimTopicsRegistryImplementation)
                        (address identityRegistryImplementation)
                        (address identityRegistryStorageImplementation)
                        (address trustedIssuersRegistryImplementation)
                        (address modularComplianceImplementation)] ;;
    setFlag set_versionConfigured
  else ret tt.

(** Lines 417-434: [addTokenFactory], guarded by
    [identityFactoryConfigured]. *)
Definition configureIdentityFactory (identityFactory trexFactory : Handle) : M W unit :=
  d <- getState ;;
  if negb (identityFactoryConfigured (progress d)) then
    try_catch
      (invoke identityFactory "addTokenFactory" [VStr (address trexFactory)] ;;
       setFlag set_identityFactoryConfigured)
      (fun error =>
         if includes (message error) "already a TokenFactory"
         then setFlag set_identityFactoryConfigured
         else throw error)
  else ret tt.

(** Lines 449-466: [setTREXFactory], guarded by [trexFactoryConfigured]. *)
Definition configureTrexFactory (trexImplementationAuthority trexFactory : Handle) : M W unit :=
  d <- getState ;;
  if negb (trexFactoryConfigured (progress d)) then
    try_catch
      (invoke trexImplementationAuthority "setTREXFactory" [VStr (address trexFactory)] ;;
       setFlag set_trexFactoryConfigured)
      (fun error =>
         if includes (message error) "already set" || includes (message error) "same"
         then setFlag set_trexFactoryConfigured
         else throw error)
  else ret tt.

(** Lines 468-484: [setIAFactory], guarded by [iaFactoryConfigured]. *)
Definition configureIaFactory (trexImplementationAuthority iaFactory : Handle) : M W unit :=
  d <- getState ;;
  if negb (iaFactoryConfigured (progress d)) then
    try_catch
      (invoke trexImplementationAuthority "setIAFactory" [VStr (address iaFactory)] ;;
       setFlag set_iaFactoryConfigured)
      (fun error =>
         if includes (message error) "already set" || includes (message error) "same"
         then setFlag set_iaFactoryConfigured
         else throw error)
  else ret tt.

(** Lines 487-498: the end of a run. *)
Definition complete : M W unit :=
  updateProgress 8 "Deployment completed successfully!" None None ;;
  t <- now ;;
  modifyState (set_completed t) ;;
  saveDeploymentState ;;
  ms <- ask (clockMs cl) ;;
  writeBackup ms.

Definition ZeroAddress : string := "0x0000000000000000000000000000000000000000".

(** Lines 317-498: the eight steps. *)
Definition steps (accounts : list string) : M W unit :=
  (* Step 1 *)
  updateProgress 1 "Starting implementation contracts deployment" None None ;;
  TokenFactory <- getContractArtifact "Token" ;;
  tokenImplementation <- deployIfNeeded "TokenImplementation" TokenFactory [] ;;
  updateProgress 1.1 "Token implementation deployment completed"
    (Some "TokenImplementation") (Some (address tokenImplementation)) ;;
  CTRFactory <- getContractArtifact "ClaimTopicsRegistry" ;;
  claimTopicsRegistryImplementation <-
    deployIfNeeded "ClaimTopicsRegistryImplementation" CTRFactory [] ;;
  updateProgress 1.2 "ClaimTopicsRegistry implementation deployment completed"
    (Some "ClaimTopicsRegistryImplementation")
    (Some (address claimTopicsRegistryImplementation)) ;;
  TIRFactory <- getContractArtifact "TrustedIssuersRegistry" ;;
  trustedIssuersRegistryImplementation <-
    deployIfNeeded "TrustedIssuersRegistryImplementation" TIRFactory [] ;;
  updateProgress 1.3 "TrustedIssuersRegistry implementation deployment completed"
    (Some "TrustedIssuersRegistryImplementation")
    (Some (address trustedIssuersRegistryImplementation)) ;;
  IRSFactory <- getContractArtifact "IdentityRegistryStorage" ;;
  identityRegistryStorageImplementation <-
    deployIfNeeded "IdentityRegistryStorageImplementation" IRSFactory [] ;;
  updateProgress 1.4 "IdentityRegistryStorage implementation deployment completed"
    (Some "IdentityRegistryStorageImplementation")
    (Some (address identityRegistryStorageImplementation)) ;;
  IRFactory <- getContractArtifact "IdentityRegistry" ;;
  identityRegistryImplementation <-
    deployIfNeeded "IdentityRegistryImplementation" IRFactory [] ;;
  updateProgress 1.5 "IdentityRegistry implementation deployment completed"
    (Some "IdentityRegistryImplementation")
    (Some (address identityRegistryImplementation)) ;;
  MCFactory <- getContractArtifact "ModularCompliance" ;;
  modularComplianceImplementation <-
    deployIfNeeded "ModularComplianceImplementation" MCFactory [] ;;
  updateProgress 1.6 "All implementation contracts deployment completed"
    (Some "ModularComplianceImplementation")
    (Some (address modularComplianceImplementation)) ;;
  (* Step 2 *)
  updateProgress 2 "Starting OnchainID infrastructure deployment" None None ;;
  IdentityFactory <- getOnchainIDContractFactory "Identity" ;;
  identityImplementation <-
    deployIfNeeded "IdentityImplementation" IdentityFactory
      [optArg (hd_error accounts); VBool true] ;;
  updateProgress 2.1 "Identity implementation deployment completed"
    (Some "IdentityImplementation") (Some (address identityImplementation)) ;;
  IdentityImplementationAuthorityFactory <-
    getOnchainIDContractFactory "ImplementationAuthority" ;;
  identityImplementationAuthority <-
    deployIfNeeded "IdentityImplementationAuthority"
      IdentityImplementationAuthorityFactory
      [VStr (address identityImplementation)] ;;
  updateProgress 2.2 "IdentityImplementationAuthority deployment completed"
    (Some "IdentityImplementationAuthority")
    (Some (address identityImplementationAuthority)) ;;
  IdentityFactoryFactory <- getOnchainIDContractFactory "Factory" ;;
  identityFactory <-
    deployIfNeeded "IdentityFactory" IdentityFactoryFactory
      [VStr (address identityImplementationAuthority)] ;;
  updateProgress 2.3 "OnchainID infrastructure deployment completed"
    (Some "IdentityFactory") (Some (address identityFactory)) ;;
  (* Step 3 *)
  updateProgress 3 "Deploying TREXImplementationAuthority" None None ;;
  TREXImplAuthorityFactory <- getContractArtifact "TREXImplementationAuthority" ;;
  trexImplementationAuthority <-
    deployIfNeeded "TREXImplementationAuthority" TREXImplAuthorityFactory
      [VBool true; VStr ZeroAddress; VStr ZeroAddress] ;;
  updateProgress 3.1 "TREXImplementationAuthority deployment completed"
    (Some "TREXImplementationAuthority")
    (Some (address trexImplementationAuthority)) ;;
  configureVersion trexImplementationAuthority tokenImplementation
    claimTopicsRegistryImplementation identityRegistryImplementation
    identityRegistryStorageImplementation trustedIssuersRegistryImplementation
    modularComplianceImplementation ;;
  updateProgress 3.2 "T-REX version configuration completed" None None ;;
  (* Step 4 *)
  updateProgress 4 "Deploying TREXFactory" None None ;;
  TREXFactoryFactory <- getContractArtifact "TREXFactory" ;;
  trexFactory <-
    deployIfNeeded "TREXFactory" TREXFactoryFactory
      [VStr (address trexImplementationAuthority); VStr (address identityFactory)] ;;
  updateProgress 4.1 "TREXFactory deployment completed"
    (Some "TREXFactory") (Some (address trexFactory)) ;;
  (* Step 5 *)
  updateProgress 5 "Configuring IdentityFactory" None None ;;
  configureIdentityFactory identityFactory trexFactory ;;
  updateProgress 5.1 "IdentityFactory configuration completed" None None ;;
  (* Step 6 *)
  updateProgress 6 "Deploying IAFactory" None None ;;
  IAFactoryFactory <- getContractArtifact "IAFactory" ;;
  iaFactory <- deployIfNeeded "IAFactory" IAFactoryFactory [VStr (address trexFactory)] ;;
  updateProgress 6.1 "IAFactory deployment completed"
    (Some "IAFactory") (Some (address iaFactory)) ;;
  (* Step 7 *)
  updateProgress 7 "Final configuration" None None ;;
  configureTrexFactory trexImplementationAuthority trexFactory ;;
  configureIaFactory trexImplementationAuthority iaFactory ;;
  updateProgress 7.1 "All configurations completed" None None ;;
  complete.

(** Lines 227-498: what runs once the ledger object is set up. *)
Definition deploy (accounts : list string) : M W unit :=
  initDeployer accounts ;;
  call (getBalance cl) (fun _ => []) ;;
  steps accounts.

(** Lines 189-191: merge the stored ledger into the new object. *)
Definition mergeExisting (existingDeployment : deploymentState)
           (d : deploymentState) : deploymentState :=
  set_deployer (deployer existingDeployment)
    (set_progress (progress existingDeployment)
       (set_contracts (contracts existingDeployment) d)).

(** Lines 225-226: the reset of force mode. *)
Definition forceReset (d : deploymentState) : deploymentState :=
  set_progress
    (mkProgress 0 "Force redeployment starting..." None false false false false)
    (set_contracts [] d).

(** Lines 193-203: the summary of a completed ledger.  Its loop over
    [Object.entries(existingDeployment.contracts)] only prints, and throws
    a [TypeError] when there is no [contracts] to list. *)
Definition printSummary (listed : bool) : M W unit :=
  if listed then ret tt
  else throw (mkError "Cannot convert undefined or null to object").

(** [main] *)
Definition main : M W unit :=
  t <- now ;;
  modifyState (fun _ => freshState t) ;;
  accounts <- call (listAccounts cl) (fun _ => []) ;;
  existingDeployment <-
    (if negb forceRedeploy then loadExistingDeployment else ret None) ;;
  match existingDeployment with
  | Some (e, listed) =>
      if negb forceRedeploy then
        modifyState (mergeExisting e) ;;
        if completed e then printSummary listed
        else verifyExisting ;; deploy accounts
      else if forceRedeploy then modifyState forceReset ;; deploy accounts
      else deploy accounts
  | None =>
      if forceRedeploy then modifyState forceReset ;; deploy accounts
      else deploy accounts
  end.

End Script.

Arguments saveDeploymentState {W}.
Arguments writeBackup {W} ms.
Arguments updateProgress {W} cl n desc contractName contractAddress.
Arguments loadExistingDeployment {W}.
Arguments isContractDeployed {W} cl addr.
Arguments deployIfNeeded {W} cl forceRedeploy contractName contractFactory deployArgs.
Arguments contractsToRemove {W} cl entries.
Arguments verifyExisting {W} cl.
Arguments initDeployer {W} cl accounts.
Arguments configureVersion {W} cl.
Arguments configureIdentityFactory {W} cl.
Arguments configureTrexFactory {W} cl.
Arguments configureIaFactory {W} cl.
Arguments complete {W} cl.
Arguments steps {W} cl forceRedeploy accounts.
Arguments deploy {W} cl forceRedeploy accounts.
Arguments printSummary {W} listed.
Arguments main {W} cl forceRedeploy.
Arguments invoke {W} cl target method args.
Arguments getContractArtifact {W} cl contractName.
Arguments getOnchainIDContractFactory {W} cl contractType.
Arguments setFlag {W} f.
Arguments now {W} cl.

(** The state of a process that has just started: nothing logged yet, [f]
    in [deployment-state.json] and backups [bk] next to it.  The ledger
    object does not exist before [main] builds it, so the value here is
    never read. *)
Definition start {W} (w : W) (f : option FileContent)
           (bk : list (Z * deploymentState)) : St W :=
  mkSt (freshState "") w f bk [].

(** One run of the script. *)
Definition runMain {W} (cl : Client W) (forceRedeploy : bool) (w : W)
           (f : option FileContent) (bk : list (Z * deploymentState)) : Res W unit :=
  main cl forceRedeploy (start w f bk).

(* ================================================================== *)
(** ** A simulated chain, for concrete runs *)

Module Sim.

(** The simulated world: a clock, the scripted answers of the next code
    queries (afterwards every address has code) and a deployment counter. *)
Record World : Type := mkWorld {
  ticks : nat;
  codes : list (outcome string);
  deployed : nat
}.

Definition numeral (n : nat) : string :=
  NilZero.string_of_uint (Nat.to_uint n).

Definition client (inv : string -> outcome unit) (dep : string -> outcome unit)
  : Client World :=
  mkClient World
    (fun w => (("T" ++ numeral (ticks w))%string, mkWorld (S (ticks w)) (codes w) (deployed w)))
    (fun w => (Z.of_nat (ticks w), mkWorld (S (ticks w)) (codes w) (deployed w)))
    (fun w => (Returned ["0xACC"], w))
    (fun w => (Returned tt, w))
    (fun a => startsWith "0x" a)
    (fun w a =>
       match codes w with
       | [] => (Returned "0x6080", w)
       | r :: rest => (r, mkWorld (ticks w) rest (deployed w))
       end)
    (fun w f => (Returned tt, w))
    (fun w f args =>
       match f with
       | TrexArtifact n | OnchainIDArtifact n =>
           match dep n with
           | Returned _ =>
               (Returned ("0xC" ++ numeral (deployed w))%string,
                mkWorld (ticks w) (codes w) (S (deployed w)))
           | Thrown e => (Thrown e, w)
           end
       end)
    (fun w target method args => (inv method, w)).

(** Every call succeeds. *)
Definition healthy : Client World :=
  client (fun _ => Returned tt) (fun _ => Returned tt).

(** The world of a process that starts at clock [t], on a chain that has
    seen [n] deployments and answers the next code queries as scripted. *)
Definition world0 (t n : nat) (scripted : list (outcome string)) : World :=
  mkWorld t scripted n.

(** The state of such a process, with [f] on disk. *)
Definition boot (t : nat) (scripted : list (outcome string))
           (f : option FileContent) : St World :=
  start (world0 t 0 scripted) f [].

End Sim.

(* ================================================================== *)
(** ** Vocabulary of the properties *)

(** The [progress.step] values written by the flushes of a log, in order. *)
Definition savedSteps (l : list Event) : list Q :=
  flat_map (fun ev => match ev with
                      | EvSave d => [step (progress d)]
                      | _ => []
                      end) l.

Fixpoint nondecreasing (l : list Q) : Prop :=
  match l with
  | x :: ((y :: _) as l') => (x <= y)%Q /\ nondecreasing l'
  | _ => True
  end.

(** The first flush of a run writes step 0 or step 1. *)
Definition wellStarted (l : list Q) : Prop :=
  match l with
  | [] => True
  | q :: _ => q = 0%Q \/ q = 1%Q
  end.

(** The calls a run makes to the chain, in order. *)
Inductive Call : Type :=
| Query
| Deployment (contractName : string)
| Method (method : string).

Definition calls (l : list Event) : list Call :=
  flat_map (fun ev => match ev with
                      | EvGetCode _ _ => [Query]
                      | EvDeploy n _ _ _ => [Deployment n]
                      | EvInvoke _ m _ _ => [Method m]
                      | _ => []
                      end) l.

(** The whole plan: twelve deployments and four method calls, no query. *)
Definition planCalls : list Call :=
  [Deployment "TokenImplementation";
   Deployment "ClaimTopicsRegistryImplementation";
   Deployment "TrustedIssuersRegistryImplementation";
   Deployment "IdentityRegistryStorageImplementation";
   Deployment "IdentityRegistryImplementation";
   Deployment "ModularComplianceImplementation";
   Deployment "IdentityImplementation";
   Deployment "IdentityImplementationAuthority";
   Deployment "IdentityFactory";
   Deployment "TREXImplementationAuthority";
   Method "addAndUseTREXVersion";
   Deployment "TREXFactory";
   Method "addTokenFactory";
   Deployment "IAFactory";
   Method "setTREXFactory";
   Method "setIAFactory"].

Definition flagsOf (p : Progress) : bool * bool * bool * bool :=
  (versionConfigured p, identityFactoryConfigured p,
   trexFactoryConfigured p, iaFactoryConfigured p).

(** A ledger that knows no unit, no flag and no completion. *)
Definition freshLedger (d : deploymentState) : Prop :=
  contracts d = [] /\ flagsOf (progress d) = (false, false, false, false) /\
  completed d = false /\ completedAt d = None.

(** The first thing the run did to the outside was to flush such a ledger. *)
Definition startsFresh (l : list Event) : Prop :=
  exists d rest, l = EvSave d :: rest /\ freshLedger d.

(** Every entry of the object under the key [U] holds [A]. *)
Definition pins (U A : string) (cs : Contracts) : Prop :=
  forall a, In (U, a) cs -> a = A.

(* ================================================================== *)
(** ** Concrete chains and ledgers *)

(** A chain on which the deployment of one artifact fails. *)
Definition failingDeploy (artifact : string) : Client Sim.World :=
  Sim.client (fun _ => Returned tt)
             (fun n => if String.eqb n artifact
                       then Thrown (mkError "insufficient funds")
                       else Returned tt).

(** A chain on which [setTREXFactory] reports that the factory is already
    set and [setIAFactory] reverts for some other reason. *)
Definition alreadySet : Client Sim.World :=
  Sim.client (fun m => if String.eqb m "setTREXFactory"
                       then Thrown (mkError "TREXFactory already set")
                       else if String.eqb m "setIAFactory"
                            then Thrown (mkError "execution reverted")
                            else Returned tt)
             (fun _ => Returned tt).

(** A chain on which every method call fails with the same message. *)
Definition rejecting (msg : string) : Client Sim.World :=
  Sim.client (fun _ => Thrown (mkError msg)) (fun _ => Returned tt).

(** A chain that reports code at every address, whatever is scripted. *)
Definition steady : Client Sim.World :=
  mkClient Sim.World
    (clock Sim.healthy) (clockMs Sim.healthy) (listAccounts Sim.healthy)
    (getBalance Sim.healthy) (isAddress Sim.healthy)
    (fun w _ => (Returned "0x6080", w))
    (readArtifact Sim.healthy) (deployContract Sim.healthy)
    (invokeMethod Sim.healthy).

(** A ledger left by an earlier run: one unit, deployer known. *)
Definition oneUnit : deploymentState :=
  mkState "T0" HOODI (Some "0xACC") [("TokenImplementation", "0xA1")]
          (mkProgress 1.1 "Token implementation deployment completed"
                      (Some "T3") false false false false)
          false None.

(** A first run that stops at step 4, when the TREXFactory deployment
    fails, and the run that resumes from the file it left. *)
Definition interrupted : Res Sim.World unit :=
  runMain (failingDeploy "TREXFactory") false (Sim.world0 0 0 []) None [].

Definition resumed : Res Sim.World unit :=
  runMain Sim.healthy false (Sim.world0 100 10 []) (file (final interrupted)) [].

(** A ledger of a finished run: three units, all flags, completed. *)
Definition completedLedger : deploymentState :=
  mkState "T0" HOODI (Some "0xOLD")
          [("TokenImplementation", "0xA1"); ("IdentityFactory", "0xA2");
           ("IAFactory", "0xA3")]
          (mkProgress 8 "Deployment completed successfully!" (Some "T9")
                      true true true true)
          true (Some "T9").


(** A run state with a new ledger object and nothing on disk. *)
Definition freshRun : St Sim.World :=
  mkSt (freshState "T0") (Sim.world0 0 0 []) None [] [].

(* ================================================================== *)
(** ** Strings and the contracts object *)

Lemma parsed_listed f e : parsed f = Some (e, true) -> f = Some (Stored e).
Proof. destruct f as [[|d|d]|]; simpl; congruence. Qed.

Lemma startsWith_spec (t s : string) :
  startsWith t s = true <-> exists rest, s = (t ++ rest)%string.
Proof.
  revert s; induction t as [|a t IH]; intros s; simpl.
  - split; [intros _; exists s; reflexivity | reflexivity].
  - destruct s as [|b s]; simpl.
    + split; [discriminate | intros [rest H]; discriminate].
    + rewrite andb_true_iff, Ascii.eqb_eq, IH. split.
      * intros [-> [rest ->]]. exists rest. reflexivity.
      * intros [rest H]. injection H as -> ->. split; [reflexivity | eauto].
Qed.

(** [includes s t] holds exactly when [t] occurs somewhere inside [s]. *)
Lemma includes_spec (s t : string) :
  includes s t = true <-> exists pre post, s = (pre ++ t ++ post)%string.
Proof.
  induction s as [|c s IH]; simpl.
  - rewrite orb_false_r, startsWith_spec. split.
    + intros [rest H]. exists "", rest. exact H.
    + intros [pre [post H]]. destruct pre; simpl in H.
      * exists post. exact H.
      * discriminate.
  - rewrite orb_true_iff, startsWith_spec, IH. split.
    + intros [[rest H] | [pre [post H]]].
      * exists "", rest. exact H.
      * exists (String c pre), post. simpl. now rewrite H.
    + intros [pre [post H]]. destruct pre as [|c' pre]; simpl in H.
      * left. exists post. exact H.
      * right. injection H as _ H. exists pre, post. exact H.
Qed.

Lemma truthy_Some (a : string) : truthy (Some a) = true <-> a <> "".
Proof.
  unfold truthy. rewrite negb_true_iff. split.
  - intros H ->. discriminate.
  - intros H. destruct (String.eqb_spec a ""); [contradiction | reflexivity].
Qed.

Lemma getContract_set_same name v cs :
  getContract name (setContract name v cs) = Some v.
Proof.
  induction cs as [|[k x] cs IH]; simpl.
  - now rewrite String.eqb_refl.
  - destruct (String.eqb k name) eqn:E; simpl; rewrite E; auto.
Qed.

Lemma getContract_set_other name name' v cs :
  name' <> name ->
  getContract name (setContract name' v cs) = getContract name cs.
Proof.
  intros Hne. induction cs as [|[k x] cs IH]; simpl.
  - destruct (String.eqb_spec name' name); [contradiction | reflexivity].
  - destruct (String.eqb_spec k name') as [->|Hk]; simpl.
    + destruct (String.eqb_spec name' name); [contradiction | reflexivity].
    + destruct (String.eqb k name); auto.
Qed.

Lemma getContract_delete_same name cs :
  getContract name (deleteContract name cs) = None.
Proof.
  induction cs as [|[k x] cs IH]; simpl; auto.
  destruct (String.eqb k name) eqn:E; simpl; [|rewrite E]; auto.
Qed.

Lemma getContract_delete_other name name' cs :
  name' <> name ->
  getContract name (deleteContract name' cs) = getContract name cs.
Proof.
  intros Hne. induction cs as [|[k x] cs IH]; simpl; auto.
  destruct (String.eqb_spec k name') as [->|Hk]; simpl.
  - destruct (String.eqb_spec name' name); [contradiction | exact IH].
  - destruct (String.eqb k name); auto.
Qed.

(** Writing back the address that is already there changes nothing. *)
Lemma setContract_same name v cs :
  getContract name cs = Some v -> setContract name v cs = cs.
Proof.
  induction cs as [|[k x] cs IH]; simpl; [discriminate|].
  destruct (String.eqb k name) eqn:E.
  - intros [= ->]. reflexivity.
  - intros H. now rewrite IH.
Qed.

Lemma getContract_removeAll name names cs :
  ~ In name names ->
  getContract name (removeAll names cs) = getContract name cs.
Proof.
  unfold removeAll. revert cs.
  induction names as [|n names IH]; intros cs Hnot; simpl; auto.
  rewrite IH by (intros H; apply Hnot; now right).
  apply getContract_delete_other. intros ->. apply Hnot. now left.
Qed.

(* ================================================================== *)
(** ** Reasoning about runs *)

(** [triple P m Q E]: from a state in [P], [m] either returns [a] in a
    state in [Q a] or throws [e] in a state in [E e].  Every program of the
    model terminates, so this is total correctness. *)
Definition triple {W A} (P : St W -> Prop) (m : M W A)
           (Q : A -> St W -> Prop) (E : Error -> St W -> Prop) : Prop :=
  forall s, P s ->
    match m s with
    | Ok a s' => Q a s'
    | Throw e s' => E e s'
    end.

Lemma triple_bind {W A B} (P : St W -> Prop) (R : A -> St W -> Prop)
      (m : M W A) (f : A -> M W B) Q E :
  triple P m R E ->
  (forall a, triple (R a) (f a) Q E) ->
  triple P (bind m f) Q E.
Proof.
  intros Hm Hf s HP. unfold bind. specialize (Hm s HP).
  destruct (m s) as [a s'|e s']; [exact (Hf a s' Hm) | exact Hm].
Qed.

Lemma triple_conseq {W A} (P P' : St W -> Prop) (m : M W A)
      (Q Q' : A -> St W -> Prop) (E E' : Error -> St W -> Prop) :
  (forall s, P s -> P' s) ->
  triple P' m Q' E' ->
  (forall a s, Q' a s -> Q a s) ->
  (forall e s, E' e s -> E e s) ->
  triple P m Q E.
Proof.
  intros HP Hm HQ HE s Hs. specialize (Hm s (HP s Hs)).
  destruct (m s); auto.
Qed.

Lemma triple_pre {W A} (P P' : St W -> Prop) (m : M W A) Q E :
  (forall s, P s -> P' s) -> triple P' m Q E -> triple P m Q E.
Proof. intros HP Hm. eapply triple_conseq; eauto. Qed.

(** Unfold the monad, to run one helper on a symbolic state. *)
Ltac unfold_monad :=
  unfold invoke, setFlag, now in *;
  unfold bind, ret, throw, try_catch, call, ask, modifyState, getState,
         saveDeploymentState, writeBackup in *.


(* ================================================================== *)
(** ** The liveness check *)

Section Liveness.

Context {W : Type} (cl : Client W).

(** What [isContractDeployed] does, case by case. *)
Lemma isContractDeployed_run (addr : option string) (s : St W) :
  match addr with
  | None => isContractDeployed cl addr s = Ok false s
  | Some a =>
      if truthy (Some a) && isAddress cl a then
        let '(r, w) := getCode cl (world s) a in
        let s' := mkSt (ds s) w (file s) (backups s) (log s ++ [EvGetCode a r]) in
        isContractDeployed cl addr s =
        Ok match r with
           | Returned code => negb (String.eqb code "0x") && negb (String.eqb code "0x0")
           | Thrown _ => false
           end s'
      else isContractDeployed cl addr s = Ok false s
  end.
Proof.
  destruct addr as [a|]; [|reflexivity].
  unfold isContractDeployed.
  destruct (truthy (Some a)); simpl; [|reflexivity].
  destruct (isAddress cl a); simpl; [|reflexivity].
  unfold try_catch, bind, call, ret.
  destruct (getCode cl (world s) a) as [[code|e] w]; reflexivity.
Qed.

Lemma log_not_extended (l : list Event) (ev : Event) : l <> l ++ [ev].
Proof.
  intros H. apply (f_equal (@length Event)) in H.
  rewrite length_app in H. simpl in H. lia.
Qed.

(** The outcome of the check, in full. *)
Lemma isContractDeployed_outcome (addr : option string) (s : St W) :
  exists b s',
    isContractDeployed cl addr s = Ok b s' /\
    ds s' = ds s /\ file s' = file s /\ backups s' = backups s /\
    (b = true <->
     exists a code,
       log s' = log s ++ [EvGetCode a (Returned code)] /\
       code <> "0x" /\ code <> "0x0") /\
    (b = true <->
     exists a code w,
       addr = Some a /\ a <> "" /\ isAddress cl a = true /\
       getCode cl (world s) a = (Returned code, w) /\
       code <> "0x" /\ code <> "0x0").
Proof.
  pose proof (isContractDeployed_run addr s) as Hrun.
  destruct addr as [a|].
  2:{ exists false, s. repeat split; auto; try discriminate.
      - intros (a & code & H & _). now apply log_not_extended in H.
      - intros (a & code & w & H & _). discriminate. }
  destruct (truthy (Some a) && isAddress cl a) eqn:Hguard.
  2:{ exists false, s. repeat split; auto; try discriminate.
      - intros (a' & code & H & _). now apply log_not_extended in H.
      - intros (a' & code & w & [= <-] & Hne & Hia & _).
        apply truthy_Some in Hne. rewrite Hne, Hia in Hguard. discriminate. }
  apply andb_true_iff in Hguard as [Ht Hia]. apply truthy_Some in Ht.
  destruct (getCode cl (world s) a) as [r w] eqn:Hq.
  eexists _, _. split; [exact Hrun|]. simpl.
  repeat split; auto.
  - destruct r as [code|e]; [|discriminate].
    rewrite andb_true_iff, !negb_true_iff. intros [H1 H2].
    exists a, code. repeat split; auto.
    + intros ->. discriminate.
    + intros ->. discriminate.
  - intros (a' & code & H & H1 & H2).
    apply app_inv_head in H. injection H as <- ->.
    rewrite andb_true_iff, !negb_true_iff.
    split; [destruct (String.eqb_spec code "0x") | destruct (String.eqb_spec code "0x0")];
      congruence.
  - destruct r as [code|e]; [|discriminate].
    rewrite andb_true_iff, !negb_true_iff. intros [H1 H2].
    exists a, code, w. repeat split; auto.
    + intros ->. discriminate.
    + intros ->. discriminate.
  - intros (a' & code & w' & [= <-] & _ & _ & H & H1 & H2).
    rewrite Hq in H. injection H as -> ->.
    rewrite andb_true_iff, !negb_true_iff.
    split; [destruct (String.eqb_spec code "0x") | destruct (String.eqb_spec code "0x0")];
      congruence.
Qed.

(** C10. The liveness check always returns a boolean, whatever the provider
    and the address: it never throws.  The boolean is [true] exactly when
    the check made its code query, the query returned, and the returned
    value differs from both ["0x"] and ["0x0"] (so ["0x0"] counts as no
    code).  The query is made exactly for a non-empty address that
    [isAddress] accepts; the check touches neither the ledger object nor
    the files. *)
Theorem isContractDeployed_total (addr : option string) (s : St W) :
  exists b s',
    isContractDeployed cl addr s = Ok b s' /\
    ds s' = ds s /\ file s' = file s /\ backups s' = backups s /\
    (b = true <->
     exists a code,
       log s' = log s ++ [EvGetCode a (Returned code)] /\
       code <> "0x" /\ code <> "0x0") /\
    (b = true <->
     exists a code w,
       addr = Some a /\ a <> "" /\ isAddress cl a = true /\
       getCode cl (world s) a = (Returned code, w) /\
       code <> "0x" /\ code <> "0x0").
Proof. exact (isContractDeployed_outcome addr s). Qed.

End Liveness.

(* ================================================================== *)
(** ** Deploy-if-needed *)

Section DeployIfNeeded.

Context {W : Type} (cl : Client W).

(** Lines 156-165: the deployment itself. *)
Definition redeploy (contractName : string) (contractFactory : Factory)
           (deployArgs : list Arg) : M W Handle :=
  a <- call (fun w => deployContract cl w contractFactory deployArgs)
            (fun r => [EvDeploy contractName contractFactory deployArgs r]) ;;
  modifyState (fun d => set_contracts (setContract contractName a (contracts d)) d) ;;
  saveDeploymentState ;;
  ret (mkHandle a).

(** The state after [delete deploymentState.contracts[contractName]]. *)
Definition forgetting (contractName : string) (s : St W) : St W :=
  mkSt (set_contracts (deleteContract contractName (contracts (ds s))) (ds s))
       (world s) (file s) (backups s) (log s).

Lemma redeploy_run name f args (s : St W) :
  redeploy name f args s =
  let '(r, w) := deployContract cl (world s) f args in
  match r with
  | Returned a =>
      let d := set_contracts (setContract name a (contracts (ds s))) (ds s) in
      Ok (mkHandle a)
         (mkSt d w (Some (Stored d)) (backups s)
               ((log s ++ [EvDeploy name f args r]) ++ [EvSave d]))
  | Thrown e =>
      Throw e (mkSt (ds s) w (file s) (backups s)
                    (log s ++ [EvDeploy name f args r]))
  end.
Proof.
  unfold redeploy. unfold_monad.
  destruct (deployContract cl (world s) f args) as [[a|e] w]; reflexivity.
Qed.

Lemma deployIfNeeded_run force name f args (s : St W) :
  deployIfNeeded cl force name f args s =
  match getContract name (contracts (ds s)) with
  | Some a =>
      if negb force && truthy (Some a) then
        match isContractDeployed cl (Some a) s with
        | Ok true s1 => Ok (attach a) s1
        | Ok false s1 => redeploy name f args (forgetting name s1)
        | Throw e s1 => Throw e s1
        end
      else if force && truthy (Some a)
           then redeploy name f args (forgetting name s)
           else redeploy name f args s
  | None => redeploy name f args s
  end.
Proof.
  unfold deployIfNeeded, bind at 1, getState.
  destruct (getContract name (contracts (ds s))) as [a|]; [|reflexivity].
  destruct (negb force && truthy (Some a)).
  - unfold bind at 1.
    destruct (isContractDeployed cl (Some a) s) as [[|] s1|e s1]; reflexivity.
  - destruct (force && truthy (Some a)); reflexivity.
Qed.

(** The redeployment always reaches the chain. *)
Lemma redeploy_calls name f args (s : St W) :
  exists r l, log (final (redeploy name f args s))
              = log s ++ EvDeploy name f args r :: l.
Proof.
  rewrite redeploy_run.
  destruct (deployContract cl (world s) f args) as [[a|e] w]; simpl.
  - eexists _, _. rewrite <- app_assoc. reflexivity.
  - eexists _, []. reflexivity.
Qed.

Lemma contractsToRemove_cons name a rest :
  contractsToRemove cl ((name, a) :: rest) =
  (isDeployed <- isContractDeployed cl (Some a) ;;
   names <- contractsToRemove cl rest ;;
   ret (if isDeployed then names else name :: names)).
Proof. reflexivity. Qed.

(** The start-up loop never throws and leaves the ledger object alone. *)
Lemma contractsToRemove_total (entries : Contracts) (s : St W) :
  exists names s',
    contractsToRemove cl entries s = Ok names s' /\
    ds s' = ds s /\ file s' = file s /\ backups s' = backups s.
Proof.
  revert s. induction entries as [|[n a] rest IH]; intros s.
  - exists [], s. auto.
  - rewrite contractsToRemove_cons. unfold bind.
    destruct (isContractDeployed_outcome cl (Some a) s)
      as (b & s1 & -> & Hd & Hf & Hb & _).
    destruct (IH s1) as (names & s2 & -> & Hd2 & Hf2 & Hb2).
    eexists _, s2. split; [reflexivity|]. repeat split; congruence.
Qed.

(** C5. When the address is missing, empty, rejected by [isAddress], or the
    code query throws, the liveness check returns [false]: it neither
    throws nor answers [true].  Such a unit is then redeployed: with force
    mode off [deployIfNeeded] goes on to the deploy call, and the start-up
    verification of a resumed ledger puts the unit on its removal list. *)
Theorem isContractDeployed_fail_safe (addr : option string) (s : St W) :
  addr = None \/ addr = Some "" \/
  (exists a, addr = Some a /\ isAddress cl a = false) \/
  (exists a e w, addr = Some a /\ getCode cl (world s) a = (Thrown e, w)) ->
  (exists s', isContractDeployed cl addr s = Ok false s' /\ ds s' = ds s) /\
  (forall name f args,
      getContract name (contracts (ds s)) = addr ->
      exists l r l',
        log (final (deployIfNeeded cl false name f args s))
        = log s ++ l ++ EvDeploy name f args r :: l') /\
  (forall name a rest,
      addr = Some a ->
      exists names s',
        contractsToRemove cl ((name, a) :: rest) s = Ok names s' /\
        In name names).
Proof.
  intros Hcase.
  assert (Hfalse : exists s', isContractDeployed cl addr s = Ok false s' /\
                              ds s' = ds s /\ exists l, log s' = log s ++ l).
  { pose proof (isContractDeployed_run cl addr s) as Hrun.
    destruct Hcase as [-> | [-> | [(a & -> & Hia) | (a & e & w & -> & Hq)]]].
    - exists s. repeat split; auto. exists []. now rewrite app_nil_r.
    - exists s. repeat split; auto. exists []. now rewrite app_nil_r.
    - rewrite Hia, andb_false_r in Hrun.
      exists s. repeat split; auto. exists []. now rewrite app_nil_r.
    - destruct (truthy (Some a) && isAddress cl a).
      + rewrite Hq in Hrun. eexists. split; [exact Hrun|].
        simpl. split; eauto.
      + exists s. repeat split; auto. exists []. now rewrite app_nil_r. }
  destruct Hfalse as (s' & Hrun & Hds & l & Hlog).
  split; [eauto|]. split.
  - intros name f args Hget. rewrite deployIfNeeded_run, Hget.
    destruct addr as [a|].
    + simpl negb. rewrite andb_true_l.
      destruct (truthy (Some a)).
      * rewrite Hrun.
        destruct (redeploy_calls name f args (forgetting name s')) as (r & l' & ->).
        simpl. rewrite Hlog, <- app_assoc. eauto.
      * simpl.
        destruct (redeploy_calls name f args s) as (r & l' & ->).
        exists [], r, l'. reflexivity.
    + destruct (redeploy_calls name f args s) as (r & l' & ->).
      exists [], r, l'. reflexivity.
  - intros name a rest ->. rewrite contractsToRemove_cons. unfold bind.
    rewrite Hrun.
    destruct (contractsToRemove_total rest s') as (names & s2 & -> & _).
    eexists _, _. split; [reflexivity|]. now left.
Qed.

End DeployIfNeeded.

(** A run of the check on the simulated chain whose code query fails. *)
Lemma isContractDeployed_fail_safe_witness :
  let s := Sim.boot 0 [Thrown (mkError "timeout")] None in
  getCode Sim.healthy (world s) "0xA1"
  = (Thrown (mkError "timeout"), Sim.mkWorld 0 [] 0) /\
  (exists s', isContractDeployed Sim.healthy (Some "0xA1") s = Ok false s' /\
              ds s' = ds s) /\
  (forall name f args,
      getContract name (contracts (ds s)) = Some "0xA1" ->
      exists l r l',
        log (final (deployIfNeeded Sim.healthy false name f args s))
        = log s ++ l ++ EvDeploy name f args r :: l') /\
  (forall name a rest,
      Some "0xA1" = Some a ->
      exists names s',
        contractsToRemove Sim.healthy ((name, a) :: rest) s = Ok names s' /\
        In name names).
Proof.
  intros s. split; [reflexivity|].
  apply (isContractDeployed_fail_safe Sim.healthy (Some "0xA1") s).
  right; right; right.
  exists "0xA1", (mkError "timeout"), (Sim.mkWorld 0 [] 0).
  split; reflexivity.
Defined.

(* ================================================================== *)
(** ** Configuration actions *)

Section Configuration.

Context {W : Type} (cl : Client W).

(** The three actions that sit in a [try]/[catch]. *)
Inductive Guarded : Type := AddTokenFactory | SetTREXFactory | SetIAFactory.

Definition runGuarded (g : Guarded) (target arg : Handle) : M W unit :=
  match g with
  | AddTokenFactory => configureIdentityFactory cl target arg
  | SetTREXFactory => configureTrexFactory cl target arg
  | SetIAFactory => configureIaFactory cl target arg
  end.

Definition methodOf (g : Guarded) : string :=
  match g with
  | AddTokenFactory => "addTokenFactory"
  | SetTREXFactory => "setTREXFactory"
  | SetIAFactory => "setIAFactory"
  end.

Definition flagOf (g : Guarded) (p : Progress) : bool :=
  match g with
  | AddTokenFactory => identityFactoryConfigured p
  | SetTREXFactory => trexFactoryConfigured p
  | SetIAFactory => iaFactoryConfigured p
  end.

Definition raiseFlag (g : Guarded) (p : Progress) : Progress :=
  match g with
  | AddTokenFactory => set_identityFactoryConfigured p
  | SetTREXFactory => set_trexFactoryConfigured p
  | SetIAFactory => set_iaFactoryConfigured p
  end.

(** The substrings each [catch] looks for in [error.message]. *)
Definition knownMessages (g : Guarded) : list string :=
  match g with
  | AddTokenFactory => ["already a TokenFactory"]
  | SetTREXFactory => ["already set"; "same"]
  | SetIAFactory => ["already set"; "same"]
  end.

Definition alreadyDone (g : Guarded) (e : Error) : bool :=
  existsb (includes (message e)) (knownMessages g).

Lemma flagOf_raiseFlag g p : flagOf g (raiseFlag g p) = true.
Proof. destruct g; reflexivity. Qed.

(** The state after the method call has been made and logged. *)
Definition called (target method : string) (args : list Arg)
           (r : outcome unit) (w : W) (s : St W) : St W :=
  mkSt (ds s) w (file s) (backups s) (log s ++ [EvInvoke target method args r]).

Definition flagged (f : Progress -> Progress) (s : St W) : St W :=
  mkSt (set_progress (f (progress (ds s))) (ds s))
       (world s) (file s) (backups s) (log s).

Lemma runGuarded_run g target arg (s : St W) :
  runGuarded g target arg s =
  if flagOf g (progress (ds s)) then Ok tt s
  else
    let args := [VStr (address arg)] in
    let '(r, w) := invokeMethod cl (world s) (address target) (methodOf g) args in
    let s1 := called (address target) (methodOf g) args r w s in
    match r with
    | Returned _ => Ok tt (flagged (raiseFlag g) s1)
    | Thrown e =>
        if alreadyDone g e then Ok tt (flagged (raiseFlag g) s1)
        else Throw e s1
    end.
Proof.
  destruct g; simpl;
    unfold configureIdentityFactory, configureTrexFactory, configureIaFactory,
           alreadyDone, flagged, called;
    unfold_monad; simpl.
  - destruct (identityFactoryConfigured (progress (ds s))); simpl; [reflexivity|].
    destruct (invokeMethod cl (world s) (address target) "addTokenFactory"
                           [VStr (address arg)]) as [[[]|e] w]; simpl; [reflexivity|].
    rewrite orb_false_r.
    destruct (includes (message e) "already a TokenFactory"); reflexivity.
  - destruct (trexFactoryConfigured (progress (ds s))); simpl; [reflexivity|].
    destruct (invokeMethod cl (world s) (address target) "setTREXFactory"
                           [VStr (address arg)]) as [[[]|e] w]; simpl; [reflexivity|].
    rewrite orb_false_r.
    destruct (includes (message e) "already set" || includes (message e) "same");
      reflexivity.
  - destruct (iaFactoryConfigured (progress (ds s))); simpl; [reflexivity|].
    destruct (invokeMethod cl (world s) (address target) "setIAFactory"
                           [VStr (address arg)]) as [[[]|e] w]; simpl; [reflexivity|].
    rewrite orb_false_r.
    destruct (includes (message e) "already set" || includes (message e) "same");
      reflexivity.
Qed.

(** [updateProgress] never throws; it writes the whole ledger object. *)
Lemma updateProgress_run n desc cn ca (s : St W) :
  updateProgress cl n desc cn ca s =
  let '(t, w) := clock cl (world s) in
  let d1 := set_progress (touch_progress n desc t (progress (ds s))) (ds s) in
  let d2 :=
    match cn, ca with
    | Some name, Some addr =>
        if truthy cn && truthy ca
        then set_contracts (setContract name addr (contracts d1)) d1
        else d1
    | _, _ => d1
    end in
  Ok tt (mkSt d2 w (Some (Stored d2)) (backups s) (log s ++ [EvSave d2])).
Proof.
  unfold updateProgress. unfold_monad.
  destruct (clock cl (world s)) as [t w]; simpl.
  destruct cn as [name|]; [destruct ca as [addr|]|]; try reflexivity.
  destruct (truthy (Some name) && truthy (Some addr)); reflexivity.
Qed.

Lemma updateProgress_flags n desc cn ca (s : St W) :
  exists s',
    updateProgress cl n desc cn ca s = Ok tt s' /\
    file s' = Some (Stored (ds s')) /\
    log s' = log s ++ [EvSave (ds s')] /\
    step (progress (ds s')) = n /\
    (forall g, flagOf g (progress (ds s')) = flagOf g (progress (ds s))) /\
    versionConfigured (progress (ds s')) = versionConfigured (progress (ds s)).
Proof.
  rewrite updateProgress_run.
  destruct (clock cl (world s)) as [t w].
  eexists. split; [reflexivity|]. simpl.
  destruct cn as [name|]; [destruct ca as [addr|]|];
    try destruct (truthy (Some name) && truthy (Some addr));
    repeat split; try reflexivity; intros []; reflexivity.
Qed.

(** What the [catch] of a guarded action does with the error. *)
Lemma runGuarded_recovers g target arg (s : St W) e w :
  flagOf g (progress (ds s)) = false ->
  invokeMethod cl (world s) (address target) (methodOf g) [VStr (address arg)]
  = (Thrown e, w) ->
  alreadyDone g e = true ->
  exists s',
    runGuarded g target arg s = Ok tt s' /\
    ds s' = set_progress (raiseFlag g (progress (ds s))) (ds s) /\
    flagOf g (progress (ds s')) = true /\
    file s' = file s /\
    log s' = log s ++ [EvInvoke (address target) (methodOf g)
                                [VStr (address arg)] (Thrown e)].
Proof.
  intros Hflag Hcall Hmsg. rewrite runGuarded_run, Hflag. simpl.
  rewrite Hcall, Hmsg. eexists. split; [reflexivity|]. simpl.
  rewrite flagOf_raiseFlag. auto.
Qed.

Lemma runGuarded_fatal g target arg (s : St W) e w :
  flagOf g (progress (ds s)) = false ->
  invokeMethod cl (world s) (address target) (methodOf g) [VStr (address arg)]
  = (Thrown e, w) ->
  alreadyDone g e = false ->
  exists s',
    runGuarded g target arg s = Throw e s' /\
    ds s' = ds s /\ file s' = file s /\
    log s' = log s ++ [EvInvoke (address target) (methodOf g)
                                [VStr (address arg)] (Thrown e)].
Proof.
  intros Hflag Hcall Hmsg. rewrite runGuarded_run, Hflag. simpl.
  rewrite Hcall, Hmsg. eexists. split; [reflexivity|]. simpl. auto.
Qed.

End Configuration.

Section ConfigurationClaims.

Context {W : Type} (cl : Client W).

(** [error.message] contains one of the substrings the [catch] knows. *)
Definition mentionsKnown (g : Guarded) (e : Error) : Prop :=
  exists k pre post,
    In k (knownMessages g) /\ message e = (pre ++ k ++ post)%string.

Lemma alreadyDone_spec g e : alreadyDone g e = true <-> mentionsKnown g e.
Proof.
  unfold alreadyDone, mentionsKnown. rewrite existsb_exists. split.
  - intros (k & Hin & Hinc). apply includes_spec in Hinc as (pre & post & H).
    exists k, pre, post. auto.
  - intros (k & pre & post & Hin & H). exists k. split; [exact Hin|].
    apply includes_spec. eauto.
Qed.

(** The [if (needsVersionConfig)] test of step 3. *)
Definition needsVersionConfig (d : deploymentState) : bool :=
  negb (truthy (getContract "TREXImplementationAuthority" (contracts d)))
  || negb (versionConfigured (progress d)).

Definition versionArgs (token ctr ir irs tir mc : Handle) : list Arg :=
  [VVersion 4 0 0;
   VImplementations (address token) (address ctr) (address ir)
                    (address irs) (address tir) (address mc)].

Lemma configureVersion_run ia token ctr ir irs tir mc (s : St W) :
  configureVersion cl ia token ctr ir irs tir mc s =
  if needsVersionConfig (ds s) then
    let args := versionArgs token ctr ir irs tir mc in
    let '(r, w) := invokeMethod cl (world s) (address ia) "addAndUseTREXVersion" args in
    let s1 := called (address ia) "addAndUseTREXVersion" args r w s in
    match r with
    | Returned _ => Ok tt (flagged set_versionConfigured s1)
    | Thrown e => Throw e s1
    end
  else Ok tt s.
Proof.
  unfold configureVersion, needsVersionConfig, versionArgs, called, flagged.
  unfold_monad.
  destruct (negb (truthy (getContract "TREXImplementationAuthority" (contracts (ds s))))
            || negb (versionConfigured (progress (ds s)))); [|reflexivity].
  destruct (invokeMethod cl (world s) (address ia) "addAndUseTREXVersion" _)
    as [[[]|e] w]; reflexivity.
Qed.

(** C9. The version configuration of step 3 has no recovery for work that
    was already done outside: when [addAndUseTREXVersion] fails, the error
    is thrown on unchanged, whatever its message, nothing after it runs,
    and neither the ledger object nor the file is touched.  The three
    guarded actions differ: the very same error is turned into success
    there as soon as its message contains one of their known substrings. *)
Theorem configureVersion_no_recovery
        ia token ctr ir irs tir mc (s : St W) (e : Error) (w : W) :
  needsVersionConfig (ds s) = true ->
  invokeMethod cl (world s) (address ia) "addAndUseTREXVersion"
               (versionArgs token ctr ir irs tir mc) = (Thrown e, w) ->
  (exists s',
      configureVersion cl ia token ctr ir irs tir mc s = Throw e s' /\
      (forall (rest : M W unit),
          (configureVersion cl ia token ctr ir irs tir mc ;; rest) s = Throw e s') /\
      ds s' = ds s /\ file s' = file s /\
      log s' = log s ++ [EvInvoke (address ia) "addAndUseTREXVersion"
                                  (versionArgs token ctr ir irs tir mc) (Thrown e)]) /\
  (forall g target arg (s2 : St W) w2,
      flagOf g (progress (ds s2)) = false ->
      invokeMethod cl (world s2) (address target) (methodOf g) [VStr (address arg)]
      = (Thrown e, w2) ->
      mentionsKnown g e ->
      exists s2', runGuarded cl g target arg s2 = Ok tt s2').
Proof.
  intros Hneeds Hcall. split.
  - pose proof (configureVersion_run ia token ctr ir irs tir mc s) as Hrun.
    rewrite Hneeds in Hrun. simpl in Hrun. rewrite Hcall in Hrun.
    eexists. split; [exact Hrun|]. split.
    + intros rest. unfold bind. rewrite Hrun. reflexivity.
    + simpl. auto.
  - intros g target arg s2 w2 Hflag Hcall2 Hmsg.
    apply alreadyDone_spec in Hmsg.
    destruct (runGuarded_recovers cl g target arg s2 e w2 Hflag Hcall2 Hmsg)
      as (s2' & H & _).
    eauto.
Qed.

End ConfigurationClaims.

(* ================================================================== *)
(** ** What each helper can change *)

Section Effects.

Context {W : Type} (cl : Client W).

Definition isQuery (ev : Event) : Prop :=
  match ev with EvGetCode _ _ => True | _ => False end.

(** [s'] is [s] after some code queries: only the world and the log moved. *)
Definition onlyQueries (s s' : St W) : Prop :=
  ds s' = ds s /\ file s' = file s /\ backups s' = backups s /\
  exists l, log s' = log s ++ l /\ Forall isQuery l.

Lemma onlyQueries_refl (s : St W) : onlyQueries s s.
Proof.
  repeat split. exists []. split; [now rewrite app_nil_r | constructor].
Qed.

Lemma onlyQueries_trans (s1 s2 s3 : St W) :
  onlyQueries s1 s2 -> onlyQueries s2 s3 -> onlyQueries s1 s3.
Proof.
  intros (Hd & Hf & Hb & l & Hl & Hq) (Hd' & Hf' & Hb' & l' & Hl' & Hq').
  repeat split; try congruence.
  exists (l ++ l'). split.
  - now rewrite Hl', Hl, app_assoc.
  - apply Forall_app. auto.
Qed.

Lemma onlyQueries_world (s : St W) (w : W) :
  onlyQueries s (mkSt (ds s) w (file s) (backups s) (log s)).
Proof.
  repeat split. exists []. split; [simpl; now rewrite app_nil_r | constructor].
Qed.

Lemma isContractDeployed_quiet (addr : option string) (s : St W) :
  exists b s', isContractDeployed cl addr s = Ok b s' /\ onlyQueries s s'.
Proof.
  pose proof (isContractDeployed_run cl addr s) as Hrun.
  destruct addr as [a|]; [|exists false, s; split; [exact Hrun | apply onlyQueries_refl]].
  destruct (truthy (Some a) && isAddress cl a);
    [|exists false, s; split; [exact Hrun | apply onlyQueries_refl]].
  destruct (getCode cl (world s) a) as [r w].
  eexists _, _. split; [exact Hrun|].
  repeat split. simpl. eexists. split; [reflexivity|].
  repeat constructor.
Qed.

Lemma contractsToRemove_quiet (entries : Contracts) (s : St W) :
  exists names s',
    contractsToRemove cl entries s = Ok names s' /\ onlyQueries s s'.
Proof.
  revert s. induction entries as [|[n a] rest IH]; intros s.
  - exists [], s. split; [reflexivity | apply onlyQueries_refl].
  - rewrite contractsToRemove_cons. unfold bind.
    destruct (isContractDeployed_quiet (Some a) s) as (b & s1 & -> & H1).
    destruct (IH s1) as (names & s2 & -> & H2).
    eexists _, s2. split; [reflexivity|].
    eapply onlyQueries_trans; eauto.
Qed.

Lemma getContractArtifact_quiet (name : string) (s : St W) :
  onlyQueries s (final (getContractArtifact cl name s)).
Proof.
  unfold getContractArtifact.
  destruct (existsb (String.eqb name) contractPaths).
  - unfold_monad.
    destruct (readArtifact cl (world s) (TrexArtifact name)) as [[[]|e] w];
      simpl; rewrite app_nil_r; apply onlyQueries_world.
  - apply onlyQueries_refl.
Qed.

Lemma getOnchainIDContractFactory_quiet (name : string) (s : St W) :
  onlyQueries s (final (getOnchainIDContractFactory cl name s)).
Proof.
  unfold getOnchainIDContractFactory.
  destruct (existsb (String.eqb name) _).
  - unfold_monad.
    destruct (readArtifact cl (world s) (OnchainIDArtifact name)) as [[[]|e] w];
      simpl; rewrite app_nil_r; apply onlyQueries_world.
  - apply onlyQueries_refl.
Qed.

Lemma call_quiet {A} (op : W -> outcome A * W) (s : St W) :
  onlyQueries s (final (call op (fun _ => []) s)).
Proof.
  unfold call. destruct (op (world s)) as [[a|e] w];
    simpl; rewrite app_nil_r; apply onlyQueries_world.
Qed.

(** The three ways a call of [deployIfNeeded] can go. *)
Lemma deployIfNeeded_cases force name f args (s : St W) :
  (exists a s1,
      force = false /\
      getContract name (contracts (ds s)) = Some a /\
      isContractDeployed cl (Some a) s = Ok true s1 /\
      onlyQueries s s1 /\
      deployIfNeeded cl force name f args s = Ok (attach a) s1) \/
  (exists s1,
      onlyQueries s s1 /\
      deployIfNeeded cl force name f args s = redeploy cl name f args s1) \/
  (exists s1,
      onlyQueries s s1 /\
      deployIfNeeded cl force name f args s
      = redeploy cl name f args (forgetting name s1)).
Proof.
  rewrite deployIfNeeded_run.
  destruct (getContract name (contracts (ds s))) as [a|].
  2:{ right; left. exists s. split; [apply onlyQueries_refl | reflexivity]. }
  destruct force; simpl negb; rewrite ?andb_false_l, ?andb_true_l.
  - destruct (truthy (Some a)).
    + right; right. exists s. split; [apply onlyQueries_refl | reflexivity].
    + right; left. exists s. split; [apply onlyQueries_refl | reflexivity].
  - destruct (truthy (Some a)).
    + destruct (isContractDeployed_quiet (Some a) s) as (b & s1 & Hrun & Hq).
      rewrite Hrun. destruct b.
      * left. exists a, s1. auto.
      * right; right. exists s1. auto.
    + right; left. exists s. split; [apply onlyQueries_refl | reflexivity].
Qed.

End Effects.

(* ================================================================== *)
(** ** Invariants of a whole run *)

Section PlanFrame.

Context {W : Type} (cl : Client W) (forceRedeploy : bool).

(** [G] constrains the ledger object, [phi] every logged call, and [R] the
    address a unit's deployment step hands to the progress update. *)
Variable G : deploymentState -> Prop.
Variable phi : Event -> Prop.
Variable R : string -> string -> Prop.

Definition Inv (s : St W) : Prop := G (ds s) /\ Forall phi (log s).

Notation "'keeps' m" := (triple Inv m (fun _ => Inv) (fun _ => Inv))
  (at level 10, m at level 9).

Hypothesis G_progress : forall p d, G d -> G (set_progress p d).
Hypothesis G_deployer : forall v d, G d -> G (set_deployer v d).
Hypothesis phi_query : forall ev, isQuery ev -> phi ev.
Hypothesis phi_invoke : forall t m a r, phi (EvInvoke t m a r).
Hypothesis phi_save : forall d, G d -> phi (EvSave d).
Hypothesis G_record :
  forall V a d,
    G d -> R V a -> truthy (Some V) && truthy (Some a) = true ->
    G (set_contracts (setContract V a (contracts d)) d).
Hypothesis deploy_ok :
  forall V f args,
    triple Inv (deployIfNeeded cl forceRedeploy V f args)
           (fun h s => Inv s /\ R V (address h)) (fun _ => Inv).

Lemma Inv_quiet (s s' : St W) : Inv s -> onlyQueries s s' -> Inv s'.
Proof.
  intros [HG Hphi] (Hd & _ & _ & l & Hl & Hq). split.
  - now rewrite Hd.
  - rewrite Hl. apply Forall_app. split; [exact Hphi|].
    eapply Forall_impl; [|exact Hq]. auto.
Qed.

Lemma keeps_quiet {A} (m : M W A) :
  (forall s, onlyQueries s (final (m s))) -> keeps m.
Proof.
  intros Hq s Hs. specialize (Hq s).
  destruct (m s); simpl in Hq; eapply Inv_quiet; eauto.
Qed.

Lemma keeps_getContractArtifact name : keeps (getContractArtifact cl name).
Proof. apply keeps_quiet, getContractArtifact_quiet. Qed.

Lemma keeps_getOnchainIDContractFactory name :
  keeps (getOnchainIDContractFactory cl name).
Proof. apply keeps_quiet, getOnchainIDContractFactory_quiet. Qed.

Lemma keeps_call {A} (op : W -> outcome A * W) : keeps (call op (fun _ => [])).
Proof. apply keeps_quiet, call_quiet. Qed.

Lemma keeps_updateProgress n desc : keeps (updateProgress cl n desc None None).
Proof.
  intros s [HG Hphi]. rewrite updateProgress_run.
  destruct (clock cl (world s)) as [t w]. simpl.
  assert (G (set_progress (touch_progress n desc t (progress (ds s))) (ds s)))
    by auto.
  split; [assumption|]. apply Forall_app. split; auto.
Qed.

Lemma keeps_record n desc V a :
  triple (fun s => Inv s /\ R V a)
         (updateProgress cl n desc (Some V) (Some a))
         (fun _ => Inv) (fun _ => Inv).
Proof.
  intros s [[HG Hphi] HR]. rewrite updateProgress_run.
  destruct (clock cl (world s)) as [t w]. cbv zeta.
  assert (H1 : G (set_progress (touch_progress n desc t (progress (ds s))) (ds s)))
    by auto.
  destruct (truthy (Some V) && truthy (Some a)) eqn:Ht.
  - pose proof (G_record V a _ H1 HR Ht) as H2.
    split; [exact H2|]. simpl. apply Forall_app. split; auto.
  - split; [exact H1|]. simpl. apply Forall_app. split; auto.
Qed.

Lemma keeps_configureVersion ia token ctr ir irs tir mc :
  keeps (configureVersion cl ia token ctr ir irs tir mc).
Proof.
  intros s [HG Hphi]. rewrite configureVersion_run.
  destruct (needsVersionConfig (ds s)); [|split; assumption].
  cbv zeta.
  destruct (invokeMethod cl (world s) (address ia) _ _) as [[[]|e] w];
    (split; simpl; [auto | apply Forall_app; split; auto]).
Qed.

Lemma keeps_runGuarded g target arg : keeps (runGuarded cl g target arg).
Proof.
  intros s [HG Hphi]. rewrite runGuarded_run.
  destruct (flagOf g (progress (ds s))); [split; assumption|].
  cbv zeta.
  destruct (invokeMethod cl (world s) (address target) _ _) as [[[]|e] w];
    [|destruct (alreadyDone g e)];
    (split; simpl; [auto | apply Forall_app; split; auto]).
Qed.

Lemma keeps_configureIdentityFactory target arg :
  keeps (configureIdentityFactory cl target arg).
Proof. exact (keeps_runGuarded AddTokenFactory target arg). Qed.

Lemma keeps_configureTrexFactory target arg :
  keeps (configureTrexFactory cl target arg).
Proof. exact (keeps_runGuarded SetTREXFactory target arg). Qed.

Lemma keeps_configureIaFactory target arg :
  keeps (configureIaFactory cl target arg).
Proof. exact (keeps_runGuarded SetIAFactory target arg). Qed.

Lemma keeps_initDeployer accounts : keeps (initDeployer cl accounts).
Proof.
  intros s [HG Hphi]. unfold initDeployer, bind at 1, getState.
  destruct (negb (truthy (deployer (ds s)))); [|split; assumption].
  unfold bind, modifyState.
  apply keeps_updateProgress. split; simpl; auto.
Qed.

Create HintDb plan discriminated.

Hint Resolve keeps_getContractArtifact keeps_getOnchainIDContractFactory
     keeps_call keeps_updateProgress keeps_record keeps_configureVersion
     keeps_configureIdentityFactory keeps_configureTrexFactory
     keeps_configureIaFactory keeps_initDeployer deploy_ok : plan.

(** Walk a sequence of statements, one known helper at a time. *)
Ltac walk :=
  repeat (lazymatch goal with
          | |- triple _ (bind _ _) _ _ =>
              eapply triple_bind;
              [ solve [eauto with plan] | intros ?; cbv beta ]
          end).

Lemma steps_frame accounts (Q : unit -> St W -> Prop) :
  triple Inv (complete cl) Q (fun _ => Inv) ->
  triple Inv (steps cl forceRedeploy accounts) Q (fun _ => Inv).
Proof.
  intros Hcomplete. unfold steps. walk. exact Hcomplete.
Qed.

Lemma deploy_frame accounts (Q : unit -> St W -> Prop) :
  triple Inv (complete cl) Q (fun _ => Inv) ->
  triple Inv (deploy cl forceRedeploy accounts) Q (fun _ => Inv).
Proof.
  intros Hcomplete. unfold deploy. walk. now apply steps_frame.
Qed.


(** The same for [main].  Every logged call satisfies [phi] when the run
    stops; a run that reaches [complete] ends as [complete] does ([Q]), and
    a run that finds a completed ledger returns without touching
    anything.  The stored ledger is read once, before anything is
    written. *)
Lemma main_frame (Q : unit -> St W -> Prop) (s0 : St W) :
  Forall phi (log s0) ->
  (forceRedeploy = true ->
   G (forceReset (freshState (fst (clock cl (world s0)))))) ->
  (forceRedeploy = false ->
   match parsed (file s0) with
   | Some (e, _) =>
       completed e = false ->
       G (mergeExisting e (freshState (fst (clock cl (world s0)))))
   | None => G (freshState (fst (clock cl (world s0))))
   end) ->
  keeps (verifyExisting cl) ->
  triple Inv (complete cl) Q (fun _ => Inv) ->
  match main cl forceRedeploy s0 with
  | Ok _ s' =>
      Q tt s' \/
      (forceRedeploy = false /\ log s' = log s0 /\ file s' = file s0 /\
       backups s' = backups s0 /\
       exists e, file s0 = Some (Stored e) /\ completed e = true)
  | Throw _ s' => Forall phi (log s')
  end.
Proof.
  intros Hlog Hforce Hplain Hverify Hcomplete.
  assert (Hdeploy : forall accounts s,
             Inv s ->
             match deploy cl forceRedeploy accounts s with
             | Ok _ s' =>
                 Q tt s' \/
                 (forceRedeploy = false /\ log s' = log s0 /\
                  file s' = file s0 /\ backups s' = backups s0 /\
                  exists e, file s0 = Some (Stored e) /\ completed e = true)
             | Throw _ s' => Forall phi (log s')
             end).
  { intros accounts s Hs.
    pose proof (deploy_frame accounts Q Hcomplete s Hs) as H.
    destruct (deploy cl forceRedeploy accounts s) as [[] s'|e s']; auto.
    apply H. }
  unfold main. unfold bind at 1. unfold now, ask.
  destruct (clock cl (world s0)) as [t w1]. simpl fst in *.
  unfold bind at 1. unfold modifyState. simpl.
  unfold bind at 1. unfold call. simpl.
  destruct (listAccounts cl w1) as [[accounts|e] w2]; simpl;
    rewrite app_nil_r; [|exact Hlog].
  destruct forceRedeploy; simpl.
  - unfold bind at 1, ret. unfold bind at 1, modifyState. simpl.
    apply Hdeploy. split; simpl; auto.
  - specialize (Hplain eq_refl).
    unfold bind at 1, loadExistingDeployment. simpl.
    destruct (parsed (file s0)) as [[e listed]|] eqn:Hparsed.
    + unfold bind at 1, modifyState. simpl.
      destruct (completed e) eqn:Hdone.
      * destruct listed; [|exact Hlog].
        unfold printSummary, ret. right. apply parsed_listed in Hparsed.
        repeat split; eauto.
      * unfold bind at 1.
        match goal with
        | |- context [verifyExisting cl ?s] =>
            assert (Hs : Inv s) by (split; simpl; auto);
            pose proof (Hverify s Hs) as Hv;
            destruct (verifyExisting cl s) as [[] s1|e1 s1]
        end.
        -- apply Hdeploy. exact Hv.
        -- apply Hv.
    + apply Hdeploy. split; simpl; auto.
Qed.

End PlanFrame.

(** Invariants that do not look at the contracts object. *)
Section SimpleFrame.

Context {W : Type} (cl : Client W) (forceRedeploy : bool).
Variable G : deploymentState -> Prop.
Variable phi : Event -> Prop.

Hypothesis G_contracts : forall cs d, G d -> G (set_contracts cs d).
Hypothesis phi_query : forall ev, isQuery ev -> phi ev.
Hypothesis phi_deploy : forall n f a r, phi (EvDeploy n f a r).
Hypothesis phi_save : forall d, G d -> phi (EvSave d).

Lemma redeploy_frame name f args (s : St W) :
  Inv G phi s ->
  match redeploy cl name f args s with
  | Ok _ s' => Inv G phi s'
  | Throw _ s' => Inv G phi s'
  end.
Proof.
  intros [HG Hphi]. rewrite redeploy_run.
  destruct (deployContract cl (world s) f args) as [[a|e] w]; cbv zeta.
  - split; simpl; [auto|].
    repeat (apply Forall_app; split); auto.
  - split; simpl; [auto|]. apply Forall_app; split; auto.
Qed.

Lemma simple_deployIfNeeded V f args :
  triple (Inv G phi) (deployIfNeeded cl forceRedeploy V f args)
         (fun h s => Inv G phi s /\ True) (fun _ => Inv G phi).
Proof.
  intros s Hs.
  destruct (deployIfNeeded_cases cl forceRedeploy V f args s)
    as [(a & s1 & _ & _ & _ & Hq & ->) | [(s1 & Hq & ->) | (s1 & Hq & ->)]].
  - split; [|exact I]. eapply Inv_quiet; eauto.
  - assert (H1 : Inv G phi s1) by (eapply Inv_quiet; eauto).
    pose proof (redeploy_frame V f args s1 H1) as H.
    destruct (redeploy cl V f args s1); auto.
  - assert (H1 : Inv G phi (forgetting V s1)).
    { destruct (Inv_quiet G phi phi_query s s1 Hs Hq) as [HG Hphi].
      split; simpl; auto. }
    pose proof (redeploy_frame V f args _ H1) as H.
    destruct (redeploy cl V f args (forgetting V s1)); auto.
Qed.

Lemma simple_verifyExisting :
  triple (Inv G phi) (verifyExisting cl) (fun _ => Inv G phi) (fun _ => Inv G phi).
Proof.
  intros s Hs. unfold verifyExisting, bind at 1, getState. unfold bind at 1.
  destruct (contractsToRemove_quiet cl (contracts (ds s)) s) as (names & s1 & -> & Hq).
  destruct (Inv_quiet G phi phi_query s s1 Hs Hq) as [HG Hphi].
  unfold modifyState. split; simpl; auto.
Qed.

End SimpleFrame.

(* ================================================================== *)
(** ** Completion and the timestamp *)

Section Completion.

Context {W : Type} (cl : Client W).

Lemma complete_run (s : St W) :
  complete cl s =
  let '(t1, w1) := clock cl (world s) in
  let d1 := set_progress
              (touch_progress 8 "Deployment completed successfully!" t1
                              (progress (ds s))) (ds s) in
  let '(t2, w2) := clock cl w1 in
  let d2 := set_completed t2 d1 in
  let '(ms, w3) := clockMs cl w2 in
  Ok tt (mkSt d2 w3 (Some (Stored d2)) (writeFile ms d2 (backups s))
              (((log s ++ [EvSave d1]) ++ [EvSave d2]) ++ [EvBackup ms d2])).
Proof.
  unfold complete, bind at 1. rewrite updateProgress_run.
  destruct (clock cl (world s)) as [t1 w1]. cbv zeta.
  unfold_monad. simpl.
  destruct (clock cl w1) as [t2 w2]. simpl.
  destruct (clockMs cl w2) as [ms w3]. reflexivity.
Qed.






End Completion.

Section Timestamp.

Context {W : Type} (cl : Client W).

Definition startedAt (t : string) (d : deploymentState) : Prop :=
  timestamp d = t.

(** Every write of the run carries the timestamp [t]. *)
Definition stamped (t : string) (ev : Event) : Prop :=
  match ev with
  | EvSave d => timestamp d = t
  | EvBackup _ d => timestamp d = t
  | _ => True
  end.

Lemma stamped_query t ev : isQuery ev -> stamped t ev.
Proof. destruct ev; simpl; auto; contradiction. Qed.

Lemma complete_stamped t :
  triple (Inv (startedAt t) (stamped t)) (complete cl)
         (fun _ => Inv (startedAt t) (stamped t))
         (fun _ => Inv (startedAt t) (stamped t)).
Proof.
  intros s [HG Hphi]. rewrite complete_run.
  destruct (clock cl (world s)) as [t1 w1]. cbv zeta.
  destruct (clock cl w1) as [t2 w2].
  destruct (clockMs cl w2) as [ms w3].
  split; simpl; [exact HG|].
  repeat (apply Forall_app; split); auto; repeat constructor; exact HG.
Qed.

(** C8, as the code has it.  The [timestamp] of the ledger is not kept
    from the first run.  Every run builds its ledger object with the time
    it started at; merging a stored ledger copies [contracts], [progress]
    and [deployer] only; so every flush and the backup of a run, resumed or
    not, carry that run's own start time.  A stored timestamp survives a
    run only when the run writes nothing. *)
Theorem timestamp_is_run_start forceRedeploy (w : W) f bk :
  (forall e d, timestamp (mergeExisting e d) = timestamp d) /\
  Forall (stamped (fst (clock cl w)))
         (log (final (runMain cl forceRedeploy w f bk))).
Proof.
  split; [reflexivity|].
  unfold runMain. set (t := fst (clock cl w)).
  pose proof (main_frame cl forceRedeploy (startedAt t) (stamped t)
                (fun _ _ => True)
                (fun p d Hd => Hd) (fun v d Hd => Hd) (stamped_query t)
                (fun _ _ _ _ => I) (fun d Hd => Hd) (fun _ _ d Hd _ _ => Hd)
                (simple_deployIfNeeded cl forceRedeploy (startedAt t) (stamped t)
                   (fun cs d Hd => Hd) (stamped_query t)
                   (fun _ _ _ _ => I) (fun d Hd => Hd))
                (fun _ => Inv (startedAt t) (stamped t))
                (start w f bk) (Forall_nil _)) as H.
  simpl in H. fold t in H.
  specialize (H (fun _ => eq_refl)).
  assert (Hplain : forceRedeploy = false ->
                   match parsed f with
                   | Some (e, _) =>
                       completed e = false ->
                       startedAt t (mergeExisting e (freshState t))
                   | None => startedAt t (freshState t)
                   end).
  { intros _. destruct (parsed f) as [[e listed]|]; reflexivity. }
  specialize (H Hplain
                (simple_verifyExisting cl (startedAt t) (stamped t)
                   (fun cs d Hd => Hd) (stamped_query t))
                (complete_stamped t)).
  destruct (main cl forceRedeploy (start w f bk)) as [[] s'|e s']; simpl.
  - destruct H as [[_ H] | (_ & -> & _)]; [exact H | constructor].
  - exact H.
Qed.

End Timestamp.

(* ================================================================== *)
(** ** The progress marker *)

Lemma savedSteps_app l1 l2 :
  savedSteps (l1 ++ l2) = savedSteps l1 ++ savedSteps l2.
Proof. apply flat_map_app. Qed.

Lemma savedSteps_queries l : Forall isQuery l -> savedSteps l = [].
Proof.
  induction 1 as [|ev l Hev _ IH]; [reflexivity|].
  destruct ev; try contradiction. exact IH.
Qed.

Lemma nondecreasing_raise l k k' :
  nondecreasing (l ++ [k]) -> (k <= k')%Q -> nondecreasing (l ++ [k']).
Proof.
  intros H Hk. induction l as [|x l IH]; [exact I|].
  destruct l as [|y l]; simpl in *.
  - split; [|exact I]. destruct H as [H _]. eapply Qle_trans; eauto.
  - destruct H as [Hxy H]. split; [exact Hxy | exact (IH H)].
Qed.

Lemma nondecreasing_again l k :
  nondecreasing (l ++ [k]) -> nondecreasing ((l ++ [k]) ++ [k]).
Proof.
  intros H. induction l as [|x l IH].
  - simpl. split; [apply Qle_refl | exact I].
  - destruct l as [|y l]; simpl in *.
    + destruct H as [H _]. repeat split; [exact H | apply Qle_refl].
    + destruct H as [Hxy H]. split; [exact Hxy | exact (IH H)].
Qed.

Lemma nondecreasing_front l k : nondecreasing (l ++ [k]) -> nondecreasing l.
Proof.
  intros H. induction l as [|x l IH]; [exact I|].
  destruct l as [|y l]; simpl in *; [exact I|].
  destruct H as [Hxy H]. split; [exact Hxy | exact (IH H)].
Qed.

Lemma wellStarted_front l k : wellStarted (l ++ [k]) -> wellStarted l.
Proof. destruct l; simpl; auto. Qed.

Lemma wellStarted_more l k k' :
  l <> [] -> wellStarted (l ++ [k]) -> wellStarted (l ++ [k']).
Proof. destruct l; simpl; auto. contradiction. Qed.

Lemma wellStarted_again l k : wellStarted (l ++ [k]) -> wellStarted ((l ++ [k]) ++ [k]).
Proof. destruct l; simpl; auto. Qed.

Section Progress.

Context {W : Type} (cl : Client W) (forceRedeploy : bool).

(** A flush of step [k] would keep the saved sequence in order. *)
Definition Ready (k : Q) (s : St W) : Prop :=
  nondecreasing (savedSteps (log s) ++ [k]) /\
  wellStarted (savedSteps (log s) ++ [k]).

(** The ledger object is at step [k] and step [k] has been flushed. *)
Definition At (k : Q) (s : St W) : Prop :=
  Ready k s /\ step (progress (ds s)) = k /\ savedSteps (log s) <> [].

Definition Mono (s : St W) : Prop :=
  nondecreasing (savedSteps (log s)) /\ wellStarted (savedSteps (log s)).

Lemma Ready_Mono k s : Ready k s -> Mono s.
Proof.
  intros [H1 H2]. split;
    [eapply nondecreasing_front | eapply wellStarted_front]; eauto.
Qed.

Lemma At_Mono k s : At k s -> Mono s.
Proof. intros [H _]. eapply Ready_Mono; eauto. Qed.

Lemma At_Ready k k' s : (k <= k')%Q -> At k s -> Ready k' s.
Proof.
  intros Hk [[H1 H2] [_ Hne]]. split.
  - eapply nondecreasing_raise; eauto.
  - eapply wellStarted_more; eauto.
Qed.

(** Anything that neither flushes nor moves [progress.step]. *)
Lemma At_unsaved k (s s' : St W) l :
  At k s ->
  step (progress (ds s')) = step (progress (ds s)) ->
  log s' = log s ++ l -> savedSteps l = [] ->
  At k s'.
Proof.
  intros [[H1 H2] [Hk Hne]] Hstep Hlog Hl.
  unfold At, Ready. rewrite Hlog, savedSteps_app, Hl, app_nil_r.
  repeat split; auto. congruence.
Qed.

(** A flush at the current step. *)
Lemma At_saved k (s s' : St W) l d :
  At k s ->
  step (progress (ds s')) = k -> step (progress d) = k ->
  log s' = (log s ++ l) ++ [EvSave d] -> savedSteps l = [] ->
  At k s'.
Proof.
  intros [[H1 H2] [Hk Hne]] Hstep Hd Hlog Hl.
  unfold At, Ready. rewrite Hlog, !savedSteps_app, Hl, app_nil_r. simpl.
  rewrite Hd. repeat split; auto.
  - now apply nondecreasing_again.
  - now apply wellStarted_again.
  - intros H. apply app_eq_nil in H as [_ H]. discriminate.
Qed.

Lemma At_quiet k (s s' : St W) : At k s -> onlyQueries s s' -> At k s'.
Proof.
  intros Hs (Hd & _ & _ & l & Hl & Hq).
  eapply At_unsaved; eauto.
  - now rewrite Hd.
  - now apply savedSteps_queries.
Qed.

Lemma at_quiet {A} k (m : M W A) :
  (forall s, onlyQueries s (final (m s))) ->
  triple (At k) m (fun _ => At k) (fun _ => Mono).
Proof.
  intros Hq s Hs. specialize (Hq s).
  destruct (m s); simpl in Hq.
  - eapply At_quiet; eauto.
  - eapply At_Mono, At_quiet; eauto.
Qed.

Lemma at_getContractArtifact k name :
  triple (At k) (getContractArtifact cl name) (fun _ => At k) (fun _ => Mono).
Proof. apply at_quiet, getContractArtifact_quiet. Qed.

Lemma at_getOnchainIDContractFactory k name :
  triple (At k) (getOnchainIDContractFactory cl name) (fun _ => At k) (fun _ => Mono).
Proof. apply at_quiet, getOnchainIDContractFactory_quiet. Qed.

Lemma ready_updateProgress k desc cn ca :
  triple (Ready k) (updateProgress cl k desc cn ca) (fun _ => At k) (fun _ => Mono).
Proof.
  intros s [H1 H2].
  destruct (updateProgress_flags cl k desc cn ca s)
    as (s' & -> & _ & Hlog & Hstep & _).
  unfold At, Ready. rewrite Hlog, savedSteps_app. simpl. rewrite Hstep.
  repeat split; auto.
  - now apply nondecreasing_again.
  - now apply wellStarted_again.
  - intros H. apply app_eq_nil in H as [_ H]. discriminate.
Qed.

Lemma at_updateProgress k k' desc cn ca :
  (k <= k')%Q ->
  triple (At k) (updateProgress cl k' desc cn ca) (fun _ => At k') (fun _ => Mono).
Proof.
  intros Hk. eapply triple_pre; [|apply ready_updateProgress].
  intros s. now apply At_Ready.
Qed.

Lemma at_redeploy k name f args (s : St W) :
  At k s ->
  match redeploy cl name f args s with
  | Ok _ s' => At k s'
  | Throw _ s' => Mono s'
  end.
Proof.
  intros Hs. rewrite redeploy_run.
  destruct (deployContract cl (world s) f args) as [[a|e] w]; cbv zeta.
  - eapply At_saved; eauto; try reflexivity; simpl; apply Hs.
  - eapply At_Mono, At_unsaved; eauto; reflexivity.
Qed.

Lemma at_deployIfNeeded k V f args :
  triple (At k) (deployIfNeeded cl forceRedeploy V f args)
         (fun _ => At k) (fun _ => Mono).
Proof.
  intros s Hs.
  destruct (deployIfNeeded_cases cl forceRedeploy V f args s)
    as [(a & s1 & _ & _ & _ & Hq & ->) | [(s1 & Hq & ->) | (s1 & Hq & ->)]].
  - eapply At_quiet; eauto.
  - apply at_redeploy. eapply At_quiet; eauto.
  - apply at_redeploy.
    eapply At_unsaved with (l := []);
      [eapply At_quiet; eauto | reflexivity | simpl; now rewrite app_nil_r
      | reflexivity].
Qed.

Lemma at_configureVersion k ia token ctr ir irs tir mc :
  triple (At k) (configureVersion cl ia token ctr ir irs tir mc)
         (fun _ => At k) (fun _ => Mono).
Proof.
  intros s Hs. rewrite configureVersion_run.
  destruct (needsVersionConfig (ds s)); [|exact Hs]. cbv zeta.
  destruct (invokeMethod cl (world s) (address ia) _ _) as [[[]|e] w].
  - eapply At_unsaved; eauto; reflexivity.
  - eapply At_Mono, At_unsaved; eauto; reflexivity.
Qed.

Lemma at_runGuarded k g target arg :
  triple (At k) (runGuarded cl g target arg) (fun _ => At k) (fun _ => Mono).
Proof.
  intros s Hs. rewrite runGuarded_run.
  destruct (flagOf g (progress (ds s))); [exact Hs|]. cbv zeta.
  destruct (invokeMethod cl (world s) (address target) _ _) as [[[]|e] w];
    [|destruct (alreadyDone g e)].
  - eapply At_unsaved; eauto; destruct g; reflexivity.
  - eapply At_unsaved; eauto; destruct g; reflexivity.
  - eapply At_Mono, At_unsaved; eauto; reflexivity.
Qed.

Lemma at_configureIdentityFactory k target arg :
  triple (At k) (configureIdentityFactory cl target arg)
         (fun _ => At k) (fun _ => Mono).
Proof. exact (at_runGuarded k AddTokenFactory target arg). Qed.

Lemma at_configureTrexFactory k target arg :
  triple (At k) (configureTrexFactory cl target arg)
         (fun _ => At k) (fun _ => Mono).
Proof. exact (at_runGuarded k SetTREXFactory target arg). Qed.

Lemma at_configureIaFactory k target arg :
  triple (At k) (configureIaFactory cl target arg)
         (fun _ => At k) (fun _ => Mono).
Proof. exact (at_runGuarded k SetIAFactory target arg). Qed.

Lemma at_complete k :
  (k <= 8)%Q ->
  triple (At k) (complete cl) (fun _ => Mono) (fun _ => Mono).
Proof.
  intros Hk s Hs. rewrite complete_run.
  destruct (clock cl (world s)) as [t1 w1]. cbv zeta.
  destruct (clock cl w1) as [t2 w2].
  destruct (clockMs cl w2) as [ms w3].
  destruct (At_Ready k 8 s Hk Hs) as [H1 H2].
  unfold Mono. simpl. rewrite !savedSteps_app. simpl. rewrite app_nil_r.
  split.
  - now apply nondecreasing_again.
  - now apply wellStarted_again.
Qed.

Create HintDb progress discriminated.

Hint Resolve at_getContractArtifact at_getOnchainIDContractFactory
     at_updateProgress at_deployIfNeeded at_configureVersion
     at_configureIdentityFactory at_configureTrexFactory at_configureIaFactory
     ready_updateProgress : progress.
Hint Extern 0 (Qle _ _) => vm_compute; discriminate : progress.

Ltac march :=
  repeat (lazymatch goal with
          | |- triple _ (bind _ _) _ _ =>
              eapply triple_bind;
              [ solve [eauto with progress] | intros ?; cbv beta ]
          end).

Lemma steps_progress accounts :
  triple (Ready 1) (steps cl forceRedeploy accounts) (fun _ => Mono) (fun _ => Mono).
Proof.
  unfold steps. march. apply at_complete. vm_compute; discriminate.
Qed.

End Progress.

Section ProgressOfRun.

Context {W : Type} (cl : Client W) (forceRedeploy : bool).

Definition Unsaved (s : St W) : Prop := savedSteps (log s) = [].

Lemma Unsaved_Ready (s : St W) : Unsaved s -> Ready 1 s.
Proof.
  unfold Unsaved, Ready. intros ->. simpl. auto.
Qed.

Lemma Ready_quiet k (s s' : St W) : Ready k s -> onlyQueries s s' -> Ready k s'.
Proof.
  intros H (_ & _ & _ & l & Hl & Hq). unfold Ready.
  rewrite Hl, savedSteps_app, (savedSteps_queries l Hq), app_nil_r. exact H.
Qed.

Lemma initDeployer_progress accounts :
  triple Unsaved (initDeployer cl accounts) (fun _ => Ready 1) (fun _ => Mono).
Proof.
  intros s Hs. unfold initDeployer, bind at 1, getState.
  destruct (negb (truthy (deployer (ds s)))).
  - unfold bind, modifyState.
    match goal with
    | |- context [updateProgress cl ?n ?d ?a ?b ?s1] =>
        pose proof (ready_updateProgress cl n d a b s1) as H;
        destruct (updateProgress cl n d a b s1)
    end.
    + eapply At_Ready; [|apply H]; [vm_compute; discriminate|].
      unfold Ready; simpl. unfold Unsaved in Hs. rewrite Hs. simpl. auto.
    + apply H. unfold Ready; simpl. unfold Unsaved in Hs. rewrite Hs. simpl. auto.
  - now apply Unsaved_Ready.
Qed.

Lemma deploy_progress accounts :
  triple Unsaved (deploy cl forceRedeploy accounts) (fun _ => Mono) (fun _ => Mono).
Proof.
  unfold deploy.
  eapply triple_bind; [apply initDeployer_progress | intros ?; cbv beta].
  eapply triple_bind; [|intros ?; apply steps_progress].
  intros s Hs. pose proof (call_quiet (getBalance cl) s) as Hq.
  destruct (call (getBalance cl) (fun _ => []) s); simpl in Hq.
  - eapply Ready_quiet; eauto.
  - eapply Ready_Mono, Ready_quiet; eauto.
Qed.

(** C3, as the code has it.  Within one run the step numbers written by
    successive flushes never decrease, and the first flush of every run,
    resumed or forced, writes step 0 or step 1: the step stored by an
    earlier run is read but not continued from. *)
Theorem steps_nondecreasing_within_run (w : W) f bk :
  let saved := savedSteps (log (final (runMain cl forceRedeploy w f bk))) in
  nondecreasing saved /\ wellStarted saved.
Proof.
  cbv zeta. change (Mono (final (runMain cl forceRedeploy w f bk))).
  assert (Hdeploy : forall accounts s,
             Unsaved s -> Mono (final (deploy cl forceRedeploy accounts s))).
  { intros accounts s Hs. pose proof (deploy_progress accounts s Hs) as H.
    destruct (deploy cl forceRedeploy accounts s); exact H. }
  assert (Hempty : forall s : St W, log s = [] -> Unsaved s).
  { intros s H. unfold Unsaved. now rewrite H. }
  assert (Hmono : forall s : St W, log s = [] -> Mono s).
  { intros s H. unfold Mono. rewrite H. simpl. auto. }
  unfold runMain, main, start. unfold bind at 1. unfold now, ask. simpl.
  destruct (clock cl w) as [t w1].
  unfold bind at 1. unfold modifyState. simpl.
  unfold bind at 1. unfold call. simpl.
  destruct (listAccounts cl w1) as [[accounts|e] w2]; simpl;
    [|now apply Hmono].
  destruct forceRedeploy; simpl.
  - unfold bind at 1, ret. unfold bind at 1, modifyState. simpl.
    now apply Hdeploy, Hempty.
  - unfold bind at 1, loadExistingDeployment. simpl.
    destruct (parsed f) as [[e listed]|].
    + unfold bind at 1, modifyState. simpl.
      destruct (completed e).
      * destruct listed; now apply Hmono.
      * unfold bind at 1.
        match goal with
        | |- context [verifyExisting cl ?s] =>
            pose proof (simple_verifyExisting cl (fun _ => True)
                          (fun ev => isQuery ev) (fun _ _ _ => I)
                          (fun _ H => H) s) as Hv;
            destruct (verifyExisting cl s) as [[] s1|e1 s1] eqn:Hrun
        end.
        -- apply Hdeploy. unfold Unsaved. apply savedSteps_queries.
           apply Hv. split; [exact I | constructor].
        -- simpl. unfold Mono. rewrite savedSteps_queries; [simpl; auto|].
           apply Hv. split; [exact I | constructor].
    + now apply Hdeploy, Hempty.
Qed.

End ProgressOfRun.

(* ================================================================== *)
(** ** Force mode *)

Section Oblivious.

Context {W : Type} (cl : Client W).

(** The same state with other contents in [deployment-state.json]. *)
Definition refile (f : option FileContent) (s : St W) : St W :=
  mkSt (ds s) (world s) f (backups s) (log s).

Definition refileRes {A} (f : option FileContent) (r : Res W A) : Res W A :=
  match r with
  | Ok a s => Ok a (refile f s)
  | Throw e s => Throw e (refile f s)
  end.

(** [m] never reads the file: changing the file beforehand changes nothing
    but the file afterwards, and not even that once [m] has written it. *)
Definition oblivious {A} (m : M W A) : Prop :=
  forall f s, m (refile f s) = m s \/ m (refile f s) = refileRes f (m s).

Lemma oblivious_bind {A B} (m : M W A) (k : A -> M W B) :
  oblivious m -> (forall a, oblivious (k a)) -> oblivious (bind m k).
Proof.
  intros Hm Hk f s. unfold bind.
  destruct (Hm f s) as [-> | ->].
  - left. reflexivity.
  - destruct (m s) as [a s'|e s']; simpl.
    + apply Hk.
    + right. reflexivity.
Qed.

Lemma oblivious_try_catch {A} (m : M W A) (h : Error -> M W A) :
  oblivious m -> (forall e, oblivious (h e)) -> oblivious (try_catch m h).
Proof.
  intros Hm Hh f s. unfold try_catch.
  destruct (Hm f s) as [-> | ->].
  - left. reflexivity.
  - destruct (m s) as [a s'|e s']; simpl.
    + right. reflexivity.
    + apply Hh.
Qed.

Lemma oblivious_ret {A} (a : A) : oblivious (ret a : M W A).
Proof. intros f s. right. reflexivity. Qed.

Lemma oblivious_throw {A} (e : Error) : oblivious (throw e : M W A).
Proof. intros f s. right. reflexivity. Qed.

Lemma oblivious_getState : oblivious (getState : M W _).
Proof. intros f s. right. reflexivity. Qed.

Lemma oblivious_modifyState g : oblivious (modifyState g : M W _).
Proof. intros f s. right. reflexivity. Qed.

Lemma oblivious_call {A} (op : W -> outcome A * W) ev : oblivious (call op ev).
Proof.
  intros f s. right. unfold call. simpl.
  destruct (op (world s)) as [[a|e] w]; reflexivity.
Qed.

Lemma oblivious_ask {A} (op : W -> A * W) : oblivious (ask op).
Proof.
  intros f s. right. unfold ask. simpl.
  destruct (op (world s)) as [a w]; reflexivity.
Qed.

Lemma oblivious_save : oblivious (saveDeploymentState : M W _).
Proof. intros f s. left. reflexivity. Qed.

Lemma oblivious_writeBackup ms : oblivious (writeBackup ms : M W _).
Proof. intros f s. right. reflexivity. Qed.

(** Decompose a program into the primitives above. *)
Ltac oblivious_step :=
  first
    [ apply oblivious_bind; [|intros ?]
    | apply oblivious_try_catch; [|intros ?]
    | apply oblivious_ret
    | apply oblivious_throw
    | apply oblivious_getState
    | apply oblivious_modifyState
    | apply oblivious_call
    | apply oblivious_ask
    | apply oblivious_save
    | apply oblivious_writeBackup
    | match goal with
      | |- oblivious (if ?c then _ else _) => destruct c
      | |- oblivious (match ?x with _ => _ end) => destruct x
      end ].

Ltac oblivious_all := cbv zeta; repeat oblivious_step.

Lemma oblivious_updateProgress n desc cn ca :
  oblivious (updateProgress cl n desc cn ca).
Proof. unfold updateProgress, now. oblivious_all. Qed.

Lemma oblivious_getContractArtifact name : oblivious (getContractArtifact cl name).
Proof. unfold getContractArtifact. oblivious_all. Qed.

Lemma oblivious_getOnchainIDContractFactory name :
  oblivious (getOnchainIDContractFactory cl name).
Proof. unfold getOnchainIDContractFactory. oblivious_all. Qed.

Lemma oblivious_isContractDeployed addr : oblivious (isContractDeployed cl addr).
Proof. unfold isContractDeployed. oblivious_all. Qed.

Lemma oblivious_deployIfNeeded force V f args :
  oblivious (deployIfNeeded cl force V f args).
Proof.
  unfold deployIfNeeded. oblivious_all; apply oblivious_isContractDeployed.
Qed.

Lemma oblivious_configureVersion ia token ctr ir irs tir mc :
  oblivious (configureVersion cl ia token ctr ir irs tir mc).
Proof. unfold configureVersion, invoke, setFlag. oblivious_all. Qed.

Lemma oblivious_configureIdentityFactory target arg :
  oblivious (configureIdentityFactory cl target arg).
Proof. unfold configureIdentityFactory, invoke, setFlag. oblivious_all. Qed.

Lemma oblivious_configureTrexFactory target arg :
  oblivious (configureTrexFactory cl target arg).
Proof. unfold configureTrexFactory, invoke, setFlag. oblivious_all. Qed.

Lemma oblivious_configureIaFactory target arg :
  oblivious (configureIaFactory cl target arg).
Proof. unfold configureIaFactory, invoke, setFlag. oblivious_all. Qed.

Lemma oblivious_complete : oblivious (complete cl).
Proof.
  unfold complete, now. oblivious_all.
Qed.

Lemma oblivious_initDeployer accounts : oblivious (initDeployer cl accounts).
Proof.
  unfold initDeployer. oblivious_all.
Qed.

Lemma oblivious_steps force accounts : oblivious (steps cl force accounts).
Proof.
  unfold steps.
  repeat first
    [ apply oblivious_updateProgress
    | apply oblivious_getContractArtifact
    | apply oblivious_getOnchainIDContractFactory
    | apply oblivious_deployIfNeeded
    | apply oblivious_configureVersion
    | apply oblivious_configureIdentityFactory
    | apply oblivious_configureTrexFactory
    | apply oblivious_configureIaFactory
    | apply oblivious_complete
    | apply oblivious_bind; [|intros ?] ].
Qed.

(** In force mode the whole script is blind to the stored ledger. *)
Lemma oblivious_main_force : oblivious (main cl true).
Proof.
  unfold main, deploy, now. simpl negb. cbv iota.
  repeat first
    [ apply oblivious_initDeployer
    | apply oblivious_steps
    | apply oblivious_ask
    | apply oblivious_modifyState
    | apply oblivious_call
    | apply oblivious_ret
    | apply oblivious_bind; [|intros ?]
    | match goal with
      | |- oblivious (match ?x with _ => _ end) => destruct x
      end ].
Qed.

End Oblivious.

Lemma calls_app l1 l2 : calls (l1 ++ l2) = calls l1 ++ calls l2.
Proof. apply flat_map_app. Qed.

Lemma startsFresh_app l1 l2 : startsFresh l1 -> startsFresh (l1 ++ l2).
Proof.
  intros (d & rest & -> & Hd). exists d, (rest ++ l2). split; [reflexivity | exact Hd].
Qed.

Section ForcedPlan.

Context {W : Type} (cl : Client W).

Definition Done (l : list Call) (F : bool * bool * bool * bool) (s : St W) : Prop :=
  calls (log s) = l /\ flagsOf (progress (ds s)) = F /\ startsFresh (log s).

Definition Started (s : St W) : Prop := startsFresh (log s).

Lemma Done_step l F F' c l2 (s s' : St W) :
  Done l F s ->
  flagsOf (progress (ds s')) = F' ->
  log s' = log s ++ l2 -> calls l2 = c ->
  Done (l ++ c) F' s'.
Proof.
  intros (Hc & _ & Hs) HF Hlog Hl2. unfold Done.
  rewrite Hlog, calls_app, Hc, Hl2. repeat split; auto.
  now apply startsFresh_app.
Qed.

Lemma Done_same l F l2 (s s' : St W) :
  Done l F s ->
  flagsOf (progress (ds s')) = flagsOf (progress (ds s)) ->
  log s' = log s ++ l2 -> calls l2 = [] ->
  Done l F s'.
Proof.
  intros H HF Hlog Hl2.
  rewrite <- (app_nil_r l). eapply Done_step; eauto.
  rewrite HF. apply H.
Qed.

Lemma Started_step l F l2 (s s' : St W) :
  Done l F s -> log s' = log s ++ l2 -> Started s'.
Proof.
  intros (_ & _ & Hs) Hlog. unfold Started. rewrite Hlog.
  now apply startsFresh_app.
Qed.

(** Reading an artifact leaves everything but the world as it was. *)
Lemma getContractArtifact_silent name (s : St W) :
  let s' := final (getContractArtifact cl name s) in
  ds s' = ds s /\ log s' = log s.
Proof.
  unfold getContractArtifact.
  destruct (existsb (String.eqb name) contractPaths); [|split; reflexivity].
  unfold_monad.
  destruct (readArtifact cl (world s) (TrexArtifact name)) as [[[]|e] w];
    simpl; rewrite app_nil_r; split; reflexivity.
Qed.

Lemma getOnchainIDContractFactory_silent name (s : St W) :
  let s' := final (getOnchainIDContractFactory cl name s) in
  ds s' = ds s /\ log s' = log s.
Proof.
  unfold getOnchainIDContractFactory.
  destruct (existsb (String.eqb name) _); [|split; reflexivity].
  unfold_monad.
  destruct (readArtifact cl (world s) (OnchainIDArtifact name)) as [[[]|e] w];
    simpl; rewrite app_nil_r; split; reflexivity.
Qed.

Lemma done_silent {A} l F (m : M W A) :
  (forall s, let s' := final (m s) in ds s' = ds s /\ log s' = log s) ->
  triple (Done l F) m (fun _ => Done l F) (fun _ => Started).
Proof.
  intros Hm s Hs. destruct (Hm s) as [Hd Hl].
  destruct (m s) as [a s'|e s']; simpl in *.
  - eapply Done_same with (l2 := []); eauto; [now rewrite Hd | now rewrite app_nil_r].
  - eapply Started_step with (l2 := []); eauto. now rewrite app_nil_r.
Qed.

Lemma done_getContractArtifact l F name :
  triple (Done l F) (getContractArtifact cl name) (fun _ => Done l F) (fun _ => Started).
Proof. apply done_silent, getContractArtifact_silent. Qed.

Lemma done_getOnchainIDContractFactory l F name :
  triple (Done l F) (getOnchainIDContractFactory cl name)
         (fun _ => Done l F) (fun _ => Started).
Proof. apply done_silent, getOnchainIDContractFactory_silent. Qed.

Lemma done_updateProgress l F n desc cn ca :
  triple (Done l F) (updateProgress cl n desc cn ca)
         (fun _ => Done l F) (fun _ => Started).
Proof.
  intros s Hs.
  destruct (updateProgress_flags cl n desc cn ca s)
    as (s' & -> & _ & Hlog & _ & Hg & Hv).
  pose proof (Hg AddTokenFactory) as H1.
  pose proof (Hg SetTREXFactory) as H2.
  pose proof (Hg SetIAFactory) as H3.
  simpl in H1, H2, H3.
  eapply Done_same; eauto. unfold flagsOf.
  now rewrite Hv, H1, H2, H3.
Qed.

(** In force mode [deployIfNeeded] always deploys, without any query. *)
Lemma done_deployIfNeeded l F V f args :
  triple (Done l F) (deployIfNeeded cl true V f args)
         (fun _ => Done (l ++ [Deployment V]) F) (fun _ => Started).
Proof.
  intros s Hs. rewrite deployIfNeeded_run.
  assert (H : forall s1 : St W,
             Done l F s1 ->
             match redeploy cl V f args s1 with
             | Ok _ s' => Done (l ++ [Deployment V]) F s'
             | Throw _ s' => Started s'
             end).
  { intros s1 H1. rewrite redeploy_run.
    destruct (deployContract cl (world s1) f args) as [[a|e] w]; cbv zeta.
    - eapply Done_step; [exact H1 | apply H1 | |].
      + simpl. rewrite <- app_assoc. reflexivity.
      + reflexivity.
    - eapply Started_step; [exact H1 | reflexivity]. }
  destruct (getContract V (contracts (ds s))) as [a|]; [|now apply H].
  simpl negb. rewrite andb_false_l, andb_true_l.
  destruct (truthy (Some a)); [|now apply H].
  apply H. exact Hs.
Qed.

Lemma done_configureVersion l i t a ia token ctr ir irs tir mc :
  triple (Done l (false, i, t, a))
         (configureVersion cl ia token ctr ir irs tir mc)
         (fun _ => Done (l ++ [Method "addAndUseTREXVersion"]) (true, i, t, a))
         (fun _ => Started).
Proof.
  intros s Hs. rewrite configureVersion_run.
  assert (Hflags : flagsOf (progress (ds s)) = (false, i, t, a)) by apply Hs.
  injection Hflags as Hv Hi Ht Ha.
  unfold needsVersionConfig. rewrite Hv, orb_true_r. cbv zeta.
  destruct (invokeMethod cl (world s) (address ia) _ _) as [[[]|e] w].
  - eapply Done_step; [exact Hs | | reflexivity | reflexivity].
    unfold flagsOf. simpl. now rewrite Hi, Ht, Ha.
  - eapply Started_step; [exact Hs | reflexivity].
Qed.

Lemma done_configureIdentityFactory l v t a target arg :
  triple (Done l (v, false, t, a))
         (configureIdentityFactory cl target arg)
         (fun _ => Done (l ++ [Method "addTokenFactory"]) (v, true, t, a))
         (fun _ => Started).
Proof.
  intros s Hs. change (configureIdentityFactory cl target arg)
    with (runGuarded cl AddTokenFactory target arg).
  rewrite runGuarded_run.
  assert (Hflags : flagsOf (progress (ds s)) = (v, false, t, a)) by apply Hs.
  injection Hflags as Hv Hi Ht Ha.
  simpl flagOf. rewrite Hi. cbv zeta.
  destruct (invokeMethod cl (world s) (address target) _ _) as [[[]|e] w];
    [|destruct (alreadyDone AddTokenFactory e)];
    first [ eapply Started_step; [exact Hs | reflexivity]
          | eapply Done_step; [exact Hs | | reflexivity | reflexivity];
            unfold flagsOf; simpl; now rewrite Hv, Ht, Ha ].
Qed.

Lemma done_configureTrexFactory l v i a target arg :
  triple (Done l (v, i, false, a))
         (configureTrexFactory cl target arg)
         (fun _ => Done (l ++ [Method "setTREXFactory"]) (v, i, true, a))
         (fun _ => Started).
Proof.
  intros s Hs. change (configureTrexFactory cl target arg)
    with (runGuarded cl SetTREXFactory target arg).
  rewrite runGuarded_run.
  assert (Hflags : flagsOf (progress (ds s)) = (v, i, false, a)) by apply Hs.
  injection Hflags as Hv Hi Ht Ha.
  simpl flagOf. rewrite Ht. cbv zeta.
  destruct (invokeMethod cl (world s) (address target) _ _) as [[[]|e] w];
    [|destruct (alreadyDone SetTREXFactory e)];
    first [ eapply Started_step; [exact Hs | reflexivity]
          | eapply Done_step; [exact Hs | | reflexivity | reflexivity];
            unfold flagsOf; simpl; now rewrite Hv, Hi, Ha ].
Qed.

Lemma done_configureIaFactory l v i t target arg :
  triple (Done l (v, i, t, false))
         (configureIaFactory cl target arg)
         (fun _ => Done (l ++ [Method "setIAFactory"]) (v, i, t, true))
         (fun _ => Started).
Proof.
  intros s Hs. change (configureIaFactory cl target arg)
    with (runGuarded cl SetIAFactory target arg).
  rewrite runGuarded_run.
  assert (Hflags : flagsOf (progress (ds s)) = (v, i, t, false)) by apply Hs.
  injection Hflags as Hv Hi Ht Ha.
  simpl flagOf. rewrite Ha. cbv zeta.
  destruct (invokeMethod cl (world s) (address target) _ _) as [[[]|e] w];
    [|destruct (alreadyDone SetIAFactory e)];
    first [ eapply Started_step; [exact Hs | reflexivity]
          | eapply Done_step; [exact Hs | | reflexivity | reflexivity];
            unfold flagsOf; simpl; now rewrite Hv, Hi, Ht ].
Qed.

Lemma done_complete l F :
  triple (Done l F) (complete cl)
         (fun _ s => calls (log s) = l /\ Started s) (fun _ => Started).
Proof.
  intros s Hs. rewrite complete_run.
  destruct (clock cl (world s)) as [t1 w1]. cbv zeta.
  destruct (clock cl w1) as [t2 w2].
  destruct (clockMs cl w2) as [ms w3].
  destruct Hs as (Hc & _ & Hs). unfold Started. simpl.
  rewrite !calls_app, Hc. simpl. rewrite !app_nil_r.
  split; [reflexivity|]. now repeat apply startsFresh_app.
Qed.

Create HintDb forced discriminated.

Hint Resolve done_getContractArtifact done_getOnchainIDContractFactory
     done_updateProgress done_deployIfNeeded done_configureVersion
     done_configureIdentityFactory done_configureTrexFactory
     done_configureIaFactory : forced.

Lemma steps_forced accounts :
  triple (Done [] (false, false, false, false)) (steps cl true accounts)
         (fun _ s => calls (log s) = planCalls /\ Started s) (fun _ => Started).
Proof.
  unfold steps.
  repeat (lazymatch goal with
          | |- triple _ (bind _ _) _ _ =>
              eapply triple_bind;
              [ solve [eauto with forced] | intros ?; cbv beta ]
          end).
  apply done_complete.
Qed.

End ForcedPlan.

Section ForceReset.

Context {W : Type} (cl : Client W).

Lemma deploy_forced accounts (s : St W) :
  log s = [] -> freshLedger (ds s) -> deployer (ds s) = None ->
  match deploy cl true accounts s with
  | Ok _ s' => calls (log s') = planCalls /\ startsFresh (log s')
  | Throw _ s' => startsFresh (log s')
  end.
Proof.
  intros Hlog (Hc & Hf & Hdone & Hat) Hdep.
  unfold deploy, bind at 1. unfold initDeployer, bind at 1, getState.
  rewrite Hdep. change (negb (truthy None)) with true. cbv iota.
  unfold bind at 1, modifyState. rewrite updateProgress_run. simpl.
  destruct (clock cl (world s)) as [t w1]. simpl.
  match goal with
  | |- context [bind ?m ?k ?s1] =>
      assert (H1 : Done [] (false, false, false, false) s1)
  end.
  { unfold Done. simpl. rewrite Hlog. simpl. repeat split.
    - unfold flagsOf in *. simpl. exact Hf.
    - eexists _, []. split; [reflexivity|]. repeat split; simpl; auto. }
  revert H1.
  match goal with |- context [bind ?m ?k ?s1] => generalize s1 end.
  intros s1 H1. unfold bind at 1.
  pose proof (done_silent [] (false, false, false, false)
                (call (getBalance cl) (fun _ => []))) as Hb.
  assert (Hsilent : forall s0 : St W,
             let s' := final (call (getBalance cl) (fun _ => []) s0) in
             ds s' = ds s0 /\ log s' = log s0).
  { intros s0. unfold call.
    destruct (getBalance cl (world s0)) as [[[]|e] w0]; simpl;
      rewrite app_nil_r; split; reflexivity. }
  specialize (Hb Hsilent s1 H1).
  destruct (call (getBalance cl) (fun _ => []) s1) as [[] s2|e s2]; [|exact Hb].
  exact (steps_forced cl accounts s2 Hb).
Qed.

(** C6. In force mode the stored ledger is never read: the run behaves, call
    for call and flush for flush, as the same run with no ledger file at
    all, whatever the file holds (a completed ledger with units and flags
    included).  The first thing it writes is a ledger with no unit, no flag
    and no completion, so no flushed state mixes old entries with new
    ones; and a run that returns has made every call of the plan, all
    twelve deployments and all four method calls, without a single
    liveness query. *)
Theorem force_reset_starts_over (w : W) f bk :
  let r := runMain cl true w f bk in
  let r0 := runMain cl true w None bk in
  (ds (final r) = ds (final r0) /\ log (final r) = log (final r0) /\
   world (final r) = world (final r0) /\
   match r, r0 with
   | Ok _ _, Ok _ _ => True
   | Throw e _, Throw e0 _ => e = e0
   | _, _ => False
   end) /\
  match r with
  | Ok _ s' => calls (log s') = planCalls /\ startsFresh (log s')
  | Throw _ s' => log s' = [] \/ startsFresh (log s')
  end.
Proof.
  cbv zeta. split.
  - unfold runMain.
    change (start w f bk) with (refile f (start w None bk)).
    destruct (oblivious_main_force cl f (start w None bk)) as [-> | ->].
    + repeat split. destruct (main cl true (start w None bk)); auto.
    + destruct (main cl true (start w None bk)); simpl; auto.
  - unfold runMain, main, start. unfold bind at 1. unfold now, ask. simpl.
    destruct (clock cl w) as [t w1].
    unfold bind at 1. unfold modifyState. simpl.
    unfold bind at 1. unfold call. simpl.
    destruct (listAccounts cl w1) as [[accounts|e] w2]; simpl; [|now left].
    unfold bind at 1, ret. unfold bind at 1, modifyState. simpl.
    match goal with
    | |- context [deploy cl true accounts ?s] =>
        pose proof (deploy_forced accounts s eq_refl) as H;
        destruct (deploy cl true accounts s)
    end.
    + apply H; repeat split.
    + right. apply H; repeat split.
Qed.

End ForceReset.

(* ================================================================== *)
(** ** The idempotent skip *)

Lemma pins_of_NoDup U A cs :
  NoDup (map fst cs) -> getContract U cs = Some A -> pins U A cs.
Proof.
  induction cs as [|[k x] cs IH]; simpl; intros Hnd Hget a Hin; [contradiction|].
  inversion Hnd as [|? ? Hk Hnd']; subst.
  destruct (String.eqb_spec k U) as [->|Hne].
  - injection Hget as ->. destruct Hin as [[= ->]|Hin]; [reflexivity|].
    exfalso. apply Hk. change U with (fst (U, a)). now apply in_map.
  - destruct Hin as [[= -> _]|Hin]; [contradiction|]. now apply IH.
Qed.

Lemma In_deleteContract n k v cs :
  In (k, v) (deleteContract n cs) -> In (k, v) cs.
Proof.
  induction cs as [|[k' x] cs IH]; simpl; auto.
  destruct (String.eqb k' n); simpl; intuition.
Qed.

Lemma In_removeAll names k v cs :
  In (k, v) (removeAll names cs) -> In (k, v) cs.
Proof.
  unfold removeAll. revert cs.
  induction names as [|n names IH]; intros cs; simpl; auto.
  intros H. apply IH in H. eapply In_deleteContract; eauto.
Qed.

Lemma In_setContract n a k v cs :
  In (k, v) (setContract n a cs) -> In (k, v) cs \/ (k = n /\ v = a).
Proof.
  induction cs as [|[k' x] cs IH]; simpl.
  - intros [[= <- <-]|[]]. auto.
  - destruct (String.eqb_spec k' n) as [->|Hne]; simpl.
    + intros [[= <- <-]|H]; auto.
    + intros [H|H]; auto. apply IH in H. intuition.
Qed.

Section IdempotentSkip.

Context {W : Type} (cl : Client W).
Variables U A : string.

(** The chain reports code at [A], whenever it is asked. *)
Definition liveAt : Prop :=
  isAddress cl A = true /\ A <> "" /\
  forall w, exists code w',
      getCode cl w A = (Returned code, w') /\ code <> "0x" /\ code <> "0x0".

Hypothesis live : liveAt.

Lemma isContractDeployed_live (s : St W) :
  exists s1, isContractDeployed cl (Some A) s = Ok true s1 /\
             onlyQueries s s1 /\ calls (log s1) = calls (log s) ++ [Query].
Proof.
  destruct live as (Hia & Hne & Hcode).
  pose proof (isContractDeployed_run cl (Some A) s) as Hrun. cbv beta iota in Hrun.
  apply truthy_Some in Hne. rewrite Hne, Hia in Hrun. simpl in Hrun.
  destruct (Hcode (world s)) as (code & w' & Hq & H1 & H2).
  rewrite Hq in Hrun.
  destruct (String.eqb_spec code "0x"); [contradiction|].
  destruct (String.eqb_spec code "0x0"); [contradiction|].
  eexists. split; [exact Hrun|]. split.
  - repeat split. simpl. eexists. split; [reflexivity | repeat constructor].
  - simpl. now rewrite calls_app.
Qed.

(** The skip itself: no deployment, the ledger object and the file as they
    were, the handle attached at the cached address. *)
Lemma deployIfNeeded_skips f args (s : St W) :
  getContract U (contracts (ds s)) = Some A ->
  exists s1,
    deployIfNeeded cl false U f args s = Ok (attach A) s1 /\
    ds s1 = ds s /\ file s1 = file s /\ backups s1 = backups s /\
    onlyQueries s s1 /\
    calls (log s1) = calls (log s) ++ [Query].
Proof.
  intros Hget. rewrite deployIfNeeded_run, Hget.
  destruct live as (_ & Hne & _). apply truthy_Some in Hne. rewrite Hne.
  change (negb false && true) with true. cbv iota.
  destruct (isContractDeployed_live s) as (s1 & -> & Hq & Hc).
  exists s1. destruct Hq as (Hd & Hf & Hb & Hl). repeat split; auto.
Qed.

(** The ledger object maps [U] to [A], in every entry for [U]. *)
Definition cached (d : deploymentState) : Prop :=
  getContract U (contracts d) = Some A /\ pins U A (contracts d).

(** No deployment of [U]; every flush and backup still maps [U] to [A]. *)
Definition untouched (ev : Event) : Prop :=
  match ev with
  | EvDeploy n _ _ _ => n <> U
  | EvSave d => cached d
  | EvBackup _ d => cached d
  | _ => True
  end.

Lemma untouched_query ev : isQuery ev -> untouched ev.
Proof. destruct ev; simpl; auto; contradiction. Qed.

Lemma cached_set V a d :
  cached d -> (V = U -> a = A) ->
  cached (set_contracts (setContract V a (contracts d)) d).
Proof.
  intros [Hget Hpin] HR. split; simpl.
  - destruct (String.eqb_spec V U) as [->|Hne].
    + rewrite (HR eq_refl). apply getContract_set_same.
    + rewrite getContract_set_other; auto.
  - intros x Hin. apply In_setContract in Hin as [Hin | [<- ->]]; auto.
Qed.

Lemma cached_delete V d :
  cached d -> V <> U ->
  cached (set_contracts (deleteContract V (contracts d)) d).
Proof.
  intros [Hget Hpin] Hne. split; simpl.
  - rewrite getContract_delete_other; auto.
  - intros x Hin. apply In_deleteContract in Hin. auto.
Qed.

Lemma skip_deployIfNeeded V f args :
  triple (Inv cached untouched) (deployIfNeeded cl false V f args)
         (fun h s => Inv cached untouched s /\ (V = U -> address h = A))
         (fun _ => Inv cached untouched).
Proof.
  intros s Hs. destruct (String.eqb_spec V U) as [->|Hne].
  - destruct (deployIfNeeded_skips f args s (proj1 (proj1 Hs)))
      as (s1 & -> & _ & _ & _ & Hq & _).
    split; [|reflexivity].
    eapply Inv_quiet; eauto using untouched_query.
  - assert (Hre : forall s1 : St W,
               Inv cached untouched s1 ->
               match redeploy cl V f args s1 with
               | Ok h s' => Inv cached untouched s' /\ (V = U -> address h = A)
               | Throw _ s' => Inv cached untouched s'
               end).
    { intros s1 [HG Hphi]. rewrite redeploy_run.
      destruct (deployContract cl (world s1) f args) as [[a|e] w]; cbv zeta.
      - assert (cached (set_contracts (setContract V a (contracts (ds s1))) (ds s1)))
          by (apply cached_set; [assumption | intros; contradiction]).
        split; [|intros; contradiction].
        split; simpl; [assumption|].
        repeat (apply Forall_app; split); auto; repeat constructor; auto.
      - split; simpl; [assumption|].
        apply Forall_app; split; auto. }
    destruct (deployIfNeeded_cases cl false V f args s)
      as [(a & s1 & _ & _ & _ & Hq & ->) | [(s1 & Hq & ->) | (s1 & Hq & ->)]].
    + split; [|intros; contradiction].
      eapply Inv_quiet; eauto using untouched_query.
    + apply Hre. eapply Inv_quiet; eauto using untouched_query.
    + apply Hre.
      destruct (Inv_quiet cached untouched untouched_query s s1 Hs Hq) as [HG Hphi].
      split; simpl; [|assumption]. now apply cached_delete.
Qed.

Lemma contractsToRemove_keeps (entries : Contracts) (s : St W) :
  pins U A entries ->
  exists names s',
    contractsToRemove cl entries s = Ok names s' /\
    onlyQueries s s' /\ ~ In U names.
Proof.
  revert s. induction entries as [|[n a] rest IH]; intros s Hpin.
  - exists [], s. repeat split; [apply onlyQueries_refl | auto].
  - rewrite contractsToRemove_cons. unfold bind.
    assert (Hrest : pins U A rest) by (intros x Hx; apply Hpin; now right).
    destruct (String.eqb_spec n U) as [->|Hne].
    + rewrite (Hpin a (or_introl eq_refl)).
      destruct (isContractDeployed_live s) as (s1 & -> & Hq & _).
      destruct (IH s1 Hrest) as (names & s2 & -> & Hq2 & Hnot).
      eexists _, s2. split; [reflexivity|].
      split; [eapply onlyQueries_trans; eauto | exact Hnot].
    + destruct (isContractDeployed_quiet cl (Some a) s) as (b & s1 & -> & Hq).
      destruct (IH s1 Hrest) as (names & s2 & -> & Hq2 & Hnot).
      eexists _, s2. split; [reflexivity|].
      split; [eapply onlyQueries_trans; eauto|].
      destruct b; simpl; [exact Hnot|]. intros [H|H]; auto.
Qed.

Lemma skip_verifyExisting :
  triple (Inv cached untouched) (verifyExisting cl)
         (fun _ => Inv cached untouched) (fun _ => Inv cached untouched).
Proof.
  intros s Hs. unfold verifyExisting, bind at 1, getState. unfold bind at 1.
  destruct (contractsToRemove_keeps (contracts (ds s)) s (proj2 (proj1 Hs)))
    as (names & s1 & -> & Hq & Hnot).
  destruct (Inv_quiet cached untouched untouched_query s s1 Hs Hq) as [[Hget Hpin] Hphi].
  unfold modifyState. split; simpl; [|assumption]. split; simpl.
  - now rewrite getContract_removeAll.
  - intros x Hx. apply In_removeAll in Hx. auto.
Qed.

Lemma skip_complete :
  triple (Inv cached untouched) (complete cl)
         (fun _ => Inv cached untouched) (fun _ => Inv cached untouched).
Proof.
  intros s [HG Hphi]. rewrite complete_run.
  destruct (clock cl (world s)) as [t1 w1]. cbv zeta.
  destruct (clock cl w1) as [t2 w2].
  destruct (clockMs cl w2) as [ms w3].
  split; simpl; [exact HG|].
  repeat (apply Forall_app; split); auto; repeat constructor; exact HG.
Qed.

End IdempotentSkip.

(** C1. Let the chain report code at [A] whenever asked.  With force mode
    off, [deployIfNeeded] for a unit [U] cached at [A] makes no deploy call:
    it returns the handle attached at [A] after one code query, and leaves
    the ledger object and the file as they were; the progress update that
    follows writes [A] back under [U] and so leaves the contracts object
    as it was.  And a whole run that loads a ledger mapping [U] to [A] never
    deploys [U]: every flush and backup it writes still maps [U] to [A]. *)
Theorem idempotent_skip {W} (cl : Client W) (U A : string) :
  liveAt cl A ->
  (forall f args (s : St W),
      getContract U (contracts (ds s)) = Some A ->
      exists s1,
        deployIfNeeded cl false U f args s = Ok (attach A) s1 /\
        address (attach A) = A /\
        ds s1 = ds s /\ file s1 = file s /\
        calls (log s1) = calls (log s) ++ [Query] /\
        forall n desc,
        exists s2,
          updateProgress cl n desc (Some U) (Some (address (attach A))) s1
          = Ok tt s2 /\
          contracts (ds s2) = contracts (ds s) /\
          file s2 = Some (Stored (ds s2))) /\
  (forall (w : W) e bk,
      getContract U (contracts e) = Some A ->
      NoDup (map fst (contracts e)) ->
      Forall (untouched U A)
             (log (final (runMain cl false w (Some (Stored e)) bk)))).
Proof.
  intros Hlive. split.
  - intros f args s Hget.
    destruct (deployIfNeeded_skips cl U A Hlive f args s Hget)
      as (s1 & Hrun & Hd & Hf & _ & _ & Hc).
    exists s1. repeat split; auto.
    intros n desc. rewrite updateProgress_run.
    destruct (clock cl (world s1)) as [t w1]. cbv zeta.
    eexists. split; [reflexivity|].
    destruct (truthy (Some U) && truthy (Some (address (attach A))));
      simpl; split; try reflexivity; rewrite Hd; try reflexivity.
    now apply setContract_same.
  - intros w e bk Hget Hnd. unfold runMain.
    pose proof (main_frame cl false (cached U A) (untouched U A)
                  (fun V a => V = U -> a = A)
                  (fun p d Hd => Hd) (fun v d Hd => Hd) (untouched_query U A)
                  (fun _ _ _ _ => I) (fun d Hd => Hd)
                  (fun V a d Hd HR _ => cached_set U A V a d Hd HR)
                  (skip_deployIfNeeded cl U A Hlive)
                  (fun _ => Inv (cached U A) (untouched U A))
                  (start w (Some (Stored e)) bk) (Forall_nil _)) as H.
    simpl in H.
    assert (Hmerge : completed e = false ->
                     cached U A (mergeExisting e (freshState (fst (clock cl w))))).
    { intros _. split; simpl; [exact Hget | now apply pins_of_NoDup]. }
    specialize (H (fun F => match Bool.diff_false_true F with end)
                  (fun _ => Hmerge)
                  (skip_verifyExisting cl U A Hlive) (skip_complete cl U A)).
    destruct (main cl false (start w (Some (Stored e)) bk)) as [[] s'|err s']; simpl.
    + destruct H as [[_ H] | (_ & -> & _)]; [exact H | constructor].
    + exact H.
Qed.

(* ================================================================== *)
(** ** Purging a dead address *)

Section Growing.

Context {W : Type} (cl : Client W).


























Lemma initDeployer_run accounts (s : St W) :
  initDeployer cl accounts s =
  if negb (truthy (deployer (ds s))) then
    updateProgress cl 0 "Initialized deployer" None None
      (mkSt (set_deployer (hd_error accounts) (ds s)) (world s) (file s)
            (backups s) (log s))
  else Ok tt s.
Proof.
  unfold initDeployer. unfold_monad.
  destruct (negb (truthy (deployer (ds s)))); reflexivity.
Qed.

Lemma deploy_run force accounts (s : St W) :
  deploy cl force accounts s =
  match initDeployer cl accounts s with
  | Ok _ s1 =>
      match call (getBalance cl) (fun _ => []) s1 with
      | Ok _ s2 => steps cl force accounts s2
      | Throw e s2 => Throw e s2
      end
  | Throw e s1 => Throw e s1
  end.
Proof. reflexivity. Qed.


End Growing.

Section Purge.

Context {W : Type} (cl : Client W).





End Purge.

(* ================================================================== *)
(** ** The flush after a guarded action *)

(** The guarded action that calls method [m]. *)
Definition guardedBy (m : string) : option Guarded :=
  if String.eqb m "addTokenFactory" then Some AddTokenFactory
  else if String.eqb m "setTREXFactory" then Some SetTREXFactory
  else if String.eqb m "setIAFactory" then Some SetIAFactory
  else None.

(** The call settles the action: it returned, or it threw a message the
    [catch] knows.  The flag is set in the ledger object in both cases. *)
Definition settles (g : Guarded) (r : outcome unit) : bool :=
  match r with
  | Returned _ => true
  | Thrown e => alreadyDone g e
  end.

(** The progress update that follows the action in the plan. *)
Definition flushStep (g : Guarded) : Q :=
  match g with
  | AddTokenFactory => 5.1
  | SetTREXFactory => 7.1
  | SetIAFactory => 7.1
  end.

(** [l] starts with the flush that stores the flag of [g]. *)
Definition flushed (g : Guarded) (l : list Event) : Prop :=
  match l with
  | EvSave d :: _ =>
      step (progress d) = flushStep g /\ flagOf g (progress d) = true
  | _ => False
  end.

(** Where the flushes sit in [l].  A guarded call that settles its action
    is directly followed by the flush that stores the flag, 5.1 for
    [addTokenFactory] and 7.1 for the two actions of step 7; between
    [setTREXFactory] and that flush there may be the call of
    [setIAFactory], and when that call does not settle, nothing follows
    and the flag of [setTREXFactory] is never stored.  Nothing follows a
    guarded call that does not settle. *)
Fixpoint placed (l : list Event) : Prop :=
  match l with
  | [] => True
  | EvInvoke _ m _ r :: rest =>
      match guardedBy m with
      | Some g =>
          if settles g r then
            flushed g rest \/
            (g = SetTREXFactory /\
             match rest with
             | EvInvoke _ m' _ r' :: rest' =>
                 guardedBy m' = Some SetIAFactory /\
                 if settles SetIAFactory r' then flushed g rest' else rest' = []
             | _ => False
             end)
          else rest = []
      | None => True
      end /\ placed rest
  | _ :: rest => placed rest
  end.

Definition unguarded (ev : Event) : Prop :=
  match ev with
  | EvInvoke _ m _ _ => guardedBy m = None
  | _ => True
  end.

(** [l] leaves nothing open: whatever follows it is placed as well. *)
Definition extendable (l : list Event) : Prop :=
  forall l', placed l' -> placed (l ++ l').

Lemma guardedBy_methodOf g : guardedBy (methodOf g) = Some g.
Proof. destruct g; reflexivity. Qed.

Lemma extendable_placed l : extendable l -> placed l.
Proof. intros H. rewrite <- (app_nil_r l). now apply H. Qed.

Lemma extendable_app l1 l2 : extendable l1 -> extendable l2 -> extendable (l1 ++ l2).
Proof. intros H1 H2 l' Hl'. rewrite <- app_assoc. auto. Qed.

Lemma extendable_unguarded l : Forall unguarded l -> extendable l.
Proof.
  intros H l' Hl'. induction H as [|ev l Hev _ IH]; [exact Hl'|].
  destruct ev as [a r|V f args r|t m args r|d|ms d]; simpl in *; auto.
  rewrite Hev. auto.
Qed.

Lemma extendable_save d : extendable [EvSave d].
Proof. intros l' Hl'. exact Hl'. Qed.

(** One settled call and its flush. *)
Lemma extendable_settled g t args r d :
  settles g r = true ->
  step (progress d) = flushStep g -> flagOf g (progress d) = true ->
  extendable [EvInvoke t (methodOf g) args r; EvSave d].
Proof.
  intros Hr Hstep Hflag l' Hl'. cbn [app placed].
  rewrite guardedBy_methodOf, Hr. split; [left; split; assumption|].
  exact Hl'.
Qed.

(** The two calls of step 7 and their flush. *)
Lemma extendable_settled_both t args r t' args' r' d :
  settles SetTREXFactory r = true -> settles SetIAFactory r' = true ->
  step (progress d) = 7.1 ->
  flagOf SetTREXFactory (progress d) = true ->
  flagOf SetIAFactory (progress d) = true ->
  extendable [EvInvoke t "setTREXFactory" args r;
              EvInvoke t' "setIAFactory" args' r'; EvSave d].
Proof.
  intros Hr Hr' Hstep Hflag Hflag' l' Hl'.
  change "setTREXFactory" with (methodOf SetTREXFactory).
  change "setIAFactory" with (methodOf SetIAFactory).
  cbn [app placed]. rewrite !guardedBy_methodOf, Hr, Hr'.
  split; [right; split; [reflexivity|]; split; [reflexivity|]; split; assumption|].
  split; [left; split; assumption|]. exact Hl'.
Qed.

Lemma placed_fatal g t args r :
  settles g r = false -> placed [EvInvoke t (methodOf g) args r].
Proof.
  intros Hr. cbn [placed]. rewrite guardedBy_methodOf, Hr. auto.
Qed.

Lemma placed_settled_fatal t args r t' args' r' :
  settles SetTREXFactory r = true -> settles SetIAFactory r' = false ->
  placed [EvInvoke t "setTREXFactory" args r; EvInvoke t' "setIAFactory" args' r'].
Proof.
  intros Hr Hr'.
  change "setTREXFactory" with (methodOf SetTREXFactory).
  change "setIAFactory" with (methodOf SetIAFactory).
  cbn [placed]. rewrite !guardedBy_methodOf, Hr, Hr'.
  split; [right; auto|]. auto.
Qed.

Section Placement.

Context {W : Type} (cl : Client W).

(** [m] makes no guarded call. *)
Definition plain {A} (m : M W A) : Prop :=
  forall s, exists l, log (final (m s)) = log s ++ l /\ Forall unguarded l.

Lemma plain_bind {A B} (m : M W A) (k : A -> M W B) :
  plain m -> (forall a, plain (k a)) -> plain (bind m k).
Proof.
  intros Hm Hk s. unfold bind. destruct (Hm s) as (l & Hl & Hu).
  destruct (m s) as [a s'|e s']; simpl in *; [|eauto].
  destruct (Hk a s') as (l' & Hl' & Hu'). exists (l ++ l').
  rewrite Hl', Hl, app_assoc. split; [reflexivity | now apply Forall_app].
Qed.

Lemma plain_try_catch {A} (m : M W A) (h : Error -> M W A) :
  plain m -> (forall e, plain (h e)) -> plain (try_catch m h).
Proof.
  intros Hm Hh s. unfold try_catch. destruct (Hm s) as (l & Hl & Hu).
  destruct (m s) as [a s'|e s']; simpl in *; [eauto|].
  destruct (Hh e s') as (l' & Hl' & Hu'). exists (l ++ l').
  rewrite Hl', Hl, app_assoc. split; [reflexivity | now apply Forall_app].
Qed.

Lemma plain_same {A} (m : M W A) :
  (forall s, log (final (m s)) = log s) -> plain m.
Proof. intros H s. exists []. rewrite app_nil_r. auto. Qed.

Lemma plain_call {A} (op : W -> outcome A * W) ev :
  (forall r, Forall unguarded (ev r)) -> plain (call op ev).
Proof.
  intros Hev s. unfold call. destruct (op (world s)) as [[a|e] w]; simpl; eauto.
Qed.

Lemma plain_ask {A} (op : W -> A * W) : plain (ask op).
Proof.
  apply plain_same. intros s. unfold ask.
  destruct (op (world s)) as [a w]; reflexivity.
Qed.

Lemma plain_save : plain (saveDeploymentState : M W _).
Proof. intros s. simpl. eexists. split; [reflexivity|]. repeat constructor. Qed.

Lemma plain_writeBackup ms : plain (writeBackup ms : M W _).
Proof. intros s. simpl. eexists. split; [reflexivity|]. repeat constructor. Qed.

Ltac plain_all :=
  cbv zeta;
  repeat first
    [ apply plain_bind; [|intros ?]
    | apply plain_try_catch; [|intros ?]
    | apply plain_save
    | apply plain_writeBackup
    | apply plain_ask
    | apply plain_call; intros ?; repeat constructor
    | apply plain_same; reflexivity
    | match goal with
      | |- plain (if ?c then _ else _) => destruct c
      | |- plain (match ?x with _ => _ end) => destruct x
      end ].

Lemma plain_updateProgress n desc cn ca : plain (updateProgress cl n desc cn ca).
Proof. unfold updateProgress, now. plain_all. Qed.

Lemma plain_getContractArtifact name : plain (getContractArtifact cl name).
Proof. unfold getContractArtifact. plain_all. Qed.

Lemma plain_getOnchainIDContractFactory name :
  plain (getOnchainIDContractFactory cl name).
Proof. unfold getOnchainIDContractFactory. plain_all. Qed.

Lemma plain_isContractDeployed addr : plain (isContractDeployed cl addr).
Proof. unfold isContractDeployed. plain_all. Qed.

Lemma plain_deployIfNeeded force V f args :
  plain (deployIfNeeded cl force V f args).
Proof.
  unfold deployIfNeeded. plain_all; apply plain_isContractDeployed.
Qed.

Lemma plain_configureVersion ia token ctr ir irs tir mc :
  plain (configureVersion cl ia token ctr ir irs tir mc).
Proof. unfold configureVersion, invoke, setFlag. plain_all. Qed.

Lemma plain_complete : plain (complete cl).
Proof. unfold complete, now. plain_all. Qed.

Lemma plain_initDeployer accounts : plain (initDeployer cl accounts).
Proof. unfold initDeployer. plain_all. Qed.

Lemma plain_contractsToRemove entries : plain (contractsToRemove cl entries).
Proof.
  induction entries as [|[n a] rest IH]; [now apply plain_same|].
  rewrite contractsToRemove_cons.
  apply plain_bind; [apply plain_isContractDeployed | intros b].
  apply plain_bind; [exact IH | intros names]. now apply plain_same.
Qed.

Lemma plain_verifyExisting : plain (verifyExisting cl).
Proof.
  unfold verifyExisting.
  apply plain_bind; [now apply plain_same | intros d].
  apply plain_bind; [apply plain_contractsToRemove | intros names].
  now apply plain_same.
Qed.

(** Every flush [m] owes is placed: when [m] returns, nothing is left
    open; when it throws, the log ends in place. *)
Definition neat {A} (m : M W A) : Prop :=
  forall s, exists l,
    log (final (m s)) = log s ++ l /\
    match m s with
    | Ok _ _ => extendable l
    | Throw _ _ => placed l
    end.

Lemma neat_bind {A B} (m : M W A) (k : A -> M W B) :
  neat m -> (forall a, neat (k a)) -> neat (bind m k).
Proof.
  intros Hm Hk s. unfold bind. destruct (Hm s) as (l & Hl & Hp).
  destruct (m s) as [a s'|e s']; simpl in *; [|eauto].
  destruct (Hk a s') as (l' & Hl' & Hp'). exists (l ++ l').
  rewrite Hl', Hl, app_assoc. split; [reflexivity|].
  destruct (k a s'); [now apply extendable_app | now apply Hp].
Qed.

Lemma neat_plain {A} (m : M W A) : plain m -> neat m.
Proof.
  intros Hm s. destruct (Hm s) as (l & Hl & Hu). exists l. split; [exact Hl|].
  apply extendable_unguarded in Hu.
  destruct (m s); [exact Hu | now apply extendable_placed].
Qed.

(** [m] run after a prefix that leaves nothing open. *)
Lemma neat_after {A} (m : M W A) (s s1 : St W) l1 :
  neat m -> log s1 = log s ++ l1 -> extendable l1 ->
  exists l,
    log (final (m s1)) = log s ++ l /\
    match m s1 with
    | Ok _ _ => extendable l
    | Throw _ _ => placed l
    end.
Proof.
  intros Hm Hl1 H1. destruct (Hm s1) as (l & Hl & Hp). exists (l1 ++ l).
  rewrite Hl, Hl1, app_assoc. split; [reflexivity|].
  destruct (m s1); [now apply extendable_app | now apply H1].
Qed.

Lemma flagOf_raiseFlag_keeps g g' p :
  flagOf g' p = true -> flagOf g' (raiseFlag g p) = true.
Proof. destruct g, g'; simpl; auto. Qed.

(** What a guarded action adds to the log, and the flags it leaves. *)
Lemma runGuarded_trace g target arg (s : St W) :
  match runGuarded cl g target arg s with
  | Ok _ s' =>
      flagOf g (progress (ds s')) = true /\
      (forall g', flagOf g' (progress (ds s)) = true ->
                  flagOf g' (progress (ds s')) = true) /\
      (log s' = log s \/
       exists r,
         settles g r = true /\
         log s' = log s ++ [EvInvoke (address target) (methodOf g)
                                     [VStr (address arg)] r])
  | Throw e s' =>
      settles g (Thrown e) = false /\
      log s' = log s ++ [EvInvoke (address target) (methodOf g)
                                  [VStr (address arg)] (Thrown e)]
  end.
Proof.
  rewrite runGuarded_run.
  destruct (flagOf g (progress (ds s))) eqn:Hflag; [auto|].
  cbv zeta.
  destruct (invokeMethod cl (world s) (address target) (methodOf g) _)
    as [[[]|e] w].
  - simpl. rewrite flagOf_raiseFlag. split; [reflexivity|].
    split; [intros g'; apply flagOf_raiseFlag_keeps|].
    right. exists (Returned tt). auto.
  - destruct (alreadyDone g e) eqn:Hdone; simpl.
    + rewrite flagOf_raiseFlag. split; [reflexivity|].
      split; [intros g'; apply flagOf_raiseFlag_keeps|].
      right. exists (Thrown e). auto.
    + auto.
Qed.

(** A guarded action and the progress update that follows it. *)
Lemma neat_flush g target arg desc (rest : M W unit) :
  neat rest ->
  neat (runGuarded cl g target arg ;;
        updateProgress cl (flushStep g) desc None None ;; rest).
Proof.
  intros Hrest s. unfold bind.
  pose proof (runGuarded_trace g target arg s) as Hg.
  destruct (runGuarded cl g target arg s) as [[] s1|e s1].
  2:{ destruct Hg as [Hr Hl]. eexists. split; [exact Hl|]. now apply placed_fatal. }
  destruct Hg as (Hflag & _ & Hlog).
  destruct (updateProgress_flags cl (flushStep g) desc None None s1)
    as (s2 & -> & _ & Hl2 & Hstep & Hkeep & _).
  rewrite <- (Hkeep g) in Hflag.
  destruct Hlog as [Hl1 | (r & Hr & Hl1)]; rewrite Hl1 in Hl2.
  - apply (neat_after rest s s2 [EvSave (ds s2)] Hrest Hl2), extendable_save.
  - rewrite <- app_assoc in Hl2.
    apply (neat_after rest s s2 _ Hrest Hl2). now apply extendable_settled.
Qed.

(** The two guarded actions of step 7 and the progress update that follows
    them. *)
Lemma neat_flush_both ta tf ia desc (rest : M W unit) :
  neat rest ->
  neat (configureTrexFactory cl ta tf ;; configureIaFactory cl ta ia ;;
        updateProgress cl 7.1 desc None None ;; rest).
Proof.
  intros Hrest s. unfold bind.
  pose proof (runGuarded_trace SetTREXFactory ta tf s) as Hg. simpl runGuarded in Hg.
  destruct (configureTrexFactory cl ta tf s) as [[] s1|e s1].
  2:{ destruct Hg as [Hr Hl]. eexists. split; [exact Hl|].
      now apply (placed_fatal SetTREXFactory). }
  destruct Hg as (Hflag & _ & Hlog).
  pose proof (runGuarded_trace SetIAFactory ta ia s1) as Hg'. simpl runGuarded in Hg'.
  destruct (configureIaFactory cl ta ia s1) as [[] s2|e s2].
  2:{ destruct Hg' as [Hr' Hl']. simpl final.
      destruct Hlog as [Hl1 | (r & Hr & Hl1)]; rewrite Hl1 in Hl'.
      - eexists. split; [exact Hl'|]. now apply (placed_fatal SetIAFactory).
      - rewrite <- app_assoc in Hl'. eexists. split; [exact Hl'|].
        now apply placed_settled_fatal. }
  destruct Hg' as (Hflag' & Hmono & Hlog').
  apply Hmono in Hflag.
  destruct (updateProgress_flags cl 7.1 desc None None s2)
    as (s3 & -> & _ & Hl3 & Hstep & Hkeep & _).
  rewrite <- (Hkeep SetTREXFactory) in Hflag.
  rewrite <- (Hkeep SetIAFactory) in Hflag'.
  destruct Hlog as [Hl1 | (r & Hr & Hl1)];
    destruct Hlog' as [Hl2 | (r' & Hr' & Hl2)];
    rewrite Hl2, Hl1 in Hl3; rewrite <- ?app_assoc in Hl3; simpl app in Hl3;
    apply (neat_after rest s s3 _ Hrest Hl3).
  - apply extendable_save.
  - now apply (extendable_settled SetIAFactory).
  - now apply (extendable_settled SetTREXFactory).
  - now apply extendable_settled_both.
Qed.

Ltac plainly :=
  apply neat_plain;
  first [ apply plain_updateProgress
        | apply plain_getContractArtifact
        | apply plain_getOnchainIDContractFactory
        | apply plain_deployIfNeeded
        | apply plain_configureVersion
        | apply plain_complete
        | apply plain_initDeployer
        | apply plain_verifyExisting
        | apply plain_ask
        | apply plain_call; intros ?; repeat constructor
        | apply plain_same; reflexivity ].

Lemma neat_steps force accounts : neat (steps cl force accounts).
Proof.
  unfold steps.
  repeat lazymatch goal with
         | |- neat (bind (configureIdentityFactory _ _ _) _) =>
             apply (neat_flush AddTokenFactory)
         | |- neat (bind (configureTrexFactory _ _ _) _) =>
             apply neat_flush_both
         | |- neat (bind _ _) => apply neat_bind; [plainly | intros ?]
         end.
  plainly.
Qed.

Lemma neat_main force : neat (main cl force).
Proof.
  assert (Hdeploy : forall accounts, neat (deploy cl force accounts)).
  { intros accounts. unfold deploy.
    apply neat_bind; [plainly | intros ?].
    apply neat_bind; [plainly | intros ?].
    apply neat_steps. }
  unfold main, now.
  apply neat_bind; [plainly | intros t].
  apply neat_bind; [plainly | intros ?].
  apply neat_bind; [plainly | intros accounts].
  apply neat_bind.
  { apply neat_plain, plain_same. intros s. destruct (negb force); reflexivity. }
  intros [[e listed]|].
  - destruct (negb force).
    + apply neat_bind; [plainly | intros ?].
      destruct (completed e); [destruct listed; plainly|].
      apply neat_bind; [plainly | intros ?].
      apply Hdeploy.
    + destruct force; [|apply Hdeploy].
      apply neat_bind; [plainly | intros ?]. apply Hdeploy.
  - destruct force; [|apply Hdeploy].
    apply neat_bind; [plainly | intros ?]. apply Hdeploy.
Qed.

(** C4, as the code has it.  When the method call of a guarded action
    fails and the message contains one of the action's known substrings
    (matched case-sensitively), the action returns normally with its flag
    set in the ledger object; the action itself writes nothing, and the
    flag reaches the file with the next progress flush.  When the message
    contains none of the substrings, the error is thrown on, nothing after
    the action runs, and the flag stays false, in the object and in the
    file.  In every run of the script the flushes sit where [placed] says:
    a call of [addTokenFactory] that returns, or throws a known message,
    is directly followed by the flush of step 5.1 with the flag set; a
    call of [setIAFactory] that does so, by the flush of step 7.1; a call
    of [setTREXFactory] that does so, by the flush of step 7.1 or by the
    call of [setIAFactory], and then the flush of step 7.1 stores both
    flags if that call settles too, and nothing at all is written if it
    does not.  A guarded call that throws an unknown message is the last
    thing the run does. *)
Theorem guarded_action_recovery :
  (forall g target arg (s : St W) (e : Error) (w : W),
      flagOf g (progress (ds s)) = false ->
      invokeMethod cl (world s) (address target) (methodOf g) [VStr (address arg)]
      = (Thrown e, w) ->
      (mentionsKnown g e ->
       exists s',
         runGuarded cl g target arg s = Ok tt s' /\
         flagOf g (progress (ds s')) = true /\
         file s' = file s /\
         forall n desc cn ca,
         exists s'',
           updateProgress cl n desc cn ca s' = Ok tt s'' /\
           file s'' = Some (Stored (ds s'')) /\
           flagOf g (progress (ds s'')) = true) /\
      (~ mentionsKnown g e ->
       exists s',
         runGuarded cl g target arg s = Throw e s' /\
         flagOf g (progress (ds s')) = false /\
         file s' = file s /\
         forall (rest : M W unit), (runGuarded cl g target arg ;; rest) s = Throw e s')) /\
  (forall g e, settles g (Thrown e) = true <-> mentionsKnown g e) /\
  (forall forceRedeploy (w : W) f bk,
      placed (log (final (runMain cl forceRedeploy w f bk)))).
Proof.
  split; [|split].
  - intros g target arg s e w Hflag Hcall. split.
    + intros Hmsg. apply alreadyDone_spec in Hmsg.
      destruct (runGuarded_recovers cl g target arg s e w Hflag Hcall Hmsg)
        as (s' & Hrun & Hds & Hset & Hfile & Hlog).
      exists s'. repeat split; auto.
      intros n desc cn ca.
      destruct (updateProgress_flags cl n desc cn ca s')
        as (s'' & Hup & Hf & _ & _ & Hkeep & _).
      exists s''. repeat split; auto. now rewrite Hkeep.
    + intros Hmsg.
      assert (Hno : alreadyDone g e = false).
      { destruct (alreadyDone g e) eqn:E; [|reflexivity].
        exfalso. apply Hmsg. now apply alreadyDone_spec. }
      destruct (runGuarded_fatal cl g target arg s e w Hflag Hcall Hno)
        as (s' & Hrun & Hds & Hfile & Hlog).
      exists s'. repeat split; auto.
      * now rewrite Hds.
      * intros rest. unfold bind. now rewrite Hrun.
  - intros g e. apply alreadyDone_spec.
  - intros forceRedeploy w f bk. unfold runMain.
    destruct (neat_main forceRedeploy (start w f bk)) as (l & Hl & Hp).
    rewrite Hl. simpl.
    destruct (main cl forceRedeploy (start w f bk));
      [now apply extendable_placed | exact Hp].
Qed.

End Placement.

(* ================================================================== *)
(** ** Concrete runs on the simulated chain *)


(** C3 fails as stated: the interrupted run leaves step 4 in the file, and
    the first flush of the run that resumes from it, without force,
    writes step 1. *)
Lemma step_regresses_on_resume :
  exists d first,
    file (final interrupted) = Some (Stored d) /\
    completed d = false /\
    step (progress d) = 4%Q /\
    hd_error (savedSteps (log (final resumed))) = Some first /\
    (first < step (progress d))%Q.
Proof.
  eexists _, _. split; [vm_compute; reflexivity|].
  split; [reflexivity|]. split; [reflexivity|].
  split; [vm_compute; reflexivity|]. reflexivity.
Qed.

(** C4 fails as stated: [setTREXFactory] fails with a known message, its
    flag is set in the ledger object, but the run then stops in
    [setIAFactory] and no flush ever carries the flag: the file still has
    it unset. *)
Lemma recovered_flag_never_flushed :
  exists s' d,
    runMain alreadySet false (Sim.world0 0 0 []) None []
    = Throw (mkError "execution reverted") s' /\
    nth_error (log s') 48
    = Some (EvInvoke "0xC9" "setTREXFactory" [VStr "0xC10"]
                     (Thrown (mkError "TREXFactory already set"))) /\
    includes "TREXFactory already set" "already set" = true /\
    trexFactoryConfigured (progress (ds s')) = true /\
    file s' = Some (Stored d) /\
    trexFactoryConfigured (progress d) = false /\
    forallb (fun ev => match ev with
                       | EvSave d' => negb (trexFactoryConfigured (progress d'))
                       | _ => true
                       end) (log s') = true.
Proof.
  eexists _, _. split; [vm_compute; reflexivity|].
  repeat split.
Qed.

(** C8 fails as stated: the interrupted run stored the timestamp of its
    start, [T0]; the run that resumes at [T100] overwrites it. *)
Lemma timestamp_overwritten_on_resume :
  exists d d',
    file (final interrupted) = Some (Stored d) /\
    timestamp d = "T0" /\
    file (final resumed) = Some (Stored d') /\
    timestamp d' = "T100" /\
    deployer d' = deployer d.
Proof.
  eexists _, _. split; [vm_compute; reflexivity|].
  split; [reflexivity|]. split; [vm_compute; reflexivity|].
  split; reflexivity.
Qed.

Lemma steady_live : liveAt steady "0xA1".
Proof.
  split; [reflexivity|]. split; [discriminate|].
  intros w. exists "0x6080", w. repeat split; discriminate.
Defined.

(** The skip on the steady chain: [deployIfNeeded] on the unit of
    [oneUnit], and a whole run resumed from that ledger. *)
Lemma idempotent_skip_witness :
  let s := mkSt oneUnit (Sim.world0 7 1 []) (Some (Stored oneUnit)) [] [] in
  liveAt steady "0xA1" /\
  getContract "TokenImplementation" (contracts oneUnit) = Some "0xA1" /\
  NoDup (map fst (contracts oneUnit)) /\
  (exists s1,
      deployIfNeeded steady false "TokenImplementation" (TrexArtifact "Token") [] s
      = Ok (attach "0xA1") s1 /\
      address (attach "0xA1") = "0xA1" /\
      ds s1 = ds s /\ file s1 = file s /\
      calls (log s1) = calls (log s) ++ [Query] /\
      forall n desc,
      exists s2,
        updateProgress steady n desc (Some "TokenImplementation")
                       (Some (address (attach "0xA1"))) s1
        = Ok tt s2 /\
        contracts (ds s2) = contracts (ds s) /\
        file s2 = Some (Stored (ds s2))) /\
  Forall (untouched "TokenImplementation" "0xA1")
         (log (final (runMain steady false (Sim.world0 5 1 [])
                              (Some (Stored oneUnit)) []))).
Proof.
  intros s.
  assert (Hnodup : NoDup (map fst (contracts oneUnit))).
  { simpl. constructor; [intros [] | constructor]. }
  split; [exact steady_live|]. split; [reflexivity|]. split; [exact Hnodup|].
  destruct (idempotent_skip steady "TokenImplementation" "0xA1" steady_live)
    as [Hskip Hrun].
  split.
  - exact (Hskip (TrexArtifact "Token") [] s eq_refl).
  - exact (Hrun (Sim.world0 5 1 []) oneUnit [] eq_refl Hnodup).
Defined.


(** [setTREXFactory] failing with a known message, and the run in which
    [setIAFactory] then fails for good. *)
Lemma guarded_action_recovery_witness :
  flagOf SetTREXFactory (progress (ds freshRun)) = false /\
  invokeMethod alreadySet (world freshRun) "0xC9" "setTREXFactory" [VStr "0xC10"]
  = (Thrown (mkError "TREXFactory already set"), Sim.world0 0 0 []) /\
  mentionsKnown SetTREXFactory (mkError "TREXFactory already set") /\
  (exists s',
      runGuarded alreadySet SetTREXFactory (mkHandle "0xC9") (mkHandle "0xC10") freshRun
      = Ok tt s' /\
      flagOf SetTREXFactory (progress (ds s')) = true /\
      file s' = file freshRun) /\
  placed (log (final (runMain alreadySet false (Sim.world0 0 0 []) None []))).
Proof.
  split; [reflexivity|]. split; [reflexivity|].
  assert (Hknown : mentionsKnown SetTREXFactory (mkError "TREXFactory already set")).
  { exists "already set", "TREXFactory ", "". split; [now left | reflexivity]. }
  split; [exact Hknown|].
  destruct (guarded_action_recovery alreadySet) as (Hunit & _ & Hrun).
  split; [|apply Hrun].
  destruct (proj1 (Hunit SetTREXFactory (mkHandle "0xC9") (mkHandle "0xC10") freshRun
                     (mkError "TREXFactory already set") (Sim.world0 0 0 [])
                     eq_refl eq_refl) Hknown)
    as (s' & Hrun' & Hflag & Hfile & _).
  exists s'. auto.
Defined.

(** The version call failing with a message the guarded actions would
    accept. *)
Lemma configureVersion_no_recovery_witness :
  let h := mkHandle "0xC0" in
  needsVersionConfig (ds freshRun) = true /\
  exists s',
    configureVersion (rejecting "already set") h h h h h h h freshRun
    = Throw (mkError "already set") s' /\
    ds s' = ds freshRun /\ file s' = file freshRun.
Proof.
  intros h. split; [reflexivity|].
  destruct (proj1 (configureVersion_no_recovery (rejecting "already set")
                     h h h h h h h freshRun (mkError "already set")
                     (Sim.world0 0 0 []) eq_refl eq_refl))
    as (s' & Hrun & _ & Hd & Hf & _).
  exists s'. auto.
Defined.

(** A completed ledger met without and with force: the plain run returns
    at once and writes nothing; the forced run makes every call of the
    plan and ends with a ledger in which nothing of the old one is left. *)
Example completed_ledger_without_force :
  exists s',
    runMain Sim.healthy false (Sim.world0 100 20 []) (Some (Stored completedLedger)) []
    = Ok tt s' /\
    log s' = [] /\ file s' = Some (Stored completedLedger).
Proof. eexists. split; [vm_compute; reflexivity|]. split; reflexivity. Qed.

Example completed_ledger_with_force :
  exists s',
    runMain Sim.healthy true (Sim.world0 100 20 []) (Some (Stored completedLedger)) []
    = Ok tt s' /\
    calls (log s') = planCalls /\
    file s' = Some (Stored (ds s')) /\
    timestamp (ds s') = "T100" /\
    deployer (ds s') = Some "0xACC" /\
    map snd (contracts (ds s'))
    = ["0xC20"; "0xC21"; "0xC22"; "0xC23"; "0xC24"; "0xC25"; "0xC26"; "0xC27";
       "0xC28"; "0xC29"; "0xC30"; "0xC31"] /\
    flagsOf (progress (ds s')) = (true, true, true, true) /\
    completed (ds s') = true.
Proof. eexists. split; [vm_compute; reflexivity|]. repeat split. Qed.

(* ================================================================== *)
(** * Further properties of the script *)

(** The exit code of the process: [main().then(() => process.exit(0))
    .catch(error => { ...; process.exit(1) })]. *)
Definition exitCode {W A} (r : Res W A) : Z :=
  match r with
  | Ok _ _ => 0%Z
  | Throw _ _ => 1%Z
  end.

(** What a sequence of writes leaves in [deployment-state.json], starting
    from [f], and among the backup files, starting from [bk]. *)
Definition lastSaved (f : option FileContent) (l : list Event) : option FileContent :=
  fold_left (fun f ev => match ev with
                         | EvSave d => Some (Stored d)
                         | _ => f
                         end) l f.

Definition backedUp (bk : list (Z * deploymentState)) (l : list Event)
  : list (Z * deploymentState) :=
  fold_left (fun bk ev => match ev with
                          | EvBackup ms d => writeFile ms d bk
                          | _ => bk
                          end) l bk.




(* ================================================================== *)
(** ** The files follow the writes *)

Section Journal.

Context {W : Type} (cl : Client W).

(** [m] changes the files only by the writes it logs. *)
Definition journal {A} (m : M W A) : Prop :=
  forall s, exists l,
      log (final (m s)) = log s ++ l /\
      file (final (m s)) = lastSaved (file s) l /\
      backups (final (m s)) = backedUp (backups s) l.

Lemma lastSaved_app f l1 l2 :
  lastSaved f (l1 ++ l2) = lastSaved (lastSaved f l1) l2.
Proof. apply fold_left_app. Qed.

Lemma backedUp_app bk l1 l2 :
  backedUp bk (l1 ++ l2) = backedUp (backedUp bk l1) l2.
Proof. apply fold_left_app. Qed.

Lemma journal_bind {A B} (m : M W A) (k : A -> M W B) :
  journal m -> (forall a, journal (k a)) -> journal (bind m k).
Proof.
  intros Hm Hk s. unfold bind. destruct (Hm s) as (l & Hl & Hf & Hb).
  destruct (m s) as [a s'|e s']; simpl in *.
  - destruct (Hk a s') as (l' & Hl' & Hf' & Hb'). exists (l ++ l').
    rewrite Hl', Hl, Hf', Hf, Hb', Hb, lastSaved_app, backedUp_app, !app_assoc.
    auto.
  - eauto.
Qed.

Lemma journal_try_catch {A} (m : M W A) (h : Error -> M W A) :
  journal m -> (forall e, journal (h e)) -> journal (try_catch m h).
Proof.
  intros Hm Hh s. unfold try_catch. destruct (Hm s) as (l & Hl & Hf & Hb).
  destruct (m s) as [a s'|e s']; simpl in *.
  - eauto.
  - destruct (Hh e s') as (l' & Hl' & Hf' & Hb'). exists (l ++ l').
    rewrite Hl', Hl, Hf', Hf, Hb', Hb, lastSaved_app, backedUp_app, !app_assoc.
    auto.
Qed.

Lemma journal_same {A} (m : M W A) :
  (forall s, log (final (m s)) = log s /\ file (final (m s)) = file s /\
             backups (final (m s)) = backups s) ->
  journal m.
Proof.
  intros H s. destruct (H s) as (Hl & Hf & Hb). exists [].
  rewrite Hl, Hf, Hb, app_nil_r. auto.
Qed.

Lemma journal_ret {A} (a : A) : journal (ret a : M W A).
Proof. apply journal_same. auto. Qed.

Lemma journal_throw {A} (e : Error) : journal (throw e : M W A).
Proof. apply journal_same. auto. Qed.

Lemma journal_getState : journal (getState : M W _).
Proof. apply journal_same. auto. Qed.

Lemma journal_modifyState g : journal (modifyState g : M W _).
Proof. apply journal_same. auto. Qed.

Lemma journal_load : journal (loadExistingDeployment : M W _).
Proof.
  apply journal_same. intros s.
  auto.
Qed.

Lemma journal_ask {A} (op : W -> A * W) : journal (ask op).
Proof.
  apply journal_same. intros s. unfold ask.
  destruct (op (world s)) as [a w]; auto.
Qed.

Lemma journal_call_silent {A} (op : W -> outcome A * W) :
  journal (call op (fun _ => [])).
Proof.
  apply journal_same. intros s. unfold call.
  destruct (op (world s)) as [[a|e] w]; simpl; rewrite app_nil_r; auto.
Qed.

Lemma journal_getCode a :
  journal (call (fun w => getCode cl w a) (fun r => [EvGetCode a r])).
Proof.
  intros s. unfold call.
  destruct (getCode cl (world s) a) as [[c|e] w]; simpl;
    eexists; repeat split; simpl; now rewrite ?app_nil_r.
Qed.

Lemma journal_deployCall V f args :
  journal (call (fun w => deployContract cl w f args)
                (fun r => [EvDeploy V f args r])).
Proof.
  intros s. unfold call.
  destruct (deployContract cl (world s) f args) as [[c|e] w]; simpl;
    eexists; repeat split; simpl; now rewrite ?app_nil_r.
Qed.

Lemma journal_invoke target method args : journal (invoke cl target method args).
Proof.
  intros s. unfold invoke, call.
  destruct (invokeMethod cl (world s) (address target) method args) as [[c|e] w];
    simpl; eexists; repeat split; simpl; now rewrite ?app_nil_r.
Qed.

Lemma journal_save : journal (saveDeploymentState : M W _).
Proof.
  intros s. exists [EvSave (ds s)]. simpl. auto.
Qed.

Lemma journal_writeBackup ms : journal (writeBackup ms : M W _).
Proof. intros s. exists [EvBackup ms (ds s)]. simpl. auto. Qed.

Ltac journal_all :=
  cbv zeta;
  repeat first
    [ apply journal_ret
    | apply journal_throw
    | apply journal_getState
    | apply journal_modifyState
    | apply journal_load
    | apply journal_invoke
    | apply journal_getCode
    | apply journal_deployCall
    | apply journal_call_silent
    | apply journal_ask
    | apply journal_save
    | apply journal_writeBackup
    | apply journal_bind; [|intros ?]
    | apply journal_try_catch; [|intros ?]
    | match goal with
      | |- journal (if ?c then _ else _) => destruct c
      | |- journal (match ?x with _ => _ end) => destruct x
      end ].

Lemma journal_updateProgress n desc cn ca : journal (updateProgress cl n desc cn ca).
Proof. unfold updateProgress, now. journal_all. Qed.

Lemma journal_isContractDeployed addr : journal (isContractDeployed cl addr).
Proof. unfold isContractDeployed. journal_all. Qed.

Lemma journal_deployIfNeeded force V f args :
  journal (deployIfNeeded cl force V f args).
Proof.
  unfold deployIfNeeded. journal_all; apply journal_isContractDeployed.
Qed.

Lemma journal_getContractArtifact name : journal (getContractArtifact cl name).
Proof. unfold getContractArtifact. journal_all. Qed.

Lemma journal_getOnchainIDContractFactory name :
  journal (getOnchainIDContractFactory cl name).
Proof. unfold getOnchainIDContractFactory. journal_all. Qed.

Lemma journal_configureVersion ia token ctr ir irs tir mc :
  journal (configureVersion cl ia token ctr ir irs tir mc).
Proof. unfold configureVersion, setFlag. journal_all. Qed.

Lemma journal_configureIdentityFactory target arg :
  journal (configureIdentityFactory cl target arg).
Proof. unfold configureIdentityFactory, setFlag. journal_all. Qed.

Lemma journal_configureTrexFactory target arg :
  journal (configureTrexFactory cl target arg).
Proof. unfold configureTrexFactory, setFlag. journal_all. Qed.

Lemma journal_configureIaFactory target arg :
  journal (configureIaFactory cl target arg).
Proof. unfold configureIaFactory, setFlag. journal_all. Qed.

Lemma journal_complete : journal (complete cl).
Proof.
  unfold complete, now.
  repeat first [ apply journal_updateProgress | apply journal_ask
               | apply journal_modifyState | apply journal_save
               | apply journal_writeBackup | apply journal_bind; [|intros ?] ].
Qed.

Lemma journal_contractsToRemove entries : journal (contractsToRemove cl entries).
Proof.
  induction entries as [|[n a] rest IH].
  - apply journal_ret.
  - rewrite contractsToRemove_cons.
    apply journal_bind; [apply journal_isContractDeployed | intros b].
    apply journal_bind; [exact IH | intros names]. apply journal_ret.
Qed.

Lemma journal_verifyExisting : journal (verifyExisting cl).
Proof.
  unfold verifyExisting.
  apply journal_bind; [apply journal_getState | intros d].
  apply journal_bind; [apply journal_contractsToRemove | intros names].
  apply journal_modifyState.
Qed.

Lemma journal_initDeployer accounts : journal (initDeployer cl accounts).
Proof.
  unfold initDeployer.
  apply journal_bind; [apply journal_getState | intros d].
  destruct (negb (truthy (deployer d))); [|apply journal_ret].
  apply journal_bind; [apply journal_modifyState | intros ?].
  apply journal_updateProgress.
Qed.

Ltac journal_plan :=
  repeat first
    [ apply journal_updateProgress
    | apply journal_getContractArtifact
    | apply journal_getOnchainIDContractFactory
    | apply journal_deployIfNeeded
    | apply journal_configureVersion
    | apply journal_configureIdentityFactory
    | apply journal_configureTrexFactory
    | apply journal_configureIaFactory
    | apply journal_complete
    | apply journal_initDeployer
    | apply journal_verifyExisting
    | apply journal_call_silent
    | apply journal_bind; [|intros ?] ].

Lemma journal_steps force accounts : journal (steps cl force accounts).
Proof. unfold steps. journal_plan. Qed.

Lemma journal_deploy force accounts : journal (deploy cl force accounts).
Proof.
  unfold deploy.
  apply journal_bind; [apply journal_initDeployer | intros ?].
  apply journal_bind; [apply journal_call_silent | intros ?].
  apply journal_steps.
Qed.

Lemma journal_main force : journal (main cl force).
Proof.
  unfold main, now, printSummary.
  repeat first
    [ apply journal_deploy
    | apply journal_verifyExisting
    | apply journal_load
    | apply journal_ask
    | apply journal_modifyState
    | apply journal_call_silent
    | apply journal_ret
    | apply journal_throw
    | apply journal_bind; [|intros ?]
    | match goal with
      | |- journal (if ?c then _ else _) => destruct c
      | |- journal (match ?x with _ => _ end) => destruct x
      end ].
Qed.




End Journal.

(* ================================================================== *)
(** ** Ledger files that are not resumed *)

Section Unresumed.

Context {W : Type} (cl : Client W).

(** The run of a first installation: no ledger to merge or verify. *)
Definition firstRun : M W unit :=
  t <- now cl ;;
  modifyState (fun _ => freshState t) ;;
  accounts <- call (listAccounts cl) (fun _ => []) ;;
  deploy cl false accounts.

Lemma oblivious_firstRun : oblivious firstRun.
Proof.
  unfold firstRun, deploy, now.
  repeat first
    [ apply oblivious_initDeployer
    | apply oblivious_steps
    | apply oblivious_ask
    | apply oblivious_modifyState
    | apply oblivious_call
    | apply oblivious_bind; [|intros ?] ].
Qed.

Lemma main_unreadable (s : St W) :
  file s = None \/ file s = Some Corrupt ->
  main cl false s = firstRun s.
Proof.
  intros Hf. unfold main, firstRun, bind, now, ask, modifyState, call,
    loadExistingDeployment, ret.
  destruct (clock cl (world s)) as [t w1]. cbn [ds world file backups log].
  destruct (listAccounts cl w1) as [[accounts|e] w2]; [|reflexivity].
  cbn [negb file]. destruct Hf as [-> | ->]; reflexivity.
Qed.

Lemma refileRes_file {A} (r : Res W A) : refileRes (file (final r)) r = r.
Proof. destruct r as [a [d w f bk l]|e [d w f bk l]]; reflexivity. Qed.

(** X2. A ledger file that cannot be used (it does not parse, or has no
    [progress]) is treated as no file at all: the run makes the same calls
    with the same results, builds the same ledger object, writes the same
    flushes and backups and ends the same way as a first run.  The one
    difference that can remain is the unusable file itself, which stays in
    place when the run ends before its first flush. *)
Theorem corrupt_ledger_is_no_ledger (w : W) bk :
  let r := runMain cl false w None bk in
  runMain cl false w (Some Corrupt) bk
  = refileRes (lastSaved (Some Corrupt) (log (final r))) r.
Proof.
  cbv zeta.
  destruct (journal_main cl false (start w (Some Corrupt) bk)) as (l & Hl & Hf & _).
  unfold runMain in *.
  rewrite (main_unreadable (start w (Some Corrupt) bk)) in * by (right; reflexivity).
  rewrite (main_unreadable (start w None bk)) by (left; reflexivity).
  simpl in Hl, Hf. rewrite <- Hl in Hf.
  change (start w (Some Corrupt) bk) with (refile (Some Corrupt) (start w None bk)) in *.
  destruct (oblivious_firstRun (Some Corrupt) (start w None bk)) as [E | E];
    rewrite E in *.
  - rewrite <- Hf. symmetry. apply refileRes_file.
  - destruct (firstRun (start w None bk)) as [a s'|e s']; simpl in *;
      rewrite <- Hf; reflexivity.
Qed.

Definition returnedAccounts (r : outcome (list string) * W) : Prop :=
  match r with
  | (Returned _, _) => True
  | (Thrown _, _) => False
  end.

(** A run that meets a completed ledger. *)
Lemma main_on_completed (w : W) e bk :
  completed e = true ->
  runMain cl false w (Some (Stored e)) bk =
  let '(t, w1) := clock cl w in
  match listAccounts cl w1 with
  | (Returned _, w2) =>
      Ok tt (mkSt (mergeExisting e (freshState t)) w2 (Some (Stored e)) bk [])
  | (Thrown err, w2) =>
      Throw err (mkSt (freshState t) w2 (Some (Stored e)) bk [])
  end.
Proof.
  intros He.
  unfold runMain, main, start, bind, now, ask, modifyState, call,
    loadExistingDeployment, printSummary, ret.
  cbn [ds world file backups log negb parsed].
  destruct (clock cl w) as [t w1]. cbn [ds world file backups log].
  destruct (listAccounts cl w1) as [[accounts|err] w2]; [|reflexivity].
  cbn [ds world file backups log negb parsed]. now rewrite He.
Qed.

(** The same ledger without its [contracts]: the summary cannot list
    them. *)
Lemma main_on_completed_bare (w : W) e bk :
  completed e = true ->
  runMain cl false w (Some (Bare e)) bk =
  let '(t, w1) := clock cl w in
  match listAccounts cl w1 with
  | (Returned _, w2) =>
      Throw (mkError "Cannot convert undefined or null to object")
            (mkSt (mergeExisting (set_contracts [] e) (freshState t)) w2
                  (Some (Bare e)) bk [])
  | (Thrown err, w2) =>
      Throw err (mkSt (freshState t) w2 (Some (Bare e)) bk [])
  end.
Proof.
  intros He.
  unfold runMain, main, start, bind, now, ask, modifyState, call,
    loadExistingDeployment, printSummary, ret, throw.
  cbn [ds world file backups log negb parsed].
  destruct (clock cl w) as [t w1]. cbn [ds world file backups log].
  destruct (listAccounts cl w1) as [[accounts|err] w2]; [|reflexivity].
  cbn [ds world file backups log negb parsed].
  change (completed (set_contracts [] e)) with (completed e). now rewrite He.
Qed.

(** X3. A stored ledger marked completed ends the run at once: the stored
    contracts, progress and deployer are copied into the ledger object and
    nothing else happens.  No address of the ledger is checked against the
    chain, nothing is deployed, invoked or written, and the file and the
    backups stay as they were, whatever the state of the contracts on the
    chain.  When the ledger has its [contracts], the run returns if the
    account listing does.  When the ledger has no [contracts] property,
    the run never returns: the summary throws a [TypeError] as soon as the
    accounts are listed. *)
Theorem completed_ledger_is_final (w : W) e bk :
  completed e = true ->
  let w1 := snd (clock cl w) in
  (let r := runMain cl false w (Some (Stored e)) bk in
   log (final r) = [] /\
   file (final r) = Some (Stored e) /\
   backups (final r) = bk /\
   world (final r) = snd (listAccounts cl w1) /\
   match r with
   | Ok _ s' =>
       contracts (ds s') = contracts e /\ progress (ds s') = progress e /\
       deployer (ds s') = deployer e /\
       returnedAccounts (listAccounts cl w1)
   | Throw _ _ => ~ returnedAccounts (listAccounts cl w1)
   end) /\
  (let r := runMain cl false w (Some (Bare e)) bk in
   log (final r) = [] /\
   file (final r) = Some (Bare e) /\
   backups (final r) = bk /\
   world (final r) = snd (listAccounts cl w1) /\
   match r with
   | Ok _ _ => False
   | Throw err s' =>
       returnedAccounts (listAccounts cl w1) ->
       err = mkError "Cannot convert undefined or null to object" /\
       contracts (ds s') = [] /\ progress (ds s') = progress e /\
       deployer (ds s') = deployer e
   end).
Proof.
  intros He. cbv zeta.
  rewrite (main_on_completed w e bk He), (main_on_completed_bare w e bk He).
  destruct (clock cl w) as [t w1]. cbn [snd].
  destruct (listAccounts cl w1) as [[accounts|err] w2]; simpl.
  - repeat split.
  - split; [repeat split; auto|]. repeat split; contradiction.
Qed.

End Unresumed.

Lemma completed_ledger_is_final_witness :
  completed completedLedger = true /\
  log (final (runMain Sim.healthy false (Sim.world0 100 20 [])
                      (Some (Stored completedLedger)) [])) = [].
Proof.
  split; [reflexivity|].
  apply (proj1 (completed_ledger_is_final Sim.healthy (Sim.world0 100 20 [])
                  completedLedger [] eq_refl)).
Defined.

(* ================================================================== *)
(** ** What every call is made with *)

(** Where an argument of a call comes from. *)
Inductive Source : Type :=
| FromUnit (contractName : string)
| FromAccount
| Literally (a : Arg)
| Implementations (token ctr ir irs tir mc : string).

(** The twelve units: the artifact each is deployed from and the
    constructor arguments it is given. *)
Definition deployPlan : list (string * (Factory * list Source)) :=
  [("TokenImplementation", (TrexArtifact "Token", []));
   ("ClaimTopicsRegistryImplementation", (TrexArtifact "ClaimTopicsRegistry", []));
   ("TrustedIssuersRegistryImplementation", (TrexArtifact "TrustedIssuersRegistry", []));
   ("IdentityRegistryStorageImplementation", (TrexArtifact "IdentityRegistryStorage", []));
   ("IdentityRegistryImplementation", (TrexArtifact "IdentityRegistry", []));
   ("ModularComplianceImplementation", (TrexArtifact "ModularCompliance", []));
   ("IdentityImplementation",
    (OnchainIDArtifact "Identity", [FromAccount; Literally (VBool true)]));
   ("IdentityImplementationAuthority",
    (OnchainIDArtifact "ImplementationAuthority", [FromUnit "IdentityImplementation"]));
   ("IdentityFactory",
    (OnchainIDArtifact "Factory", [FromUnit "IdentityImplementationAuthority"]));
   ("TREXImplementationAuthority",
    (TrexArtifact "TREXImplementationAuthority",
     [Literally (VBool true); Literally (VStr ZeroAddress);
      Literally (VStr ZeroAddress)]));
   ("TREXFactory",
    (TrexArtifact "TREXFactory",
     [FromUnit "TREXImplementationAuthority"; FromUnit "IdentityFactory"]));
   ("IAFactory", (TrexArtifact "IAFactory", [FromUnit "TREXFactory"]))].

Definition unitNames : list string := map fst deployPlan.

(** The four method calls: the unit each is sent to and its arguments. *)
Definition methodPlan : list (string * (string * list Source)) :=
  [("addAndUseTREXVersion",
    ("TREXImplementationAuthority",
     [Literally (VVersion 4 0 0);
      Implementations "TokenImplementation" "ClaimTopicsRegistryImplementation"
                      "IdentityRegistryImplementation"
                      "IdentityRegistryStorageImplementation"
                      "TrustedIssuersRegistryImplementation"
                      "ModularComplianceImplementation"]));
   ("addTokenFactory", ("IdentityFactory", [FromUnit "TREXFactory"]));
   ("setTREXFactory", ("TREXImplementationAuthority", [FromUnit "TREXFactory"]));
   ("setIAFactory", ("TREXImplementationAuthority", [FromUnit "IAFactory"]))].

(** The value of a source, read from the contracts [cs] of a ledger. *)
Definition resolve (accounts : list string) (cs : Contracts) (src : Source)
  : option Arg :=
  match src with
  | FromUnit V => option_map VStr (getContract V cs)
  | FromAccount => Some (optArg (hd_error accounts))
  | Literally a => Some a
  | Implementations token ctr ir irs tir mc =>
      match getContract token cs, getContract ctr cs, getContract ir cs,
            getContract irs cs, getContract tir cs, getContract mc cs with
      | Some a1, Some a2, Some a3, Some a4, Some a5, Some a6 =>
          Some (VImplementations a1 a2 a3 a4 a5 a6)
      | _, _, _, _, _, _ => None
      end
  end.

(** A logged call agrees with the contracts [cs]: a deployment used the
    artifact of its unit and arguments read from [cs]; a method call went
    to the address [cs] has for its target unit, with arguments read from
    [cs]. *)
Definition wired (accounts : list string) (cs : Contracts) (ev : Event) : Prop :=
  match ev with
  | EvDeploy V f args _ =>
      exists srcs,
        In (V, (f, srcs)) deployPlan /\
        map (resolve accounts cs) srcs = map Some args
  | EvInvoke target method args _ =>
      exists T srcs,
        In (method, (T, srcs)) methodPlan /\
        getContract T cs = Some target /\
        map (resolve accounts cs) srcs = map Some args
  | _ => True
  end.

Definition Flags : Type := (bool * bool * bool * bool)%type.

(** Every flag set in [fl] is set in [fl']. *)
Definition covers (fl fl' : Flags) : Prop :=
  let '(v, i, x, a) := fl in
  let '(v', i', x', a') := fl' in
  (v = true -> v' = true) /\ (i = true -> i' = true) /\
  (x = true -> x' = true) /\ (a = true -> a' = true).

(** The method calls a run may still make when it starts with the flags
    [fl]: none whose flag is set, except a version configuration sent to
    the empty address. *)
Definition allowed (fl : Flags) (ev : Event) : Prop :=
  match ev with
  | EvInvoke target method _ _ =>
      let '(v, i, x, a) := fl in
      (v = true -> method = "addAndUseTREXVersion" -> target = "") /\
      (i = true -> method <> "addTokenFactory") /\
      (x = true -> method <> "setTREXFactory") /\
      (a = true -> method <> "setIAFactory")
  | _ => True
  end.

(** The flags a run starts with. *)
Definition startFlags (forceRedeploy : bool) (f : option FileContent) : Flags :=
  if forceRedeploy then (false, false, false, false)
  else match parsed f with
       | Some (e, _) => flagsOf (progress e)
       | None => (false, false, false, false)
       end.

Definition accountsOf {W} (r : outcome (list string) * W) : list string :=
  match r with
  | (Returned accounts, _) => accounts
  | (Thrown _, _) => []
  end.

Lemma getContract_app name cs1 cs2 :
  getContract name (cs1 ++ cs2) =
  match getContract name cs1 with
  | Some a => Some a
  | None => getContract name cs2
  end.
Proof.
  induction cs1 as [|[k v] cs1 IH]; simpl; auto.
  destruct (String.eqb k name); auto.
Qed.

(** Every address [cs] has for a unit, [cs'] has too. *)
Definition extends (cs cs' : Contracts) : Prop :=
  forall V a, getContract V cs = Some a -> getContract V cs' = Some a.

Lemma extends_app cs V a :
  getContract V cs = None -> extends cs (cs ++ [(V, a)]).
Proof.
  intros _ V' a' H. rewrite getContract_app, H. reflexivity.
Qed.

Lemma resolve_extends accounts cs cs' src a :
  extends cs cs' -> resolve accounts cs src = Some a ->
  resolve accounts cs' src = Some a.
Proof.
  intros Hext. destruct src as [V| |b|t c i s r m]; simpl; auto.
  - destruct (getContract V cs) as [x|] eqn:E; [|discriminate].
    now rewrite (Hext _ _ E).
  - destruct (getContract t cs) as [a1|] eqn:E1; [|discriminate].
    destruct (getContract c cs) as [a2|] eqn:E2; [|discriminate].
    destruct (getContract i cs) as [a3|] eqn:E3; [|discriminate].
    destruct (getContract s cs) as [a4|] eqn:E4; [|discriminate].
    destruct (getContract r cs) as [a5|] eqn:E5; [|discriminate].
    destruct (getContract m cs) as [a6|] eqn:E6; [|discriminate].
    now rewrite (Hext _ _ E1), (Hext _ _ E2), (Hext _ _ E3), (Hext _ _ E4),
      (Hext _ _ E5), (Hext _ _ E6).
Qed.

Lemma resolve_all_extends accounts cs cs' srcs args :
  extends cs cs' ->
  map (resolve accounts cs) srcs = map Some args ->
  map (resolve accounts cs') srcs = map Some args.
Proof.
  intros Hext. revert args.
  induction srcs as [|src srcs IH]; intros [|a args]; simpl; try discriminate; auto.
  intros [= H1 H2]. f_equal; [eapply resolve_extends; eauto | auto].
Qed.

Lemma wired_extends accounts cs cs' ev :
  extends cs cs' -> wired accounts cs ev -> wired accounts cs' ev.
Proof.
  intros Hext. destruct ev as [a r|V f args r|t m args r|d|ms d]; simpl; auto.
  - intros (srcs & Hin & Hargs). exists srcs. split; [exact Hin|].
    eapply resolve_all_extends; eauto.
  - intros (T & srcs & Hin & HT & Hargs). exists T, srcs.
    split; [exact Hin|]. split; [auto|]. eapply resolve_all_extends; eauto.
Qed.

Lemma wired_query accounts cs l :
  Forall isQuery l -> Forall (wired accounts cs) l.
Proof.
  intros H. eapply Forall_impl; [|exact H].
  intros [a r|V f args r|t m args r|d|ms d]; simpl; tauto.
Qed.

Lemma allowed_query fl l : Forall isQuery l -> Forall (allowed fl) l.
Proof.
  intros H. eapply Forall_impl; [|exact H].
  intros [a r|V f args r|t m args r|d|ms d]; simpl; tauto.
Qed.

Lemma covers_refl fl : covers fl fl.
Proof. destruct fl as [[[v i] x] a]. simpl. tauto. Qed.

Lemma covers_none fl : covers (false, false, false, false) fl.
Proof. destruct fl as [[[v i] x] a]. simpl. repeat split; discriminate. Qed.

Section Wiring.

Context {W : Type} (cl : Client W) (forceRedeploy : bool).
Variable accounts : list string.
Variable fl0 : Flags.

(** The invariant of the plan.  [F] lists the units whose handle the run
    holds, each with the address of the handle; [fl] are flags known to be
    set. *)
Definition Wired (F : Contracts) (fl : Flags) (s : St W) : Prop :=
  extends F (contracts (ds s)) /\
  Forall (wired accounts F) (log s) /\
  Forall (allowed fl0) (log s) /\
  covers fl0 (flagsOf (progress (ds s))) /\
  covers fl (flagsOf (progress (ds s))).

(** What is left of it when the run stops. *)
Definition Settled (s : St W) : Prop :=
  Forall (wired accounts (contracts (ds s))) (log s) /\
  Forall (allowed fl0) (log s).

Definition Stopped : Error -> St W -> Prop := fun _ => Settled.

Lemma Wired_Settled F fl s : Wired F fl s -> Settled s.
Proof.
  intros (Hext & Hw & Ha & _). split; [|exact Ha].
  eapply Forall_impl; [|exact Hw]. intros ev. now apply wired_extends.
Qed.

(** One step that adds [l] to the log and keeps the flags. *)
Lemma Wired_step F fl (s s' : St W) l :
  Wired F fl s ->
  extends F (contracts (ds s')) ->
  log s' = log s ++ l ->
  Forall (wired accounts F) l -> Forall (allowed fl0) l ->
  flagsOf (progress (ds s')) = flagsOf (progress (ds s)) ->
  Wired F fl s'.
Proof.
  intros (_ & Hw & Ha & Hc0 & Hc) Hext Hlog Hwl Hal Hfl.
  unfold Wired. rewrite Hlog, Hfl.
  repeat split; auto; apply Forall_app; auto.
Qed.

Lemma Wired_quiet F fl (s s' : St W) :
  Wired F fl s -> onlyQueries s s' -> Wired F fl s'.
Proof.
  intros HI (Hd & _ & _ & l & Hl & Hq).
  eapply Wired_step; eauto.
  - rewrite Hd. apply HI.
  - now apply wired_query.
  - now apply allowed_query.
  - now rewrite Hd.
Qed.

Lemma Wired_weaken F fl V a (s : St W) :
  Wired F fl s -> getContract V F = None ->
  getContract V (contracts (ds s)) = Some a ->
  Wired (F ++ [(V, a)]) fl s.
Proof.
  intros (Hext & Hw & Ha & Hc0 & Hc) Hnew Hget.
  repeat split; auto.
  - intros V' a'. rewrite getContract_app.
    destruct (getContract V' F) as [x|] eqn:E.
    + intros [= <-]. auto.
    + simpl. destruct (String.eqb_spec V V'); [|discriminate].
      intros [= <-]. congruence.
  - eapply Forall_impl; [|exact Hw]. intros ev.
    apply wired_extends. now apply extends_app.
Qed.

Lemma wired_quiet_triple {A} F fl (m : M W A) :
  (forall s, onlyQueries s (final (m s))) ->
  triple (Wired F fl) m (fun _ => Wired F fl) Stopped.
Proof.
  intros Hq s Hs. specialize (Hq s).
  destruct (m s); simpl in Hq; [|eapply Wired_Settled];
    eapply Wired_quiet; eauto.
Qed.

Lemma wired_updateProgress F fl n desc :
  triple (Wired F fl) (updateProgress cl n desc None None)
         (fun _ => Wired F fl) Stopped.
Proof.
  intros s Hs. rewrite updateProgress_run.
  destruct (clock cl (world s)) as [t w]. cbv zeta.
  eapply Wired_step; [exact Hs | apply Hs | reflexivity | | | reflexivity];
    repeat constructor.
Qed.

Lemma wired_record F fl n desc V a :
  getContract V F = Some a ->
  triple (Wired F fl) (updateProgress cl n desc (Some V) (Some a))
         (fun _ => Wired F fl) Stopped.
Proof.
  intros HV s Hs. rewrite updateProgress_run.
  destruct (clock cl (world s)) as [t w]. cbv zeta.
  destruct (truthy (Some V) && truthy (Some a)).
  - eapply Wired_step; [exact Hs | | reflexivity | | | reflexivity];
      try (repeat constructor).
    intros V' a' H'. simpl.
    destruct (String.eqb_spec V V') as [<-|Hne].
    + rewrite getContract_set_same. congruence.
    + rewrite getContract_set_other by exact Hne. now apply Hs.
  - eapply Wired_step; [exact Hs | apply Hs | reflexivity | | | reflexivity];
      repeat constructor.
Qed.

Lemma wired_getContractArtifact F fl name :
  triple (Wired F fl) (getContractArtifact cl name)
         (fun f s => Wired F fl s /\ f = TrexArtifact name) Stopped.
Proof.
  intros s Hs. pose proof (getContractArtifact_quiet cl name s) as Hq.
  unfold getContractArtifact in *.
  destruct (existsb (String.eqb name) contractPaths).
  - unfold bind, ret in *.
    destruct (call _ _ s) as [[] s1|e s1]; simpl in Hq.
    + split; [|reflexivity]. eapply Wired_quiet; eauto.
    + eapply Wired_Settled, Wired_quiet; eauto.
  - eapply Wired_Settled, Wired_quiet; eauto.
Qed.

Lemma wired_getOnchainIDContractFactory F fl name :
  triple (Wired F fl) (getOnchainIDContractFactory cl name)
         (fun f s => Wired F fl s /\ f = OnchainIDArtifact name) Stopped.
Proof.
  intros s Hs. pose proof (getOnchainIDContractFactory_quiet cl name s) as Hq.
  unfold getOnchainIDContractFactory in *.
  destruct (existsb (String.eqb name) _).
  - unfold bind, ret in *.
    destruct (call _ _ s) as [[] s1|e s1]; simpl in Hq.
    + split; [|reflexivity]. eapply Wired_quiet; eauto.
    + eapply Wired_Settled, Wired_quiet; eauto.
  - eapply Wired_Settled, Wired_quiet; eauto.
Qed.

Lemma wired_redeploy F fl V f args srcs (s : St W) :
  Wired F fl s ->
  getContract V F = None ->
  In (V, (f, srcs)) deployPlan ->
  map (resolve accounts F) srcs = map Some args ->
  match redeploy cl V f args s with
  | Ok h s' => Wired (F ++ [(V, address h)]) fl s'
  | Throw _ s' => Settled s'
  end.
Proof.
  intros Hs Hnew Hin Hargs. rewrite redeploy_run.
  assert (Hev : forall r, wired accounts F (EvDeploy V f args r))
    by (intros r; exists srcs; auto).
  destruct (deployContract cl (world s) f args) as [[a|e] w]; cbv zeta.
  - apply Wired_weaken; [|exact Hnew|apply getContract_set_same].
    eapply Wired_step;
      [exact Hs | | simpl; rewrite <- app_assoc; reflexivity | | | reflexivity].
    + intros V' a' H'. simpl. rewrite getContract_set_other; [now apply Hs|].
      intros ->. congruence.
    + repeat constructor. apply Hev.
    + repeat constructor.
  - eapply Wired_Settled.
    eapply Wired_step; [exact Hs | apply Hs | reflexivity | | | reflexivity].
    + repeat constructor. apply Hev.
    + repeat constructor.
Qed.

Lemma Wired_forgetting F fl V (s : St W) :
  Wired F fl s -> getContract V F = None -> Wired F fl (forgetting V s).
Proof.
  intros Hs Hnew.
  eapply Wired_step with (l := []);
    [exact Hs | | simpl; now rewrite app_nil_r | constructor | constructor
     | reflexivity].
  intros V' a' H'. simpl. rewrite getContract_delete_other; [now apply Hs|].
  intros ->. congruence.
Qed.

Lemma wired_deployIfNeeded F fl V f args srcs :
  getContract V F = None ->
  In (V, (f, srcs)) deployPlan ->
  map (resolve accounts F) srcs = map Some args ->
  triple (Wired F fl) (deployIfNeeded cl forceRedeploy V f args)
         (fun h => Wired (F ++ [(V, address h)]) fl) Stopped.
Proof.
  intros Hnew Hin Hargs s Hs.
  destruct (deployIfNeeded_cases cl forceRedeploy V f args s)
    as [(a & s1 & _ & Hget & _ & Hq & ->) | [(s1 & Hq & ->) | (s1 & Hq & ->)]].
  - apply Wired_weaken; [eapply Wired_quiet; eauto | exact Hnew |].
    destruct Hq as (-> & _). exact Hget.
  - eapply wired_redeploy; eauto. eapply Wired_quiet; eauto.
  - eapply wired_redeploy; eauto.
    apply Wired_forgetting; [eapply Wired_quiet; eauto | exact Hnew].
Qed.

Lemma triple_fact {A} (P : St W -> Prop) (P0 : Prop) (m : M W A) Q E :
  (P0 -> triple P m Q E) -> triple (fun s => P s /\ P0) m Q E.
Proof. intros H s [Hs H0]. exact (H H0 s Hs). Qed.

Definition withVersion (fl : Flags) : Flags :=
  let '(_, i, x, a) := fl in (true, i, x, a).

Definition withFlag (g : Guarded) (fl : Flags) : Flags :=
  let '(v, i, x, a) := fl in
  match g with
  | AddTokenFactory => (v, true, x, a)
  | SetTREXFactory => (v, i, true, a)
  | SetIAFactory => (v, i, x, true)
  end.

Lemma wired_configureVersion F fl ia token ctr ir irs tir mc :
  getContract "TREXImplementationAuthority" F = Some (address ia) ->
  getContract "TokenImplementation" F = Some (address token) ->
  getContract "ClaimTopicsRegistryImplementation" F = Some (address ctr) ->
  getContract "IdentityRegistryImplementation" F = Some (address ir) ->
  getContract "IdentityRegistryStorageImplementation" F = Some (address irs) ->
  getContract "TrustedIssuersRegistryImplementation" F = Some (address tir) ->
  getContract "ModularComplianceImplementation" F = Some (address mc) ->
  triple (Wired F fl) (configureVersion cl ia token ctr ir irs tir mc)
         (fun _ => Wired F (withVersion fl)) Stopped.
Proof.
  intros Hia H1 H2 H3 H4 H5 H6 s Hs. rewrite configureVersion_run.
  destruct Hs as (Hext & Hw & Ha & Hc0 & Hc).
  destruct (needsVersionConfig (ds s)) eqn:Hneeds.
  - cbv zeta.
    assert (Hev : forall r,
               wired accounts F
                     (EvInvoke (address ia) "addAndUseTREXVersion"
                               (versionArgs token ctr ir irs tir mc) r) /\
               allowed fl0
                     (EvInvoke (address ia) "addAndUseTREXVersion"
                               (versionArgs token ctr ir irs tir mc) r)).
    { intros r. split.
      - eexists _, _. split; [left; reflexivity|]. split; [exact Hia|].
        simpl. now rewrite H1, H2, H3, H4, H5, H6.
      - simpl. destruct fl0 as [[[v0 i0] x0] a0].
        repeat split; try (intros _; discriminate).
        intros -> _. unfold needsVersionConfig in Hneeds.
        rewrite (Hext _ _ Hia) in Hneeds.
        destruct (progress (ds s)) as [n d l v i x a].
        simpl in Hc0. destruct Hc0 as (Hv & _). rewrite (Hv eq_refl) in Hneeds.
        simpl in Hneeds. rewrite orb_false_r in Hneeds.
        apply negb_true_iff in Hneeds. apply negb_false_iff in Hneeds.
        now apply String.eqb_eq in Hneeds. }
    destruct (invokeMethod cl (world s) (address ia) _ _) as [[[]|e] w].
    + unfold Wired. simpl. repeat split; auto;
        try (apply Forall_app; split; [assumption|]; repeat constructor; apply Hev).
      * destruct fl0 as [[[v0 i0] x0] a0].
        destruct (progress (ds s)) as [n d l v i x a]. simpl in *. tauto.
      * destruct fl as [[[v1 i1] x1] a1].
        destruct (progress (ds s)) as [n d l v i x a]. simpl in *. tauto.
    + split; simpl.
      * apply Forall_app. split.
        -- eapply Forall_impl; [|exact Hw]. intros ev. now apply wired_extends.
        -- repeat constructor. eapply wired_extends; [exact Hext | apply Hev].
      * apply Forall_app. split; [assumption|]. repeat constructor. apply Hev.
  - unfold Wired. repeat split; auto.
    unfold needsVersionConfig in Hneeds. apply orb_false_iff in Hneeds.
    destruct Hneeds as [_ Hv]. apply negb_false_iff in Hv.
    destruct fl as [[[v1 i1] x1] a1].
    destruct (progress (ds s)) as [n d l v i x a]. simpl in *. tauto.
Qed.

Definition targetOf (g : Guarded) : string :=
  match g with
  | AddTokenFactory => "IdentityFactory"
  | SetTREXFactory => "TREXImplementationAuthority"
  | SetIAFactory => "TREXImplementationAuthority"
  end.

Definition argumentOf (g : Guarded) : string :=
  match g with
  | AddTokenFactory => "TREXFactory"
  | SetTREXFactory => "TREXFactory"
  | SetIAFactory => "IAFactory"
  end.

Lemma covers_withFlag g fl p :
  covers fl (flagsOf p) -> covers (withFlag g fl) (flagsOf (raiseFlag g p)).
Proof.
  destruct fl as [[[v1 i1] x1] a1], p as [n d l v i x a], g; simpl; tauto.
Qed.

Lemma covers_raiseFlag g fl p :
  covers fl (flagsOf p) -> covers fl (flagsOf (raiseFlag g p)).
Proof.
  destruct fl as [[[v1 i1] x1] a1], p as [n d l v i x a], g; simpl; tauto.
Qed.

Lemma covers_withFlag_set g fl p :
  flagOf g p = true -> covers fl (flagsOf p) -> covers (withFlag g fl) (flagsOf p).
Proof.
  destruct fl as [[[v1 i1] x1] a1], p as [n d l v i x a], g; simpl; tauto.
Qed.

Lemma wired_runGuarded F fl g target arg :
  getContract (targetOf g) F = Some (address target) ->
  getContract (argumentOf g) F = Some (address arg) ->
  triple (Wired F fl) (runGuarded cl g target arg)
         (fun _ => Wired F (withFlag g fl)) Stopped.
Proof.
  intros Htarget Harg s Hs. rewrite runGuarded_run.
  destruct Hs as (Hext & Hw & Ha & Hc0 & Hc).
  destruct (flagOf g (progress (ds s))) eqn:Hflag.
  - unfold Wired. repeat split; auto. now apply covers_withFlag_set.
  - cbv zeta.
    assert (Hev : forall r,
               wired accounts F
                     (EvInvoke (address target) (methodOf g) [VStr (address arg)] r) /\
               allowed fl0
                     (EvInvoke (address target) (methodOf g) [VStr (address arg)] r)).
    { intros r. split.
      - exists (targetOf g), [FromUnit (argumentOf g)].
        split; [destruct g; simpl; auto 6|]. split; [exact Htarget|].
        simpl. now rewrite Harg.
      - simpl. destruct fl0 as [[[v0 i0] x0] a0].
        destruct (progress (ds s)) as [n d l v i x a].
        simpl in Hc0. destruct Hc0 as (Hv & Hi & Hx & Hal).
        destruct g; simpl in *;
          (repeat split; [intros _; discriminate | intros Ht ..]);
          try discriminate;
          try (specialize (Hi Ht)); try (specialize (Hx Ht));
          try (specialize (Hal Ht)); congruence. }
    destruct (invokeMethod cl (world s) (address target) _ _) as [[[]|e] w].
    + unfold Wired. simpl. repeat split; auto;
        try (apply Forall_app; split; [assumption|]; repeat constructor; apply Hev).
      * now apply covers_raiseFlag.
      * now apply covers_withFlag.
    + destruct (alreadyDone g e).
      * unfold Wired. simpl. repeat split; auto;
          try (apply Forall_app; split; [assumption|]; repeat constructor; apply Hev).
        -- now apply covers_raiseFlag.
        -- now apply covers_withFlag.
      * split; simpl.
        -- apply Forall_app. split.
           ++ eapply Forall_impl; [|exact Hw]. intros ev. now apply wired_extends.
           ++ repeat constructor. eapply wired_extends; [exact Hext | apply Hev].
        -- apply Forall_app. split; [assumption|]. repeat constructor. apply Hev.
Qed.

Lemma wired_complete F fl :
  triple (Wired F fl) (complete cl) (fun _ => Wired F fl) Stopped.
Proof.
  intros s Hs. rewrite complete_run.
  destruct (clock cl (world s)) as [t1 w1]. cbv zeta.
  destruct (clock cl w1) as [t2 w2].
  destruct (clockMs cl w2) as [ms w3].
  eapply Wired_step;
    [exact Hs | apply Hs | simpl; rewrite <- !app_assoc; reflexivity | | | reflexivity];
    repeat constructor.
Qed.

(** A run that went through the whole plan. *)
Definition Finished (s : St W) : Prop :=
  Settled s /\
  (Forall (fun V => exists a, getContract V (contracts (ds s)) = Some a) unitNames /\
   flagsOf (progress (ds s)) = (true, true, true, true)) /\
  completed (ds s) = true /\ file s = Some (Stored (ds s)).

Ltac pick := simpl; repeat first [left; reflexivity | right].

Ltac wire :=
  repeat lazymatch goal with
  | |- triple _ (bind (updateProgress _ _ _ None None) _) _ _ =>
      eapply triple_bind; [apply wired_updateProgress | intros ?; cbv beta]
  | |- triple _ (bind (updateProgress _ _ _ (Some _) (Some _)) _) _ _ =>
      eapply triple_bind; [apply wired_record; reflexivity | intros ?; cbv beta]
  | |- triple _ (bind (getContractArtifact _ _) _) _ _ =>
      eapply triple_bind;
      [apply wired_getContractArtifact
      | intros ?; cbv beta; apply triple_fact; intros ->]
  | |- triple _ (bind (getOnchainIDContractFactory _ _) _) _ _ =>
      eapply triple_bind;
      [apply wired_getOnchainIDContractFactory
      | intros ?; cbv beta; apply triple_fact; intros ->]
  | |- triple _ (bind (deployIfNeeded _ _ _ _ _) _) _ _ =>
      eapply triple_bind;
      [eapply wired_deployIfNeeded; [reflexivity | pick | reflexivity]
      | intros ?; cbv beta; cbn [app]]
  | |- triple _ (bind (configureVersion _ _ _ _ _ _ _ _) _) _ _ =>
      eapply triple_bind;
      [apply wired_configureVersion; reflexivity | intros ?; cbv beta]
  | |- triple _ (bind (configureIdentityFactory _ _ _) _) _ _ =>
      eapply triple_bind;
      [apply (wired_runGuarded _ _ AddTokenFactory); reflexivity
      | intros ?; cbv beta]
  | |- triple _ (bind (configureTrexFactory _ _ _) _) _ _ =>
      eapply triple_bind;
      [apply (wired_runGuarded _ _ SetTREXFactory); reflexivity
      | intros ?; cbv beta]
  | |- triple _ (bind (configureIaFactory _ _ _) _) _ _ =>
      eapply triple_bind;
      [apply (wired_runGuarded _ _ SetIAFactory); reflexivity
      | intros ?; cbv beta]
  end.

Lemma steps_wired :
  triple (Wired [] (false, false, false, false))
         (steps cl forceRedeploy accounts) (fun _ => Finished) Stopped.
Proof.
  unfold steps. wire.
  intros s Hs. pose proof (wired_complete _ _ s Hs) as Hdone.
  rewrite complete_run in *.
  destruct (clock cl (world s)) as [t1 w1]. cbv zeta in *.
  destruct (clock cl w1) as [t2 w2].
  destruct (clockMs cl w2) as [ms w3].
  split; [eapply Wired_Settled; eauto|].
  split; [|split; reflexivity].
  destruct Hdone as (Hext & _ & _ & _ & Hc). split.
  - unfold unitNames, deployPlan. simpl map.
    repeat (constructor; [eexists; apply Hext; reflexivity|]). constructor.
  - simpl in Hc. simpl.
    destruct (progress (ds s)) as [n d l v i x y]. simpl in *.
    destruct Hc as (Hv & Hi & Hx & Hy).
    now rewrite Hv, Hi, Hx, Hy.
Qed.

End Wiring.

Section WiringOfRun.

Context {W : Type} (cl : Client W).

Lemma wired_verifyExisting accounts fl0 fl :
  triple (Wired accounts fl0 [] fl) (verifyExisting cl)
         (fun _ => Wired accounts fl0 [] fl) (Stopped accounts fl0).
Proof.
  intros s Hs. unfold verifyExisting, bind at 1, getState. unfold bind at 1.
  destruct (contractsToRemove_quiet cl (contracts (ds s)) s) as (names & s1 & -> & Hq).
  pose proof (Wired_quiet accounts fl0 [] fl s s1 Hs Hq) as H1.
  unfold modifyState.
  eapply Wired_step with (l := []);
    [exact H1 | | simpl; now rewrite app_nil_r | constructor | constructor
     | reflexivity].
  intros V a. discriminate.
Qed.

Lemma wired_initDeployer accounts fl0 fl acc :
  triple (Wired accounts fl0 [] fl) (initDeployer cl acc)
         (fun _ => Wired accounts fl0 [] fl) (Stopped accounts fl0).
Proof.
  intros s Hs. rewrite initDeployer_run.
  destruct (negb (truthy (deployer (ds s)))); [|exact Hs].
  apply wired_updateProgress.
  eapply Wired_step with (l := []);
    [exact Hs | | simpl; now rewrite app_nil_r | constructor | constructor
     | reflexivity].
  intros V a. discriminate.
Qed.

Lemma deploy_wired force accounts fl0 :
  triple (Wired accounts fl0 [] (false, false, false, false))
         (deploy cl force accounts)
         (fun _ => Finished accounts fl0) (Stopped accounts fl0).
Proof.
  unfold deploy.
  eapply triple_bind; [apply wired_initDeployer | intros ?; cbv beta].
  eapply triple_bind;
    [apply wired_quiet_triple; apply call_quiet | intros ?; cbv beta].
  apply steps_wired.
Qed.

Lemma Wired_start accounts fl0 d (w : W) f bk :
  covers fl0 (flagsOf (progress d)) ->
  Wired accounts fl0 [] (false, false, false, false) (mkSt d w f bk []).
Proof.
  intros Hc. unfold Wired. cbn [ds log]. split; [intros V a; discriminate|].
  split; [constructor|]. split; [constructor|].
  split; [exact Hc | apply covers_none].
Qed.

(** Every run: it ends having gone through the whole plan, or at once on
    a completed ledger, or with an exception; the calls it made agree
    with the ledger object it leaves. *)
Lemma main_wired forceRedeploy (w : W) f bk :
  let accounts := accountsOf (listAccounts cl (snd (clock cl w))) in
  let fl0 := startFlags forceRedeploy f in
  match runMain cl forceRedeploy w f bk with
  | Ok _ s' =>
      Finished accounts fl0 s' \/
      (forceRedeploy = false /\ log s' = [] /\
       exists e, f = Some (Stored e) /\ completed e = true)
  | Throw _ s' => Settled accounts fl0 s'
  end.
Proof.
  cbv zeta.
  unfold runMain, main, start, bind at 1 2 3 4, now, ask, modifyState at 1, call at 1.
  cbn [ds world file backups log].
  destruct (clock cl w) as [t w1]. cbn [snd ds world file backups log].
  destruct (listAccounts cl w1) as [[accounts|err] w2];
    cbn [accountsOf ds world file backups log app];
    [|split; constructor].
  assert (Hdeploy : forall fl0 s,
             Wired accounts fl0 [] (false, false, false, false) s ->
             match deploy cl forceRedeploy accounts s with
             | Ok _ s' =>
                 Finished accounts fl0 s' \/
                 (forceRedeploy = false /\ log s' = [] /\
                  exists e, f = Some (Stored e) /\ completed e = true)
             | Throw _ s' => Settled accounts fl0 s'
             end).
  { intros fl0 s Hs.
    pose proof (deploy_wired forceRedeploy accounts fl0 s Hs) as H.
    destruct (deploy cl forceRedeploy accounts s) as [[] s'|e s']; auto. }
  destruct forceRedeploy; cbn [negb startFlags].
  - unfold ret, bind, modifyState. cbn [ds world file backups log].
    apply Hdeploy. apply Wired_start, covers_none.
  - unfold loadExistingDeployment. cbn [file].
    destruct (parsed f) as [[e listed]|] eqn:Hparsed.
    + unfold bind at 1, modifyState. cbn [ds world file backups log].
      destruct (completed e) eqn:Hdone.
      * destruct listed; [|split; constructor].
        apply parsed_listed in Hparsed.
        unfold printSummary, ret. right. repeat split. eauto.
      * unfold bind at 1.
        match goal with
        | |- context [verifyExisting cl ?s] =>
            assert (Hs : Wired accounts (flagsOf (progress e)) []
                               (false, false, false, false) s)
              by (apply Wired_start, covers_refl);
            pose proof (wired_verifyExisting _ _ _ s Hs) as Hv;
            destruct (verifyExisting cl s) as [[] s1|e1 s1]
        end.
        -- apply Hdeploy. exact Hv.
        -- exact Hv.
    + apply Hdeploy. apply Wired_start, covers_none.
Qed.

(** X4. Every deployment and method call of a run, in either mode and
    however the run ends, is wired to the ledger the run leaves: a unit is
    deployed from its own artifact, with constructor arguments that are
    the addresses the final ledger records for the units it depends on
    (the first account and the literals apart), and a method call is sent
    to the address the final ledger records for its target unit, with the
    recorded addresses as arguments.  So a resumed run connects what it
    deploys to the cached contracts, never to an address it dropped. *)
Theorem calls_follow_the_ledger forceRedeploy (w : W) f bk :
  let s' := final (runMain cl forceRedeploy w f bk) in
  let accounts := accountsOf (listAccounts cl (snd (clock cl w))) in
  Forall (wired accounts (contracts (ds s'))) (log s').
Proof.
  cbv zeta. pose proof (main_wired forceRedeploy w f bk) as H. cbv zeta in H.
  destruct (runMain cl forceRedeploy w f bk) as [[] s'|e s']; simpl.
  - destruct H as [((Hw & _) & _) | (_ & -> & _)]; [exact Hw | constructor].
  - apply H.
Qed.

(** X5. A run that returns has either found a completed ledger and done
    nothing, or gone through the whole plan: its ledger then records an
    address for each of the twelve units and has all four configuration
    flags set. *)
Theorem returned_run_is_complete forceRedeploy (w : W) f bk :
  match runMain cl forceRedeploy w f bk with
  | Ok _ s' =>
      (Forall (fun V => exists a, getContract V (contracts (ds s')) = Some a)
              unitNames /\
       flagsOf (progress (ds s')) = (true, true, true, true)) \/
      (forceRedeploy = false /\ log s' = [] /\
       exists e, f = Some (Stored e) /\ completed e = true)
  | Throw _ _ => True
  end.
Proof.
  pose proof (main_wired forceRedeploy w f bk) as H. cbv zeta in H.
  destruct (runMain cl forceRedeploy w f bk) as [[] s'|e s']; [|exact I].
  destruct H as [(_ & H & _) | H]; [left; exact H | right; exact H].
Qed.

(** X6. A configuration flag stored in the ledger is trusted for the whole
    resumed run: a method whose flag is set in the stored ledger is never
    called, also when the run redeploys the contract the call would go to
    or the contract it would hand over.  The version configuration has
    one exception, which the test on the recorded address leaves open: it
    is still sent when the TREXImplementationAuthority handle has the
    empty address. *)
Theorem stored_flags_suppress_calls (w : W) e bk :
  let s' := final (runMain cl false w (Some (Stored e)) bk) in
  Forall (allowed (flagsOf (progress e))) (log s').
Proof.
  cbv zeta. pose proof (main_wired false w (Some (Stored e)) bk) as H.
  cbv zeta in H. cbn [startFlags] in H.
  destruct (runMain cl false w (Some (Stored e)) bk) as [[] s'|e1 s']; simpl.
  - destruct H as [((_ & Ha) & _) | (_ & -> & _)]; [exact Ha | constructor].
  - apply H.
Qed.

End WiringOfRun.

(* ================================================================== *)
(** ** The order of the calls *)

(** [l1] is [l2] with some elements left out. *)
Inductive subsequence {A : Type} : list A -> list A -> Prop :=
| subsequence_nil : subsequence [] []
| subsequence_skip x l1 l2 : subsequence l1 l2 -> subsequence l1 (x :: l2)
| subsequence_take x l1 l2 : subsequence l1 l2 -> subsequence (x :: l1) (x :: l2).

(** The calls of a log that change the chain: deployments and method
    calls, without the code queries. *)
Definition changes (l : list Event) : list Call :=
  flat_map (fun ev => match ev with
                      | EvDeploy n _ _ _ => [Deployment n]
                      | EvInvoke _ m _ _ => [Method m]
                      | _ => []
                      end) l.

Lemma subsequence_refl {A} (l : list A) : subsequence l l.
Proof. induction l; [constructor | now apply subsequence_take]. Qed.

Lemma subsequence_empty {A} (l : list A) : subsequence [] l.
Proof. induction l; [constructor | now apply subsequence_skip]. Qed.

Lemma subsequence_app {A} (l1 l2 l1' l2' : list A) :
  subsequence l1 l1' -> subsequence l2 l2' -> subsequence (l1 ++ l2) (l1' ++ l2').
Proof.
  intros H1 H2. induction H1; simpl;
    [exact H2 | now apply subsequence_skip | now apply subsequence_take].
Qed.

Lemma changes_app l1 l2 : changes (l1 ++ l2) = changes l1 ++ changes l2.
Proof. apply flat_map_app. Qed.

Lemma changes_query l : Forall isQuery l -> changes l = [].
Proof.
  induction 1 as [|ev l Hev _ IH]; [reflexivity|].
  destruct ev; simpl in *; try contradiction. exact IH.
Qed.

Section Order.

Context {W : Type} (cl : Client W).

(** [m] makes no other changes than those of [c], each at most once and
    in the order of [c]. *)
Definition emits {A} (c : list Call) (m : M W A) : Prop :=
  forall s, exists l,
      log (final (m s)) = log s ++ l /\ subsequence (changes l) c.

Lemma emits_bind {A B} c1 c2 (m : M W A) (k : A -> M W B) :
  emits c1 m -> (forall a, emits c2 (k a)) -> emits (c1 ++ c2) (bind m k).
Proof.
  intros Hm Hk s. unfold bind. destruct (Hm s) as (l & Hl & Hsub).
  destruct (m s) as [a s'|e s']; simpl in *.
  - destruct (Hk a s') as (l' & Hl' & Hsub'). exists (l ++ l').
    rewrite Hl', Hl, app_assoc, changes_app.
    split; [reflexivity | now apply subsequence_app].
  - exists l. split; [exact Hl|].
    rewrite <- (app_nil_r (changes l)).
    apply subsequence_app; [exact Hsub | apply subsequence_empty].
Qed.

Lemma emits_silent {A B} c (m : M W A) (k : A -> M W B) :
  emits [] m -> (forall a, emits c (k a)) -> emits c (bind m k).
Proof. exact (emits_bind [] c m k). Qed.

Lemma emits_one {A B} x c (m : M W A) (k : A -> M W B) :
  emits [x] m -> (forall a, emits c (k a)) -> emits (x :: c) (bind m k).
Proof. exact (emits_bind [x] c m k). Qed.

Lemma emits_none {A} c (m : M W A) : emits [] m -> emits c m.
Proof.
  intros Hm s. destruct (Hm s) as (l & Hl & Hsub). exists l.
  split; [exact Hl|]. inversion Hsub. apply subsequence_empty.
Qed.

Lemma emits_quiet {A} (m : M W A) :
  (forall s, onlyQueries s (final (m s))) -> emits [] m.
Proof.
  intros Hq s. destruct (Hq s) as (_ & _ & _ & l & Hl & Hall).
  exists l. split; [exact Hl|]. rewrite changes_query by exact Hall. constructor.
Qed.

Lemma emits_same {A} (m : M W A) :
  (forall s, log (final (m s)) = log s) -> emits [] m.
Proof.
  intros H s. exists []. rewrite app_nil_r. split; [apply H | constructor].
Qed.

Lemma emits_updateProgress n desc cn ca : emits [] (updateProgress cl n desc cn ca).
Proof.
  intros s. rewrite updateProgress_run.
  destruct (clock cl (world s)) as [t w]. cbv zeta.
  eexists. split; [reflexivity | constructor].
Qed.

Lemma emits_getContractArtifact name : emits [] (getContractArtifact cl name).
Proof. apply emits_quiet, getContractArtifact_quiet. Qed.

Lemma emits_getOnchainIDContractFactory name :
  emits [] (getOnchainIDContractFactory cl name).
Proof. apply emits_quiet, getOnchainIDContractFactory_quiet. Qed.

Lemma emits_call {A} (op : W -> outcome A * W) : emits [] (call op (fun _ => [])).
Proof. apply emits_quiet, call_quiet. Qed.

Lemma emits_redeploy V f args (s1 : St W) lq :
  exists l,
    log (final (redeploy cl V f args s1)) = log s1 ++ l /\
    changes (lq ++ l) = changes lq ++ [Deployment V].
Proof.
  rewrite redeploy_run.
  destruct (deployContract cl (world s1) f args) as [[a|e] w]; cbv zeta; simpl;
    eexists; (split; [rewrite <- ?app_assoc; reflexivity|]);
    rewrite changes_app; reflexivity.
Qed.

Lemma emits_deployIfNeeded force V f args :
  emits [Deployment V] (deployIfNeeded cl force V f args).
Proof.
  intros s.
  destruct (deployIfNeeded_cases cl force V f args s)
    as [(a & s1 & _ & _ & _ & Hq & ->) | [(s1 & Hq & ->) | (s1 & Hq & ->)]];
    destruct Hq as (_ & _ & _ & lq & Hlq & Hall).
  - exists lq. split; [exact Hlq|].
    rewrite changes_query by exact Hall. apply subsequence_empty.
  - destruct (emits_redeploy V f args s1 lq) as (l & Hl & Hc).
    exists (lq ++ l). rewrite Hl, Hlq, app_assoc. split; [reflexivity|].
    rewrite Hc, changes_query by exact Hall. apply subsequence_refl.
  - destruct (emits_redeploy V f args (forgetting V s1) lq) as (l & Hl & Hc).
    exists (lq ++ l). rewrite Hl. simpl. rewrite Hlq, app_assoc.
    split; [reflexivity|].
    rewrite Hc, changes_query by exact Hall. apply subsequence_refl.
Qed.

Lemma emits_configureVersion ia token ctr ir irs tir mc :
  emits [Method "addAndUseTREXVersion"]
        (configureVersion cl ia token ctr ir irs tir mc).
Proof.
  intros s. rewrite configureVersion_run.
  destruct (needsVersionConfig (ds s)).
  - cbv zeta.
    destruct (invokeMethod cl (world s) (address ia) _ _) as [[[]|e] w]; simpl;
      eexists; (split; [reflexivity | apply subsequence_refl]).
  - exists []. rewrite app_nil_r. split; [reflexivity | apply subsequence_empty].
Qed.

Lemma emits_runGuarded g target arg :
  emits [Method (methodOf g)] (runGuarded cl g target arg).
Proof.
  intros s. rewrite runGuarded_run.
  destruct (flagOf g (progress (ds s))).
  - exists []. rewrite app_nil_r. split; [reflexivity | apply subsequence_empty].
  - cbv zeta.
    destruct (invokeMethod cl (world s) (address target) _ _) as [[[]|e] w];
      [|destruct (alreadyDone g e)]; simpl;
      eexists; (split; [reflexivity | apply subsequence_refl]).
Qed.

Lemma emits_complete : emits [] (complete cl).
Proof.
  intros s. rewrite complete_run.
  destruct (clock cl (world s)) as [t1 w1]. cbv zeta.
  destruct (clock cl w1) as [t2 w2].
  destruct (clockMs cl w2) as [ms w3]. simpl.
  eexists. split; [rewrite <- !app_assoc; reflexivity | constructor].
Qed.

Lemma emits_initDeployer accounts : emits [] (initDeployer cl accounts).
Proof.
  intros s. rewrite initDeployer_run.
  destruct (negb (truthy (deployer (ds s)))).
  - match goal with
    | |- context [updateProgress cl ?n ?d None None ?s1] =>
        exact (emits_updateProgress n d None None s1)
    end.
  - exists []. rewrite app_nil_r. split; [reflexivity | constructor].
Qed.

Lemma emits_verifyExisting : emits [] (verifyExisting cl).
Proof.
  intros s. unfold verifyExisting, bind at 1, getState. unfold bind at 1.
  destruct (contractsToRemove_quiet cl (contracts (ds s)) s)
    as (names & s1 & -> & _ & _ & _ & l & Hl & Hall).
  exists l. split; [exact Hl|]. rewrite changes_query by exact Hall. constructor.
Qed.

Lemma emits_steps force accounts : emits planCalls (steps cl force accounts).
Proof.
  unfold steps, planCalls.
  repeat lazymatch goal with
         | |- emits _ (bind _ _) =>
             first
               [ apply emits_silent;
                 [ first [ apply emits_updateProgress
                         | apply emits_getContractArtifact
                         | apply emits_getOnchainIDContractFactory ]
                 | intros ? ]
               | apply emits_one;
                 [ first [ apply emits_deployIfNeeded
                         | apply emits_configureVersion
                         | apply (emits_runGuarded AddTokenFactory)
                         | apply (emits_runGuarded SetTREXFactory)
                         | apply (emits_runGuarded SetIAFactory) ]
                 | intros ? ] ]
         end.
  apply emits_complete.
Qed.

Lemma emits_deploy force accounts : emits planCalls (deploy cl force accounts).
Proof.
  unfold deploy.
  apply emits_silent; [apply emits_initDeployer | intros ?].
  apply emits_silent; [apply emits_call | intros ?].
  apply emits_steps.
Qed.

Lemma emits_main force : emits planCalls (main cl force).
Proof.
  unfold main.
  apply emits_silent; [apply emits_same; intros s; unfold now, ask;
                       destruct (clock cl (world s)); reflexivity | intros t].
  apply emits_silent; [apply emits_same; reflexivity | intros ?].
  apply emits_silent; [apply emits_call | intros accounts].
  apply emits_silent.
  { apply emits_same. intros s. destruct (negb force); reflexivity. }
  intros [[e listed]|].
  - destruct (negb force).
    + apply emits_silent; [apply emits_same; reflexivity | intros ?].
      destruct (completed e).
      * destruct listed; apply emits_none, emits_same; reflexivity.
      * apply emits_silent; [apply emits_verifyExisting | intros ?].
        apply emits_deploy.
    + destruct force; [|apply emits_deploy].
      apply emits_silent; [apply emits_same; reflexivity | intros ?].
      apply emits_deploy.
  - destruct force; [|apply emits_deploy].
    apply emits_silent; [apply emits_same; reflexivity | intros ?].
    apply emits_deploy.
Qed.

(** X7. The calls of a run that change the chain are the plan with some
    calls left out: whatever the mode, the stored ledger and the answers
    of the chain, a run deploys no unit and calls no method outside the
    plan, none twice, and never one before another that the plan puts
    first.  Only code queries can come in between. *)
Theorem changes_follow_the_plan forceRedeploy (w : W) f bk :
  subsequence (changes (log (final (runMain cl forceRedeploy w f bk)))) planCalls.
Proof.
  unfold runMain.
  destruct (emits_main forceRedeploy (start w f bk)) as (l & Hl & Hsub).
  rewrite Hl. exact Hsub.
Qed.

End Order.

(* ================================================================== *)
(** ** Running again *)

Section Rerun.

Context {W : Type} (cl : Client W).

(** X8. Running the script again after a run that returned is a no-op:
    whatever the first run was (forced or not, on whatever ledger), the
    file it leaves holds a completed ledger, and a second run without
    force makes no call to the chain, writes nothing and leaves the file
    and the backups as it found them. *)
Theorem rerun_after_success forceRedeploy (w : W) f bk s1 (w' : W) bk' :
  runMain cl forceRedeploy w f bk = Ok tt s1 ->
  let r := runMain cl false w' (file s1) bk' in
  (exists e, file s1 = Some (Stored e) /\ completed e = true) /\
  log (final r) = [] /\ file (final r) = file s1 /\ backups (final r) = bk'.
Proof.
  intros Hrun. cbv zeta.
  assert (Hfile : exists e, file s1 = Some (Stored e) /\ completed e = true).
  { pose proof (main_wired cl forceRedeploy w f bk) as H. cbv zeta in H.
    destruct (journal_main cl forceRedeploy (start w f bk)) as (l & Hl & Hf & _).
    unfold runMain in *. rewrite Hrun in *. simpl in Hl, Hf.
    destruct H as [(_ & _ & Hdone & Hfile) | (_ & Hlog & e & -> & He)].
    - eauto.
    - rewrite Hlog in Hl. subst l. simpl in Hf. eauto. }
  split; [exact Hfile|].
  destruct Hfile as (e & Hfile & He). rewrite Hfile.
  rewrite (main_on_completed cl w' e bk' He).
  destruct (clock cl w') as [t w1].
  destruct (listAccounts cl w1) as [[accounts|err] w2]; repeat split.
Qed.

End Rerun.

Lemma rerun_after_success_witness :
  let s1 := final (runMain Sim.healthy false (Sim.world0 0 0 []) None []) in
  log (final (runMain Sim.healthy false (Sim.world0 100 0 []) (file s1) [])) = [].
Proof.
  cbv zeta.
  apply (rerun_after_success Sim.healthy false (Sim.world0 0 0 []) None []
           (final (runMain Sim.healthy false (Sim.world0 0 0 []) None []))
           (Sim.world0 100 0 []) []).
  vm_compute. reflexivity.
Defined.

(* ================================================================== *)
(** ** The start-up verification *)

Lemma deleteContract_filter name cs :
  deleteContract name cs = filter (fun kv => negb (String.eqb (fst kv) name)) cs.
Proof.
  induction cs as [|[k x] cs IH]; simpl; auto.
  destruct (String.eqb k name); simpl; now rewrite IH.
Qed.

Lemma removeAll_filter names cs :
  removeAll names cs
  = filter (fun kv => negb (existsb (String.eqb (fst kv)) names)) cs.
Proof.
  unfold removeAll. revert cs.
  induction names as [|n names IH]; intros cs; simpl.
  - induction cs as [|kv cs IHcs]; simpl; [reflexivity | now rewrite <- IHcs].
  - rewrite IH, deleteContract_filter.
    induction cs as [|kv cs IHcs]; simpl; auto.
    destruct (String.eqb (fst kv) n); simpl; [exact IHcs|].
    destruct (existsb (String.eqb (fst kv)) names); simpl; now rewrite IHcs.
Qed.

Lemma subsequence_filter {A} (p : A -> bool) (l : list A) :
  subsequence (filter p l) l.
Proof.
  induction l as [|x l IH]; simpl; [constructor|].
  destruct (p x); [now apply subsequence_take | now apply subsequence_skip].
Qed.

(** The log shows that code was found at [a]. *)
Definition seenLive (a : string) (l : list Event) : Prop :=
  exists code, In (EvGetCode a (Returned code)) l /\ code <> "0x" /\ code <> "0x0".

Section Verification.

Context {W : Type} (cl : Client W).

Lemma contractsToRemove_evidence (entries : Contracts) (s : St W) :
  exists names s' l,
    contractsToRemove cl entries s = Ok names s' /\
    ds s' = ds s /\ file s' = file s /\ backups s' = backups s /\
    log s' = log s ++ l /\ Forall isQuery l /\
    forall k a, In (k, a) entries ->
                existsb (String.eqb k) names = false -> seenLive a l.
Proof.
  revert s. induction entries as [|[n a] rest IH]; intros s.
  - exists [], s, []. rewrite app_nil_r. repeat split; auto. intros k a [].
  - rewrite contractsToRemove_cons. unfold bind.
    destruct (isContractDeployed_outcome cl (Some a) s)
      as (b & s1 & Hrun & Hd & Hf & Hb & Hlive & _).
    assert (Hq1 : exists l1, log s1 = log s ++ l1 /\ Forall isQuery l1 /\
                             (b = true -> seenLive a l1)).
    { destruct (isContractDeployed_quiet cl (Some a) s) as (b' & s1' & Hrun' & Hq).
      rewrite Hrun in Hrun'. injection Hrun' as <- <-.
      destruct Hq as (_ & _ & _ & l1 & Hl1 & Hall).
      exists l1. split; [exact Hl1|]. split; [exact Hall|].
      intros Hb1. apply Hlive in Hb1. destruct Hb1 as (a' & code & Hlog & H1 & H2).
      rewrite Hl1 in Hlog. apply app_inv_head in Hlog. subst l1.
      exists code. split; [|auto].
      pose proof (isContractDeployed_run cl (Some a) s) as Hshape.
      cbv beta iota in Hshape.
      destruct (truthy (Some a) && isAddress cl a).
      - destruct (getCode cl (world s) a) as [r w].
        rewrite Hrun in Hshape. injection Hshape as _ Hs1.
        apply (f_equal (@log W)) in Hs1. simpl in Hs1.
        rewrite Hl1 in Hs1. apply app_inv_head in Hs1.
        injection Hs1 as <- _. now left.
      - rewrite Hrun in Hshape. injection Hshape as _ Hs1.
        apply (f_equal (@log W)) in Hs1. rewrite Hl1 in Hs1.
        rewrite <- (app_nil_r (log s)) in Hs1 at 2.
        apply app_inv_head in Hs1. discriminate. }
    rewrite Hrun.
    destruct Hq1 as (l1 & Hl1 & Hall1 & Hev1).
    destruct (IH s1) as (names & s2 & l2 & -> & Hd2 & Hf2 & Hb2 & Hl2 & Hall2 & Hev2).
    unfold ret.
    exists (if b then names else n :: names), s2, (l1 ++ l2).
    split; [reflexivity|]. repeat split; try congruence.
    + now rewrite Hl2, Hl1, app_assoc.
    + apply Forall_app. auto.
    + intros k a0 [[= <- <-] | Hin] Hnot.
      * destruct b.
        -- destruct (Hev1 eq_refl) as (code & Hin1 & H12).
           exists code. split; [apply in_or_app; now left | exact H12].
        -- simpl in Hnot. rewrite String.eqb_refl in Hnot. discriminate.
      * assert (Hnot' : existsb (String.eqb k) names = false).
        { destruct b; [exact Hnot|]. simpl in Hnot.
          apply orb_false_iff in Hnot. apply Hnot. }
        destruct (Hev2 k a0 Hin Hnot') as (code & Hin2 & H12).
        exists code. split; [apply in_or_app; now right | exact H12].
Qed.

(** X9. The start-up verification of a resumed ledger never throws and
    only ever drops entries: the contracts it leaves are the stored ones
    with some left out, in the stored order and with the stored addresses,
    and an entry is kept only if a code query at its address returned code
    during the verification.  It makes no other call than code queries and
    touches nothing but the contracts of the ledger object: progress,
    flags, deployer, file and backups stay as they were. *)
Theorem verifyExisting_only_drops (s : St W) :
  exists s' l,
    verifyExisting cl s = Ok tt s' /\
    subsequence (contracts (ds s')) (contracts (ds s)) /\
    (forall k a, In (k, a) (contracts (ds s')) -> seenLive a l) /\
    log s' = log s ++ l /\ Forall isQuery l /\
    ds s' = set_contracts (contracts (ds s')) (ds s) /\
    file s' = file s /\ backups s' = backups s.
Proof.
  unfold verifyExisting, bind at 1, getState. unfold bind at 1.
  destruct (contractsToRemove_evidence (contracts (ds s)) s)
    as (names & s1 & l & -> & Hd & Hf & Hb & Hl & Hall & Hev).
  unfold modifyState. eexists _, l. split; [reflexivity|]. simpl.
  rewrite Hd, removeAll_filter.
  split; [apply subsequence_filter|].
  split.
  { intros k a Hin. apply filter_In in Hin. destruct Hin as [Hin Hkeep].
    simpl in Hkeep. apply negb_true_iff in Hkeep. eauto. }
  repeat split; auto.
Qed.

End Verification.

(* ================================================================== *)
(** ** The recorded deployer *)

(** The deployer a run records: the stored one when a ledger is resumed
    and has one, the first account otherwise. *)
Definition recordedDeployer (forceRedeploy : bool) (f : option FileContent)
           (accounts : list string) : option string :=
  match parsed (if forceRedeploy then None else f) with
  | Some (e, _) => if truthy (deployer e) then deployer e else hd_error accounts
  | None => hd_error accounts
  end.

(** Every ledger written names [D] as deployer. *)
Definition namesDeployer (D : option string) (ev : Event) : Prop :=
  match ev with
  | EvSave d => deployer d = D
  | EvBackup _ d => deployer d = D
  | _ => True
  end.

Section Deployer.

Context {W : Type} (cl : Client W).
Variable D : option string.

Definition hasDeployer (d : deploymentState) : Prop := deployer d = D.

Lemma namesDeployer_query ev : isQuery ev -> namesDeployer D ev.
Proof. destruct ev; simpl; auto; contradiction. Qed.

Lemma complete_deployer :
  triple (Inv hasDeployer (namesDeployer D)) (complete cl)
         (fun _ => Inv hasDeployer (namesDeployer D))
         (fun _ => Inv hasDeployer (namesDeployer D)).
Proof.
  intros s [HG Hphi]. rewrite complete_run.
  destruct (clock cl (world s)) as [t1 w1]. cbv zeta.
  destruct (clock cl w1) as [t2 w2].
  destruct (clockMs cl w2) as [ms w3].
  split; [exact HG|]. simpl.
  repeat (apply Forall_app; split); auto; repeat constructor; exact HG.
Qed.

Lemma steps_deployer force accounts :
  triple (Inv hasDeployer (namesDeployer D)) (steps cl force accounts)
         (fun _ => Inv hasDeployer (namesDeployer D))
         (fun _ => Inv hasDeployer (namesDeployer D)).
Proof.
  apply (steps_frame cl force hasDeployer (namesDeployer D) (fun _ _ => True)).
  - intros p d Hd. exact Hd.
  - apply namesDeployer_query.
  - intros; exact I.
  - intros d Hd. exact Hd.
  - intros V a d Hd _ _. exact Hd.
  - apply simple_deployIfNeeded.
    + intros cs d Hd. exact Hd.
    + apply namesDeployer_query.
    + intros; exact I.
    + intros d Hd. exact Hd.
  - apply complete_deployer.
Qed.

Lemma deploy_deployer force accounts (s : St W) :
  Forall (namesDeployer D) (log s) ->
  D = (if truthy (deployer (ds s)) then deployer (ds s) else hd_error accounts) ->
  Forall (namesDeployer D) (log (final (deploy cl force accounts s))).
Proof.
  intros Hlog HD. rewrite deploy_run, initDeployer_run.
  assert (H1 : match (if negb (truthy (deployer (ds s)))
                      then updateProgress cl 0 "Initialized deployer" None None
                             (mkSt (set_deployer (hd_error accounts) (ds s))
                                   (world s) (file s) (backups s) (log s))
                      else Ok tt s) with
               | Ok _ s1 => Inv hasDeployer (namesDeployer D) s1
               | Throw _ s1 => Inv hasDeployer (namesDeployer D) s1
               end).
  { destruct (truthy (deployer (ds s))); simpl negb; cbv iota.
    - split; [now symmetry | exact Hlog].
    - apply (keeps_updateProgress cl hasDeployer (namesDeployer D)).
      + intros p d Hd. exact Hd.
      + intros d Hd. exact Hd.
      + split; [now symmetry | exact Hlog]. }
  destruct (if negb (truthy (deployer (ds s))) then _ else _) as [[] s1|e s1];
    [|apply H1].
  pose proof (call_quiet (getBalance cl) s1) as Hq.
  pose proof (Inv_quiet hasDeployer (namesDeployer D) namesDeployer_query
                        _ _ H1 Hq) as H2.
  destruct (call (getBalance cl) (fun _ => []) s1) as [[] s2|e s2]; [|apply H2].
  pose proof (steps_deployer force accounts s2 H2) as H3.
  destruct (steps cl force accounts s2); apply H3.
Qed.

End Deployer.

Section DeployerOfRun.

Context {W : Type} (cl : Client W).

(** X10. Every ledger a run writes, flush or backup, names one and the same
    deployer: the deployer of the stored ledger when a run without force
    resumes a ledger that has one, even if the first account is now
    another, and the first account of the provider in every other case
    (no ledger, an unusable one, a ledger without deployer, force mode). *)
Theorem deployer_is_kept forceRedeploy (w : W) f bk :
  let s' := final (runMain cl forceRedeploy w f bk) in
  let accounts := accountsOf (listAccounts cl (snd (clock cl w))) in
  Forall (namesDeployer (recordedDeployer forceRedeploy f accounts)) (log s').
Proof.
  cbv zeta.
  unfold runMain, main, start, bind at 1 2 3 4, now, ask, modifyState at 1, call at 1.
  cbn [ds world file backups log].
  destruct (clock cl w) as [t w1]. cbn [snd ds world file backups log].
  destruct (listAccounts cl w1) as [[accounts|err] w2];
    cbn [accountsOf ds world file backups log app final];
    [|constructor].
  unfold recordedDeployer. destruct forceRedeploy; cbn [negb].
  - unfold ret, bind, modifyState. cbn [ds world file backups log parsed].
    apply deploy_deployer; [constructor | reflexivity].
  - unfold loadExistingDeployment. cbn [file].
    destruct (parsed f) as [[e listed]|].
    + unfold bind at 1, modifyState. cbn [ds world file backups log].
      destruct (completed e); [destruct listed; constructor|].
      unfold bind at 1.
      match goal with
      | |- context [verifyExisting cl ?s] =>
          pose proof (simple_verifyExisting cl
                        (fun d => deployer d = deployer e)
                        (namesDeployer
                           (if truthy (deployer e) then deployer e
                            else hd_error accounts))
                        (fun cs d Hd => Hd)
                        (namesDeployer_query _) s
                        (conj eq_refl (Forall_nil _))) as Hv;
          destruct (verifyExisting cl s) as [[] s1|e1 s1]
      end.
      * destruct Hv as [Hd Hlog].
        apply deploy_deployer; [exact Hlog | now rewrite Hd].
      * apply Hv.
    + apply deploy_deployer; [constructor | reflexivity].
Qed.

End DeployerOfRun.

(* ================================================================== *)
(** ** Where exceptions come from *)

Section Raised.

Context {W : Type} (cl : Client W).

(** [e] is an error one of the collaborators can raise: the account
    listing (or the building of the provider), the balance query, the
    loading of an artifact (with the errors of the helper for a missing or
    invalid file), a deployment or a method call. *)
Definition raised (e : Error) : Prop :=
  (exists w w', listAccounts cl w = (Thrown e, w')) \/
  (exists w w', getBalance cl w = (Thrown e, w')) \/
  (exists w f w', readArtifact cl w f = (Thrown e, w')) \/
  (exists w f args w', deployContract cl w f args = (Thrown e, w')) \/
  (exists w t m args w', invokeMethod cl w t m args = (Thrown e, w')).

(** [m] throws nothing of its own. *)
Definition relays {A} (m : M W A) : Prop :=
  forall s, match m s with
            | Ok _ _ => True
            | Throw e _ => raised e
            end.

Lemma relays_bind {A B} (m : M W A) (k : A -> M W B) :
  relays m -> (forall a, relays (k a)) -> relays (bind m k).
Proof.
  intros Hm Hk s. unfold bind. specialize (Hm s).
  destruct (m s) as [a s'|e s']; [apply Hk | exact Hm].
Qed.

Lemma relays_total {A} (m : M W A) :
  (forall s, exists a s', m s = Ok a s') -> relays m.
Proof. intros H s. destruct (H s) as (a & s' & ->). exact I. Qed.

Lemma relays_updateProgress n desc cn ca : relays (updateProgress cl n desc cn ca).
Proof.
  apply relays_total. intros s. rewrite updateProgress_run.
  destruct (clock cl (world s)) as [t w]. eauto.
Qed.

Lemma relays_getContractArtifact name :
  existsb (String.eqb name) contractPaths = true ->
  relays (getContractArtifact cl name).
Proof.
  intros Hknown s. unfold getContractArtifact. rewrite Hknown.
  unfold bind, call, ret.
  destruct (readArtifact cl (world s) (TrexArtifact name)) as [[[]|e] w] eqn:E;
    [exact I|].
  right; right; left. eauto.
Qed.

Lemma relays_getOnchainIDContractFactory name :
  existsb (String.eqb name) ["Identity"; "ImplementationAuthority"; "Factory"] = true ->
  relays (getOnchainIDContractFactory cl name).
Proof.
  intros Hknown s. unfold getOnchainIDContractFactory. rewrite Hknown.
  unfold bind, call, ret.
  destruct (readArtifact cl (world s) (OnchainIDArtifact name)) as [[[]|e] w] eqn:E;
    [exact I|].
  right; right; left. eauto.
Qed.

Lemma relays_redeploy V f args : relays (redeploy cl V f args).
Proof.
  intros s. rewrite redeploy_run.
  destruct (deployContract cl (world s) f args) as [[a|e] w] eqn:E; [exact I|].
  right; right; right; left. eauto.
Qed.

Lemma relays_deployIfNeeded force V f args :
  relays (deployIfNeeded cl force V f args).
Proof.
  intros s.
  destruct (deployIfNeeded_cases cl force V f args s)
    as [(a & s1 & _ & _ & _ & _ & ->) | [(s1 & _ & ->) | (s1 & _ & ->)]];
    [exact I | apply relays_redeploy | apply relays_redeploy].
Qed.

Lemma relays_configureVersion ia token ctr ir irs tir mc :
  relays (configureVersion cl ia token ctr ir irs tir mc).
Proof.
  intros s. rewrite configureVersion_run.
  destruct (needsVersionConfig (ds s)); [|exact I]. cbv zeta.
  destruct (invokeMethod cl (world s) (address ia) _ _) as [[[]|e] w] eqn:E;
    [exact I|].
  right; right; right; right. eauto 6.
Qed.

Lemma relays_runGuarded g target arg : relays (runGuarded cl g target arg).
Proof.
  intros s. rewrite runGuarded_run.
  destruct (flagOf g (progress (ds s))); [exact I|]. cbv zeta.
  destruct (invokeMethod cl (world s) (address target) _ _) as [[[]|e] w] eqn:E;
    [exact I|].
  destruct (alreadyDone g e); [exact I|].
  right; right; right; right. eauto 6.
Qed.

Lemma relays_complete : relays (complete cl).
Proof.
  apply relays_total. intros s. rewrite complete_run.
  destruct (clock cl (world s)) as [t1 w1]. cbv zeta.
  destruct (clock cl w1) as [t2 w2].
  destruct (clockMs cl w2) as [ms w3]. eauto.
Qed.

Lemma relays_initDeployer accounts : relays (initDeployer cl accounts).
Proof.
  intros s. rewrite initDeployer_run.
  destruct (negb (truthy (deployer (ds s)))); [|exact I].
  apply relays_updateProgress.
Qed.

Lemma relays_verifyExisting : relays (verifyExisting cl).
Proof.
  apply relays_total. intros s.
  unfold verifyExisting, bind at 1, getState. unfold bind at 1.
  destruct (contractsToRemove_quiet cl (contracts (ds s)) s) as (names & s1 & -> & _).
  unfold modifyState. eauto.
Qed.

Lemma relays_steps force accounts : relays (steps cl force accounts).
Proof.
  unfold steps.
  repeat lazymatch goal with
         | |- relays (bind _ _) =>
             apply relays_bind;
             [ first [ apply relays_updateProgress
                     | apply relays_getContractArtifact; reflexivity
                     | apply relays_getOnchainIDContractFactory; reflexivity
                     | apply relays_deployIfNeeded
                     | apply relays_configureVersion
                     | apply (relays_runGuarded AddTokenFactory)
                     | apply (relays_runGuarded SetTREXFactory)
                     | apply (relays_runGuarded SetIAFactory) ]
             | intros ? ]
         end.
  apply relays_complete.
Qed.

Lemma relays_deploy force accounts : relays (deploy cl force accounts).
Proof.
  unfold deploy.
  apply relays_bind; [apply relays_initDeployer | intros ?].
  apply relays_bind; [|intros ?; apply relays_steps].
  intros s. unfold call.
  destruct (getBalance cl (world s)) as [[[]|e] w] eqn:E; [exact I|].
  right; left. eauto.
Qed.

(** A run throws what a collaborator raised, or the [TypeError] of the
    summary of a completed ledger without [contracts]. *)
Lemma main_relays force (s : St W) :
  match main cl force s with
  | Ok _ _ => True
  | Throw e _ =>
      raised e \/
      (force = false /\
       exists d, file s = Some (Bare d) /\ completed d = true)
  end.
Proof.
  assert (Hdeploy : forall accounts s1,
             match deploy cl force accounts s1 with
             | Ok _ _ => True
             | Throw e _ =>
                 raised e \/
                 (force = false /\
                  exists d, file s = Some (Bare d) /\ completed d = true)
             end).
  { intros accounts s1. pose proof (relays_deploy force accounts s1) as H.
    destruct (deploy cl force accounts s1); auto. }
  unfold main, bind at 1 2 3 4, now, ask, modifyState at 1, call at 1.
  destruct (clock cl (world s)) as [t w1]. cbn [ds world file backups log].
  destruct (listAccounts cl w1) as [[accounts|err] w2] eqn:Hlist;
    [|left; left; eauto].
  destruct force; cbn [negb].
  - unfold ret, bind, modifyState. apply Hdeploy.
  - unfold loadExistingDeployment. cbn [file].
    destruct (parsed (file s)) as [[e listed]|] eqn:Hparsed; [|apply Hdeploy].
    unfold bind at 1, modifyState. cbn [ds world file backups log].
    destruct (completed e) eqn:Hdone.
    + destruct listed; [exact I|]. right. split; [reflexivity|].
      destruct (file s) as [[|d|d]|]; try discriminate.
      injection Hparsed as <-. eauto.
    + unfold bind at 1.
      match goal with
      | |- context [verifyExisting cl ?s1] =>
          pose proof (relays_verifyExisting s1) as Hv;
          destruct (verifyExisting cl s1) as [[] s2|e1 s2]
      end; [apply Hdeploy | now left].
Qed.

End Raised.

(* ================================================================== *)
(** ** A deployed address is flushed at once *)

(** In [l], every deployment that returned an address is directly followed
    by a flush of a ledger that records the address under the unit. *)
Fixpoint persisted (l : list Event) : Prop :=
  match l with
  | [] => True
  | EvDeploy V _ _ (Returned a) :: rest =>
      match rest with
      | EvSave d :: _ => getContract V (contracts d) = Some a
      | _ => False
      end /\ persisted rest
  | _ :: rest => persisted rest
  end.

Lemma persisted_app l1 l2 : persisted l1 -> persisted l2 -> persisted (l1 ++ l2).
Proof.
  intros H1 H2. induction l1 as [|ev l1 IH]; [exact H2|].
  destruct ev as [a r|V f args [a|e]|t m args r|d|ms d]; simpl in *; auto.
  destruct H1 as [Hnext H1]. split; [|auto].
  destruct l1 as [|[| | |d|] l1]; simpl in *; tauto.
Qed.

Lemma persisted_without_deployments l : changes l = [] -> persisted l.
Proof.
  induction l as [|ev l IH]; [constructor|].
  destruct ev as [a r|V f args [a|e]|t m args r|d|ms d]; simpl;
    try discriminate; auto.
Qed.

Lemma persisted_methods l c :
  subsequence (changes l) c ->
  Forall (fun x => match x with Deployment _ => False | _ => True end) c ->
  persisted l.
Proof.
  intros Hsub Hc.
  assert (Hl : Forall (fun x => match x with Deployment _ => False | _ => True end)
                      (changes l)).
  { clear -Hsub Hc. induction Hsub; [constructor | | ].
    - inversion Hc; auto.
    - inversion Hc; subst. constructor; auto. }
  clear -Hl. induction l as [|ev l IH]; [constructor|].
  destruct ev as [a r|V f args [a|e]|t m args r|d|ms d]; simpl in *;
    try (inversion Hl; subst; contradiction || auto); auto.
Qed.

Section Persisted.

Context {W : Type} (cl : Client W).

Definition tidy {A} (m : M W A) : Prop :=
  forall s, exists l, log (final (m s)) = log s ++ l /\ persisted l.

Lemma tidy_bind {A B} (m : M W A) (k : A -> M W B) :
  tidy m -> (forall a, tidy (k a)) -> tidy (bind m k).
Proof.
  intros Hm Hk s. unfold bind. destruct (Hm s) as (l & Hl & Hp).
  destruct (m s) as [a s'|e s']; simpl in *; [|eauto].
  destruct (Hk a s') as (l' & Hl' & Hp'). exists (l ++ l').
  rewrite Hl', Hl, app_assoc. split; [reflexivity | now apply persisted_app].
Qed.

Lemma tidy_emits {A} c (m : M W A) :
  emits c m ->
  Forall (fun x => match x with Deployment _ => False | _ => True end) c ->
  tidy m.
Proof.
  intros Hm Hc s. destruct (Hm s) as (l & Hl & Hsub). exists l.
  split; [exact Hl | eapply persisted_methods; eauto].
Qed.

Lemma tidy_redeploy V f args (s1 : St W) :
  exists l, log (final (redeploy cl V f args s1)) = log s1 ++ l /\
            changes l = [Deployment V] /\ persisted l.
Proof.
  rewrite redeploy_run.
  destruct (deployContract cl (world s1) f args) as [[a|e] w]; cbv zeta; simpl.
  - eexists. split; [rewrite <- app_assoc; reflexivity|]. simpl.
    split; [reflexivity|]. split; [apply getContract_set_same | exact I].
  - eexists. split; [reflexivity|]. simpl. auto.
Qed.

Lemma tidy_deployIfNeeded force V f args : tidy (deployIfNeeded cl force V f args).
Proof.
  intros s.
  destruct (deployIfNeeded_cases cl force V f args s)
    as [(a & s1 & _ & _ & _ & Hq & ->) | [(s1 & Hq & ->) | (s1 & Hq & ->)]];
    destruct Hq as (_ & _ & _ & lq & Hlq & Hall);
    pose proof (persisted_without_deployments lq (changes_query lq Hall)) as Hpq.
  - exists lq. auto.
  - destruct (tidy_redeploy V f args s1) as (l & Hl & _ & Hp).
    exists (lq ++ l). rewrite Hl, Hlq, app_assoc.
    split; [reflexivity | now apply persisted_app].
  - destruct (tidy_redeploy V f args (forgetting V s1)) as (l & Hl & _ & Hp).
    exists (lq ++ l). rewrite Hl. simpl. rewrite Hlq, app_assoc.
    split; [reflexivity | now apply persisted_app].
Qed.

Ltac silent := apply (tidy_emits []); [|constructor].

Lemma tidy_steps force accounts : tidy (steps cl force accounts).
Proof.
  unfold steps.
  repeat lazymatch goal with
         | |- tidy (bind _ _) =>
             apply tidy_bind;
             [ first [ silent; apply emits_updateProgress
                     | silent; apply emits_getContractArtifact
                     | silent; apply emits_getOnchainIDContractFactory
                     | apply tidy_deployIfNeeded
                     | eapply tidy_emits;
                       [apply emits_configureVersion | repeat constructor]
                     | eapply tidy_emits;
                       [apply (emits_runGuarded cl AddTokenFactory)
                       | repeat constructor]
                     | eapply tidy_emits;
                       [apply (emits_runGuarded cl SetTREXFactory)
                       | repeat constructor]
                     | eapply tidy_emits;
                       [apply (emits_runGuarded cl SetIAFactory)
                       | repeat constructor] ]
             | intros ? ]
         end.
  silent. apply emits_complete.
Qed.

Lemma tidy_main force : tidy (main cl force).
Proof.
  assert (Hdeploy : forall accounts, tidy (deploy cl force accounts)).
  { intros accounts. unfold deploy.
    apply tidy_bind; [silent; apply emits_initDeployer | intros ?].
    apply tidy_bind; [silent; apply emits_call | intros ?].
    apply tidy_steps. }
  assert (Hsame : forall A (m : M W A),
             (forall s, log (final (m s)) = log s) -> tidy m).
  { intros A m H. silent. now apply emits_same. }
  unfold main.
  apply tidy_bind; [apply Hsame; intros s; unfold now, ask;
                    destruct (clock cl (world s)); reflexivity | intros t].
  apply tidy_bind; [apply Hsame; reflexivity | intros ?].
  apply tidy_bind; [silent; apply emits_call | intros accounts].
  apply tidy_bind.
  { apply Hsame. intros s. destruct (negb force); reflexivity. }
  intros [[e listed]|].
  - destruct (negb force).
    + apply tidy_bind; [apply Hsame; reflexivity | intros ?].
      destruct (completed e); [destruct listed; apply Hsame; reflexivity|].
      apply tidy_bind; [silent; apply emits_verifyExisting | intros ?].
      apply Hdeploy.
    + destruct force; [|apply Hdeploy].
      apply tidy_bind; [apply Hsame; reflexivity | intros ?]. apply Hdeploy.
  - destruct force; [|apply Hdeploy].
    apply tidy_bind; [apply Hsame; reflexivity | intros ?]. apply Hdeploy.
Qed.

(** X12. No deployed address is ever lost: in every run, each deployment
    that returns an address is followed at once, before any other call or
    write, by a flush of a ledger that records the address under the unit
    that was deployed. *)
Theorem deployments_are_flushed_at_once forceRedeploy (w : W) f bk :
  persisted (log (final (runMain cl forceRedeploy w f bk))).
Proof.
  unfold runMain.
  destruct (tidy_main forceRedeploy (start w f bk)) as (l & Hl & Hp).
  rewrite Hl. exact Hp.
Qed.

End Persisted.

(* ================================================================== *)
(** ** Force mode and the first run *)

Section ForceIsFirstRun.

Context {W : Type} (cl : Client W).

(** The ledger object has no entry for any of [names]. *)
Definition absent (names : list string) (s : St W) : Prop :=
  Forall (fun V => getContract V (contracts (ds s)) = None) names.

(** Two programs that do the same from every state in [P]. *)
Definition agree {A} (P : St W -> Prop) (k1 k2 : M W A) : Prop :=
  forall s, P s -> k1 s = k2 s.

Lemma deployIfNeeded_force_absent V f args (s : St W) :
  getContract V (contracts (ds s)) = None ->
  deployIfNeeded cl true V f args s = deployIfNeeded cl false V f args s.
Proof. intros H. rewrite !deployIfNeeded_run, H. reflexivity. Qed.

Lemma absent_same names (s s' : St W) :
  contracts (ds s') = contracts (ds s) -> absent names s -> absent names s'.
Proof. unfold absent. intros ->. auto. Qed.

Lemma absent_set names V a (s s' : St W) :
  existsb (String.eqb V) names = false ->
  contracts (ds s') = setContract V a (contracts (ds s)) ->
  absent names s -> absent names s'.
Proof.
  unfold absent. intros Hnew -> H.
  apply Forall_forall. intros V' Hin.
  rewrite getContract_set_other.
  - revert V' Hin. now apply Forall_forall.
  - intros ->. assert (existsb (String.eqb V') names = true); [|congruence].
    apply existsb_exists. exists V'. split; [exact Hin | apply String.eqb_refl].
Qed.

Lemma agree_bind {A B} (P : St W -> Prop) (Q : A -> St W -> Prop)
      (m : M W A) (k1 k2 : A -> M W B) :
  triple P m Q (fun _ _ => True) ->
  (forall a, agree (Q a) (k1 a) (k2 a)) ->
  agree P (bind m k1) (bind m k2).
Proof.
  intros Hm Hk s Hs. unfold bind. specialize (Hm s Hs).
  destruct (m s) as [a s'|e s']; [now apply Hk | reflexivity].
Qed.

Lemma absent_quiet {A} names (m : M W A) :
  (forall s, onlyQueries s (final (m s))) ->
  triple (absent names) m (fun _ => absent names) (fun _ _ => True).
Proof.
  intros Hq s Hs. specialize (Hq s).
  destruct (m s) as [a s'|e s']; [|exact I]. simpl in Hq.
  destruct Hq as (Hd & _). eapply absent_same; [|exact Hs]. now rewrite Hd.
Qed.

Lemma absent_updateProgress names n desc :
  triple (absent names) (updateProgress cl n desc None None)
         (fun _ => absent names) (fun _ _ => True).
Proof.
  intros s Hs. rewrite updateProgress_run.
  destruct (clock cl (world s)) as [t w]. cbv zeta.
  eapply absent_same; [|exact Hs]. reflexivity.
Qed.

Lemma absent_record names n desc V a :
  existsb (String.eqb V) names = false ->
  triple (absent names) (updateProgress cl n desc (Some V) (Some a))
         (fun _ => absent names) (fun _ _ => True).
Proof.
  intros Hnew s Hs. rewrite updateProgress_run.
  destruct (clock cl (world s)) as [t w]. cbv zeta.
  destruct (truthy (Some V) && truthy (Some a)).
  - eapply absent_set; [exact Hnew | | exact Hs]. reflexivity.
  - eapply absent_same; [|exact Hs]. reflexivity.
Qed.

Lemma absent_configureVersion names ia token ctr ir irs tir mc :
  triple (absent names) (configureVersion cl ia token ctr ir irs tir mc)
         (fun _ => absent names) (fun _ _ => True).
Proof.
  intros s Hs. rewrite configureVersion_run.
  destruct (needsVersionConfig (ds s)); [|exact Hs]. cbv zeta.
  destruct (invokeMethod cl (world s) (address ia) _ _) as [[[]|e] w]; [|exact I].
  eapply absent_same; [|exact Hs]. reflexivity.
Qed.

Lemma absent_runGuarded names g target arg :
  triple (absent names) (runGuarded cl g target arg)
         (fun _ => absent names) (fun _ _ => True).
Proof.
  intros s Hs. rewrite runGuarded_run.
  destruct (flagOf g (progress (ds s))); [exact Hs|]. cbv zeta.
  destruct (invokeMethod cl (world s) (address target) _ _) as [[[]|e] w];
    [|destruct (alreadyDone g e); [|exact I]];
    (eapply absent_same; [|exact Hs]); reflexivity.
Qed.

Lemma absent_deployIfNeeded names V f args :
  existsb (String.eqb V) names = false ->
  triple (absent (V :: names)) (deployIfNeeded cl false V f args)
         (fun _ => absent names) (fun _ _ => True).
Proof.
  intros Hnew s Hs. inversion Hs as [|V' names' HV Hrest]; subst.
  rewrite deployIfNeeded_run, HV, redeploy_run.
  destruct (deployContract cl (world s) f args) as [[a|e] w]; [|exact I].
  cbv zeta. eapply absent_set; [exact Hnew | | exact Hrest]. reflexivity.
Qed.

Lemma agree_deploy {B} names V f args (k1 k2 : Handle -> M W B) :
  existsb (String.eqb V) names = false ->
  (forall h, agree (absent names) (k1 h) (k2 h)) ->
  agree (absent (V :: names))
        (bind (deployIfNeeded cl true V f args) k1)
        (bind (deployIfNeeded cl false V f args) k2).
Proof.
  intros Hnew Hk s Hs. unfold bind.
  rewrite deployIfNeeded_force_absent by (inversion Hs; assumption).
  pose proof (absent_deployIfNeeded names V f args Hnew s Hs) as H.
  destruct (deployIfNeeded cl false V f args s) as [h s'|e s'];
    [now apply Hk | reflexivity].
Qed.

Lemma steps_force_absent accounts :
  agree (absent unitNames) (steps cl true accounts) (steps cl false accounts).
Proof.
  unfold steps, unitNames, deployPlan. simpl map.
  repeat lazymatch goal with
         | |- agree _ (bind (deployIfNeeded _ true _ _ _) _) _ =>
             apply agree_deploy; [reflexivity | intros ?]
         | |- agree _ (bind _ _) _ =>
             eapply agree_bind;
             [ first [ apply absent_updateProgress
                     | apply absent_record; reflexivity
                     | apply absent_quiet; apply getContractArtifact_quiet
                     | apply absent_quiet; apply getOnchainIDContractFactory_quiet
                     | apply absent_configureVersion
                     | apply (absent_runGuarded _ AddTokenFactory)
                     | apply (absent_runGuarded _ SetTREXFactory)
                     | apply (absent_runGuarded _ SetIAFactory) ]
             | intros ? ]
         end.
  intros s _. reflexivity.
Qed.

(** A forced run with no file is the first run. *)
Lemma main_force_first (s : St W) :
  file s = None -> main cl true s = main cl false s.
Proof.
  intros Hfile.
  unfold main, bind, now, ask, modifyState, call, loadExistingDeployment, ret.
  cbn [negb].
  destruct (clock cl (world s)) as [t w1]. cbn [ds world file backups log].
  destruct (listAccounts cl w1) as [[accounts|e] w2]; [|reflexivity].
  cbn [ds world file backups log]. rewrite Hfile. cbn [parsed].
  rewrite !deploy_run, !initDeployer_run. cbn [ds deployer forceReset freshState
    set_progress set_contracts truthy negb].
  rewrite !updateProgress_run. cbn [world].
  destruct (clock cl w2) as [t2 w3]. cbv zeta.
  cbn [ds world file backups log progress contracts set_deployer set_progress
       forceReset freshState set_contracts touch_progress versionConfigured
       identityFactoryConfigured trexFactoryConfigured iaFactoryConfigured
       timestamp network deployer completed completedAt].
  match goal with
  | |- match call _ _ ?s1 with _ => _ end = match call _ _ ?s2 with _ => _ end =>
      change s2 with s1; destruct (call (getBalance cl) (fun _ => []) s1)
        as [[] s3|e3 s3] eqn:Hcall; [|reflexivity];
      pose proof (call_quiet (getBalance cl) s1) as Hq; rewrite Hcall in Hq
  end.
  apply steps_force_absent.
  simpl in Hq. destruct Hq as (Hd & _). unfold absent. rewrite Hd. simpl.
  repeat constructor.
Qed.

Lemma refiled_run {A} (m : M W A) f (s : St W) :
  oblivious m -> journal m -> log s = [] ->
  m (refile f s) = refileRes (lastSaved f (log (final (m s)))) (m s).
Proof.
  intros Hob Hj Hlog.
  destruct (Hj (refile f s)) as (l & Hl & Hf & _).
  simpl in Hl, Hf. rewrite Hlog in Hl. simpl in Hl. rewrite <- Hl in Hf.
  destruct (Hob f s) as [E | E]; rewrite E in *.
  - rewrite <- Hf. symmetry. destruct (m s) as [a [d w f' bk l']|e [d w f' bk l']];
      reflexivity.
  - destruct (m s) as [a s'|e s']; simpl in *; rewrite <- Hf; reflexivity.
Qed.

(** X13. Force mode is the first run: a forced run on any ledger file makes
    the same calls with the same results, builds the same ledger object,
    writes the same flushes and backups and ends the same way as a run
    without force that finds no file.  The one difference that can remain
    is the old file itself, which stays in place when the run ends before
    its first flush. *)
Theorem force_is_first_run (w : W) f bk :
  let r := runMain cl false w None bk in
  runMain cl true w f bk = refileRes (lastSaved f (log (final r))) r.
Proof.
  cbv zeta. unfold runMain.
  rewrite <- (main_force_first (start w None bk)) by reflexivity.
  change (start w f bk) with (refile f (start w None bk)).
  apply refiled_run; [apply oblivious_main_force | apply journal_main | reflexivity].
Qed.

End ForceIsFirstRun.

(* ================================================================== *)
(** ** Where the addresses of the ledger come from *)

(** Every address [cs] records for a unit is the one [stored] has for
    it, or was returned by a deployment of the unit logged in [L]. *)
Definition sourced (stored : Contracts) (L : list Event) (cs : Contracts) : Prop :=
  forall V a,
    getContract V cs = Some a ->
    getContract V stored = Some a \/
    exists f args, In (EvDeploy V f args (Returned a)) L.

(** The same of a ledger written to a file. *)
Definition sourcedWrite (stored : Contracts) (L : list Event) (ev : Event) : Prop :=
  match ev with
  | EvSave d => sourced stored L (contracts d)
  | EvBackup _ d => sourced stored L (contracts d)
  | _ => True
  end.

(** The contracts a run starts from. *)
Definition storedContracts (forceRedeploy : bool) (f : option FileContent)
  : Contracts :=
  match parsed (if forceRedeploy then None else f) with
  | Some (e, _) => contracts e
  | None => []
  end.

Lemma sourced_more stored L L' cs :
  (forall ev, In ev L -> In ev L') -> sourced stored L cs -> sourced stored L' cs.
Proof.
  intros Hsub H V a Hget. destruct (H V a Hget) as [Hs | (f & args & Hin)]; eauto.
Qed.

Lemma sourcedWrite_more stored L L' ev :
  (forall ev, In ev L -> In ev L') ->
  sourcedWrite stored L ev -> sourcedWrite stored L' ev.
Proof. destruct ev; simpl; auto; apply sourced_more. Qed.

Lemma getContract_delete_some V name cs a :
  getContract V (deleteContract name cs) = Some a -> getContract V cs = Some a.
Proof.
  destruct (String.eqb_spec name V) as [->|Hne].
  - now rewrite getContract_delete_same.
  - now rewrite getContract_delete_other.
Qed.

Lemma getContract_removeAll_some V names cs a :
  getContract V (removeAll names cs) = Some a -> getContract V cs = Some a.
Proof.
  unfold removeAll. revert cs.
  induction names as [|n names IH]; intros cs; simpl; auto.
  intros H. apply IH in H. now apply getContract_delete_some in H.
Qed.

Section Sourced.

Context {W : Type} (cl : Client W).
Variable stored : Contracts.

Definition Sourced (s : St W) : Prop :=
  sourced stored (log s) (contracts (ds s)) /\
  Forall (sourcedWrite stored (log s)) (log s).

(** One step that adds [l] to the log. *)
Lemma Sourced_step (s s' : St W) l :
  Sourced s ->
  log s' = log s ++ l ->
  sourced stored (log s ++ l) (contracts (ds s')) ->
  Forall (sourcedWrite stored (log s ++ l)) l ->
  Sourced s'.
Proof.
  intros (Hds & Hlog) Hl Hnew Hall. unfold Sourced. rewrite Hl.
  split; [exact Hnew|]. apply Forall_app. split; [|exact Hall].
  eapply Forall_impl; [|exact Hlog]. intros ev.
  apply sourcedWrite_more. intros ev' Hin. apply in_or_app. now left.
Qed.

(** [ev] writes no ledger, or one with the contracts [cs]. *)
Definition writes (cs : Contracts) (ev : Event) : Prop :=
  match ev with
  | EvSave d => contracts d = cs
  | EvBackup _ d => contracts d = cs
  | _ => True
  end.

(** A step that leaves the contracts as they are. *)
Lemma Sourced_same (s s' : St W) l :
  Sourced s ->
  log s' = log s ++ l ->
  contracts (ds s') = contracts (ds s) ->
  Forall (writes (contracts (ds s))) l ->
  Sourced s'.
Proof.
  intros Hs Hl Hcs Hall.
  assert (Hmore : sourced stored (log s ++ l) (contracts (ds s))).
  { eapply sourced_more; [|apply Hs]. intros ev Hin. apply in_or_app. now left. }
  eapply Sourced_step; eauto.
  - now rewrite Hcs.
  - eapply Forall_impl; [|exact Hall].
    intros [a r|V f args r|t m args r|d|ms d]; simpl; auto; intros ->; exact Hmore.
Qed.

Lemma writes_query cs l : Forall isQuery l -> Forall (writes cs) l.
Proof.
  intros H. eapply Forall_impl; [|exact H].
  intros [a r|V f args r|t m args r|d|ms d]; simpl; tauto.
Qed.

Notation "'sound' m" := (triple Sourced m (fun _ => Sourced) (fun _ => Sourced))
  (at level 10, m at level 9).

Lemma sound_quiet {A} (m : M W A) :
  (forall s, onlyQueries s (final (m s))) -> sound m.
Proof.
  intros Hq s Hs. specialize (Hq s).
  assert (H : Sourced (final (m s))).
  { destruct Hq as (Hd & _ & _ & l & Hl & Hall).
    eapply Sourced_same; eauto; [now rewrite Hd | now apply writes_query]. }
  destruct (m s); exact H.
Qed.

Lemma sound_updateProgress n desc : sound (updateProgress cl n desc None None).
Proof.
  intros s Hs. rewrite updateProgress_run.
  destruct (clock cl (world s)) as [t w]. cbv zeta.
  eapply Sourced_same; [exact Hs | reflexivity | reflexivity |].
  repeat constructor.
Qed.

Lemma sound_record n desc V a :
  triple (fun s => Sourced s /\ getContract V (contracts (ds s)) = Some a)
         (updateProgress cl n desc (Some V) (Some a))
         (fun _ => Sourced) (fun _ => Sourced).
Proof.
  intros s [Hs Hget]. rewrite updateProgress_run.
  destruct (clock cl (world s)) as [t w]. cbv zeta.
  destruct (truthy (Some V) && truthy (Some a)).
  - eapply Sourced_same; [exact Hs | reflexivity | |];
      simpl; rewrite (setContract_same _ _ _ Hget); [reflexivity|].
    repeat constructor.
  - eapply Sourced_same; [exact Hs | reflexivity | reflexivity |].
    repeat constructor.
Qed.

Lemma sound_redeploy V f args (s : St W) :
  Sourced s ->
  match redeploy cl V f args s with
  | Ok _ s' => Sourced s'
  | Throw _ s' => Sourced s'
  end.
Proof.
  intros Hs. rewrite redeploy_run.
  destruct (deployContract cl (world s) f args) as [[a|e] w]; cbv zeta.
  - assert (Hnew : sourced stored
                     (log s ++ [EvDeploy V f args (Returned a);
                                EvSave (set_contracts
                                          (setContract V a (contracts (ds s)))
                                          (ds s))])
                     (setContract V a (contracts (ds s)))).
    { intros V' a' Hget.
      destruct (String.eqb_spec V V') as [<-|Hne].
      - rewrite getContract_set_same in Hget. injection Hget as <-.
        right. exists f, args. apply in_or_app. right. now left.
      - rewrite getContract_set_other in Hget by exact Hne.
        destruct (proj1 Hs V' a' Hget) as [H | (f' & args' & Hin)]; [now left|].
        right. exists f', args'. apply in_or_app. now left. }
    eapply Sourced_step;
      [exact Hs | simpl; rewrite <- app_assoc; reflexivity | exact Hnew |].
    constructor; [exact I|]. constructor; [exact Hnew | constructor].
  - eapply Sourced_same; [exact Hs | reflexivity | reflexivity |].
    repeat constructor.
Qed.

Lemma Sourced_forgetting V (s : St W) : Sourced s -> Sourced (forgetting V s).
Proof.
  intros Hs. eapply Sourced_step with (l := []);
    [exact Hs | simpl; now rewrite app_nil_r | | constructor].
  rewrite app_nil_r. intros V' a' Hget. simpl in Hget.
  apply getContract_delete_some in Hget. now apply Hs.
Qed.

Lemma sound_deployIfNeeded force V f args :
  triple Sourced (deployIfNeeded cl force V f args)
         (fun h s => Sourced s /\ getContract V (contracts (ds s)) = Some (address h))
         (fun _ => Sourced).
Proof.
  intros s Hs.
  assert (Hq : forall s1, onlyQueries s s1 -> Sourced s1).
  { intros s1 (Hd & _ & _ & l & Hl & Hall).
    eapply Sourced_same; eauto; [now rewrite Hd | now apply writes_query]. }
  assert (Hre : forall s1, Sourced s1 ->
                  match redeploy cl V f args s1 with
                  | Ok h s' => Sourced s' /\
                               getContract V (contracts (ds s')) = Some (address h)
                  | Throw _ s' => Sourced s'
                  end).
  { intros s1 H1. pose proof (sound_redeploy V f args s1 H1) as H.
    rewrite redeploy_run in *.
    destruct (deployContract cl (world s1) f args) as [[a|e] w]; cbv zeta in *;
      [|exact H].
    split; [exact H | apply getContract_set_same]. }
  destruct (deployIfNeeded_cases cl force V f args s)
    as [(a & s1 & _ & Hget & _ & Hq1 & ->) | [(s1 & Hq1 & ->) | (s1 & Hq1 & ->)]].
  - split; [auto|]. destruct Hq1 as (-> & _). exact Hget.
  - apply Hre. auto.
  - apply Hre. apply Sourced_forgetting. auto.
Qed.

Lemma sound_configureVersion ia token ctr ir irs tir mc :
  sound (configureVersion cl ia token ctr ir irs tir mc).
Proof.
  intros s Hs. rewrite configureVersion_run.
  destruct (needsVersionConfig (ds s)); [|exact Hs]. cbv zeta.
  destruct (invokeMethod cl (world s) (address ia) _ _) as [[[]|e] w];
    (eapply Sourced_same; [exact Hs | reflexivity | reflexivity |]);
    repeat constructor.
Qed.

Lemma sound_runGuarded g target arg : sound (runGuarded cl g target arg).
Proof.
  intros s Hs. rewrite runGuarded_run.
  destruct (flagOf g (progress (ds s))); [exact Hs|]. cbv zeta.
  destruct (invokeMethod cl (world s) (address target) _ _) as [[[]|e] w];
    [|destruct (alreadyDone g e)];
    (eapply Sourced_same; [exact Hs | reflexivity | reflexivity |]);
    repeat constructor.
Qed.

Lemma sound_complete : sound (complete cl).
Proof.
  intros s Hs. rewrite complete_run.
  destruct (clock cl (world s)) as [t1 w1]. cbv zeta.
  destruct (clock cl w1) as [t2 w2].
  destruct (clockMs cl w2) as [ms w3].
  eapply Sourced_same;
    [exact Hs | simpl; rewrite <- !app_assoc; reflexivity | reflexivity |].
  repeat constructor.
Qed.

Lemma sound_initDeployer accounts : sound (initDeployer cl accounts).
Proof.
  intros s Hs. rewrite initDeployer_run.
  destruct (negb (truthy (deployer (ds s)))); [|exact Hs].
  apply sound_updateProgress.
  eapply Sourced_same with (l := []);
    [exact Hs | simpl; now rewrite app_nil_r | reflexivity | constructor].
Qed.

Lemma sound_verifyExisting : sound (verifyExisting cl).
Proof.
  intros s Hs. unfold verifyExisting, bind at 1, getState. unfold bind at 1.
  destruct (contractsToRemove_quiet cl (contracts (ds s)) s)
    as (names & s1 & -> & Hd & _ & _ & l & Hl & Hall).
  unfold modifyState.
  assert (H1 : Sourced s1).
  { eapply Sourced_same; eauto; [now rewrite Hd | now apply writes_query]. }
  eapply Sourced_step with (l := []);
    [exact H1 | simpl; now rewrite app_nil_r | | constructor].
  rewrite app_nil_r. intros V a Hget. simpl in Hget. rewrite Hd in Hget.
  apply getContract_removeAll_some in Hget. apply H1. now rewrite Hd.
Qed.

(** The plan, with the handle of each unit known to be in the ledger when
    its address is recorded. *)
Lemma sound_steps force accounts : sound (steps cl force accounts).
Proof.
  unfold steps.
  repeat lazymatch goal with
         | |- triple _ (bind (deployIfNeeded _ _ _ _ _) _) _ _ =>
             eapply triple_bind;
             [ apply sound_deployIfNeeded | intros ?; cbv beta ];
             eapply triple_bind; [ apply sound_record | intros ?; cbv beta ]
         | |- triple _ (bind _ _) _ _ =>
             eapply triple_bind;
             [ first [ apply sound_updateProgress
                     | apply sound_quiet; apply getContractArtifact_quiet
                     | apply sound_quiet; apply getOnchainIDContractFactory_quiet
                     | apply sound_configureVersion
                     | apply (sound_runGuarded AddTokenFactory)
                     | apply (sound_runGuarded SetTREXFactory)
                     | apply (sound_runGuarded SetIAFactory) ]
             | intros ?; cbv beta ]
         end.
  apply sound_complete.
Qed.

Lemma sound_deploy force accounts : sound (deploy cl force accounts).
Proof.
  unfold deploy.
  eapply triple_bind; [apply sound_initDeployer | intros ?; cbv beta].
  eapply triple_bind; [apply sound_quiet; apply call_quiet | intros ?; cbv beta].
  apply sound_steps.
Qed.

End Sourced.

Section SourcedRun.

Context {W : Type} (cl : Client W).

(** X14. A ledger never holds an address of unknown origin: each address
    in the ledger object a run leaves, and in every ledger it wrote to the
    file or to a backup, is either the address the resumed ledger had
    for that unit or one that a deployment of that unit returned during
    the run.  A forced run and a run without a usable file start from
    nothing, so there every address comes from a deployment of the run. *)
Theorem ledger_addresses_are_sourced forceRedeploy (w : W) f bk :
  let s' := final (runMain cl forceRedeploy w f bk) in
  let stored := storedContracts forceRedeploy f in
  sourced stored (log s') (contracts (ds s')) /\
  Forall (sourcedWrite stored (log s')) (log s').
Proof.
  cbv zeta.
  assert (Hstart : forall stored d (w0 : W) f0 bk0,
             (forall V a, getContract V (contracts d) = Some a ->
                          getContract V stored = Some a) ->
             Sourced stored (mkSt d w0 f0 bk0 [])).
  { intros stored d w0 f0 bk0 H. split; [|constructor].
    intros V a Hget. left. now apply H. }
  assert (Hdeploy : forall stored accounts s,
             Sourced stored s ->
             Sourced stored (final (deploy cl forceRedeploy accounts s))).
  { intros stored accounts s Hs.
    pose proof (sound_deploy cl stored forceRedeploy accounts s Hs) as H.
    destruct (deploy cl forceRedeploy accounts s); exact H. }
  enough (H : Sourced (storedContracts forceRedeploy f)
                      (final (runMain cl forceRedeploy w f bk))) by exact H.
  unfold runMain, main, start, bind at 1 2 3 4, now, ask, modifyState at 1, call at 1.
  cbn [ds world file backups log].
  destruct (clock cl w) as [t w1]. cbn [ds world file backups log].
  destruct (listAccounts cl w1) as [[accounts|err] w2];
    cbn [ds world file backups log app final].
  2:{ apply Hstart. intros V a. discriminate. }
  unfold storedContracts. destruct forceRedeploy; cbn [negb].
  - unfold ret, bind, modifyState. cbn [ds world file backups log parsed].
    apply Hdeploy, Hstart. intros V a. discriminate.
  - unfold loadExistingDeployment. cbn [file].
    destruct (parsed f) as [[e listed]|].
    + unfold bind at 1, modifyState. cbn [ds world file backups log].
      destruct (completed e).
      * destruct listed; apply Hstart; auto.
      * unfold bind at 1.
        match goal with
        | |- context [verifyExisting cl ?s] =>
            assert (Hs : Sourced (contracts e) s) by (apply Hstart; auto);
            pose proof (sound_verifyExisting cl (contracts e) s Hs) as Hv;
            destruct (verifyExisting cl s) as [[] s1|e1 s1]
        end.
        -- apply Hdeploy. exact Hv.
        -- exact Hv.
    + apply Hdeploy, Hstart. intros V a. discriminate.
Qed.

End SourcedRun.

(* ================================================================== *)
(** ** What a resumed run reads of the stored ledger *)

(** Two ledgers with the same contracts, progress, deployer and completion
    mark; timestamp, network and completion time may differ. *)
Definition sameResumable (e e' : deploymentState) : Prop :=
  contracts e = contracts e' /\ progress e = progress e' /\
  deployer e = deployer e' /\ completed e = completed e'.

(** A ledger like [oneUnit], written at another time for another network. *)
Definition oneUnitElsewhere : deploymentState :=
  mkState "T77" SEPOLIA (Some "0xACC") [("TokenImplementation", "0xA1")]
          (mkProgress 1.1 "Token implementation deployment completed"
                      (Some "T3") false false false false)
          false (Some "T78").

Section Resumable.

Context {W : Type} (cl : Client W).

(** The run once the ledger [e] has been read from the file. *)
Definition resumeFrom (e : deploymentState) : M W unit :=
  t <- now cl ;;
  modifyState (fun _ => freshState t) ;;
  accounts <- call (listAccounts cl) (fun _ => []) ;;
  modifyState (mergeExisting e) ;;
  if completed e then ret tt
  else verifyExisting cl ;; deploy cl false accounts.

Lemma main_stored e (s : St W) :
  file s = Some (Stored e) -> main cl false s = resumeFrom e s.
Proof.
  intros Hf. unfold main, resumeFrom, bind, now, ask, modifyState, call,
    loadExistingDeployment, ret.
  destruct (clock cl (world s)) as [t w1]. cbn [ds world file backups log].
  destruct (listAccounts cl w1) as [[accounts|err] w2]; [|reflexivity].
  cbn [negb file ds world backups log]. rewrite Hf. reflexivity.
Qed.

Lemma resumeFrom_same e e' (s : St W) :
  sameResumable e e' -> resumeFrom e s = resumeFrom e' s.
Proof.
  intros (Hc & Hp & Hd & Hdone).
  unfold resumeFrom, mergeExisting. now rewrite Hc, Hp, Hd, Hdone.
Qed.

Lemma oblivious_contractsToRemove entries :
  oblivious (contractsToRemove cl entries).
Proof.
  induction entries as [|[n a] rest IH].
  - apply oblivious_ret.
  - rewrite contractsToRemove_cons.
    apply oblivious_bind; [apply oblivious_isContractDeployed | intros b].
    apply oblivious_bind; [exact IH | intros names]. apply oblivious_ret.
Qed.

Lemma oblivious_resumeFrom e : oblivious (resumeFrom e).
Proof.
  unfold resumeFrom, verifyExisting, deploy, now.
  destruct (completed e);
    repeat first
      [ apply oblivious_initDeployer
      | apply oblivious_steps
      | apply oblivious_contractsToRemove
      | apply oblivious_ask
      | apply oblivious_modifyState
      | apply oblivious_getState
      | apply oblivious_call
      | apply oblivious_ret
      | apply oblivious_bind; [|intros ?] ].
Qed.

Lemma refileRes_twice {A} f f' (r : Res W A) :
  refileRes f (refileRes f' r) = refileRes f r.
Proof. destruct r; reflexivity. Qed.

Lemma log_refileRes {A} f (r : Res W A) :
  log (final (refileRes f r)) = log (final r).
Proof. destruct r; reflexivity. Qed.

(** A run on the stored ledger [e], from the run of [resumeFrom e] with no
    file. *)
Lemma resumed_run (w : W) e bk :
  runMain cl false w (Some (Stored e)) bk
  = refileRes (lastSaved (Some (Stored e))
                         (log (final (resumeFrom e (start w None bk)))))
              (resumeFrom e (start w None bk)).
Proof.
  unfold runMain.
  destruct (journal_main cl false (start w (Some (Stored e)) bk))
    as (l & Hl & Hf & _).
  rewrite main_stored with (e := e) in * by reflexivity.
  simpl in Hl, Hf. rewrite <- Hl in Hf.
  change (start w (Some (Stored e)) bk)
    with (refile (Some (Stored e)) (start w None bk)) in *.
  destruct (oblivious_resumeFrom e (Some (Stored e)) (start w None bk))
    as [E | E]; rewrite E in *.
  - rewrite <- Hf. symmetry. apply refileRes_file.
  - rewrite log_refileRes in Hf.
    destruct (resumeFrom e (start w None bk)) as [a s'|err s']; simpl in *;
      rewrite <- Hf; reflexivity.
Qed.

(** X15. Of the stored ledger a resumed run reads the contracts, the
    progress, the deployer and the completion mark, and nothing else: two
    ledgers that agree on these lead to the same run, call for call and
    write for write, whatever their timestamps and networks.  In
    particular the network a ledger was written for is never compared
    with the network of the run.  The one difference that can remain is
    the file, which stays as it was when the run writes nothing. *)
Theorem resume_ignores_the_rest (w : W) e e' bk :
  sameResumable e e' ->
  let r' := runMain cl false w (Some (Stored e')) bk in
  runMain cl false w (Some (Stored e)) bk
  = refileRes (lastSaved (Some (Stored e)) (log (final r'))) r'.
Proof.
  intros Hsame. cbv zeta. rewrite !resumed_run.
  rewrite (resumeFrom_same e e' _ Hsame).
  now rewrite log_refileRes, refileRes_twice.
Qed.

End Resumable.

Lemma resume_ignores_the_rest_witness :
  sameResumable oneUnit oneUnitElsewhere /\
  log (final (runMain Sim.healthy false (Sim.world0 100 10 [])
                      (Some (Stored oneUnit)) []))
  = log (final (runMain Sim.healthy false (Sim.world0 100 10 [])
                        (Some (Stored oneUnitElsewhere)) [])).
Proof.
  assert (H : sameResumable oneUnit oneUnitElsewhere)
    by (repeat split; reflexivity).
  split; [exact H|].
  rewrite (resume_ignores_the_rest Sim.healthy (Sim.world0 100 10 [])
             oneUnit oneUnitElsewhere [] H).
  apply log_refileRes.
Defined.

(* ================================================================== *)
(** ** A chain on which every call succeeds *)

Section Reliable.

Context {W : Type} (cl : Client W).

(** X16. Resuming gets there.  Suppose the collaborators cannot fail:
    whatever the state of the world and whatever they are asked, the
    account listing (with the building of the provider), the balance
    query, the loading of an artifact (the file is there and has its abi
    and bytecode), a deployment and a method call return; code queries may
    fail, and file writes succeed.  Suppose also that the run is forced,
    or that the file is not a completed ledger without a [contracts]
    property, on which the summary throws.  Then the run returns, be the
    file absent, unreadable, the ledger of a run interrupted at any point
    or a ledger whose entries and flags match nothing on the chain; the
    process exits with code 0 and the file holds a ledger marked
    completed. *)
Theorem run_completes_when_calls_succeed forceRedeploy (w : W) f bk :
  (forall e, ~ raised cl e) ->
  (forceRedeploy = true \/ forall d, f = Some (Bare d) -> completed d = false) ->
  exists s',
    runMain cl forceRedeploy w f bk = Ok tt s' /\
    exitCode (runMain cl forceRedeploy w f bk) = 0%Z /\
    exists d, file s' = Some (Stored d) /\ completed d = true.
Proof.
  intros Hnone Hfile.
  enough (H : exists s',
             runMain cl forceRedeploy w f bk = Ok tt s' /\
             exists d, file s' = Some (Stored d) /\ completed d = true).
  { destruct H as (s' & Hrun & Hd). exists s'. rewrite Hrun. auto. }
  pose proof (main_relays cl forceRedeploy (start w f bk)) as Hrel.
  pose proof (main_wired cl forceRedeploy w f bk) as Hrun. cbv zeta in Hrun.
  destruct (journal_main cl forceRedeploy (start w f bk)) as (l & Hl & Hf & _).
  unfold runMain in *.
  destruct (main cl forceRedeploy (start w f bk)) as [[] s'|e s'].
  - exists s'. split; [reflexivity|]. simpl in Hl, Hf.
    destruct Hrun as [(_ & _ & Hdone & Hstored) | (_ & Hlog & e & -> & He)].
    + eauto.
    + rewrite Hlog in Hl. subst l. simpl in Hf. eauto.
  - exfalso. destruct Hrel as [Hr | (Hforce & d & Hbare & Hdone)].
    + exact (Hnone e Hr).
    + simpl in Hbare. destruct Hfile as [Ht | Hopen]; [congruence|].
      rewrite (Hopen d Hbare) in Hdone. discriminate.
Qed.

End Reliable.

Lemma run_completes_when_calls_succeed_witness :
  (forall e, ~ raised Sim.healthy e) /\
  exists s',
    runMain Sim.healthy false (Sim.world0 0 0 []) (Some (Stored oneUnit)) []
    = Ok tt s' /\
    exitCode (runMain Sim.healthy false (Sim.world0 0 0 [])
                      (Some (Stored oneUnit)) []) = 0%Z /\
    exists d, file s' = Some (Stored d) /\ completed d = true.
Proof.
  assert (H : forall e, ~ raised Sim.healthy e).
  { intros e [(w & w' & H) | [(w & w' & H) | [(w & f & w' & H)
              | [(w & f & args & w' & H) | (w & t & m & args & w' & H)]]]];
      try discriminate H.
    destruct f; discriminate H. }
  split; [exact H|].
  apply (run_completes_when_calls_succeed Sim.healthy false (Sim.world0 0 0 [])
           (Some (Stored oneUnit)) [] H).
  right. intros d Hd. discriminate Hd.
Defined.

(* ================================================================== *)
(** ** A stored flag that outlives its contract *)

(** A ledger whose TREXImplementationAuthority is gone from the chain but
    whose version flag is set. *)
Definition versionedLedger : deploymentState :=
  mkState "T0" HOODI (Some "0xACC")
          [("TREXImplementationAuthority", "0xDEAD")]
          (mkProgress 3.2 "T-REX version configuration completed" (Some "T5")
                      true false false false)
          false None.

(** The resumed run finds no code at the stored address, deploys a new
    TREXImplementationAuthority and, the flag being set, never sends it
    [addAndUseTREXVersion]; it returns with a completed ledger. *)
Example version_flag_outlives_contract :
  exists s',
    runMain Sim.healthy false (Sim.world0 100 0 [Returned "0x"])
            (Some (Stored versionedLedger)) []
    = Ok tt s' /\
    changes (log s')
    = [Deployment "TokenImplementation";
       Deployment "ClaimTopicsRegistryImplementation";
       Deployment "TrustedIssuersRegistryImplementation";
       Deployment "IdentityRegistryStorageImplementation";
       Deployment "IdentityRegistryImplementation";
       Deployment "ModularComplianceImplementation";
       Deployment "IdentityImplementation";
       Deployment "IdentityImplementationAuthority";
       Deployment "IdentityFactory";
       Deployment "TREXImplementationAuthority";
       Deployment "TREXFactory";
       Method "addTokenFactory";
       Deployment "IAFactory";
       Method "setTREXFactory";
       Method "setIAFactory"] /\
    getContract "TREXImplementationAuthority" (contracts (ds s')) = Some "0xC9" /\
    completed (ds s') = true.
Proof. eexists. split; [vm_compute; reflexivity|]. repeat split. Qed.

(* ================================================================== *)
(** ** Where the flags of the ledger come from *)

(** The flag of a guarded action among the flags [fl]. *)
Definition flagIn (g : Guarded) (fl : Flags) : bool :=
  let '(_, i, x, a) := fl in
  match g with
  | AddTokenFactory => i
  | SetTREXFactory => x
  | SetIAFactory => a
  end.

(** [L] shows a call of the version configuration that returned. *)
Definition versionAdded (L : list Event) : Prop :=
  exists target args,
    In (EvInvoke target "addAndUseTREXVersion" args (Returned tt)) L.

(** [L] shows a call of the method of [g] that returned, or failed with
    a message its [catch] takes for work already done. *)
Definition settled (g : Guarded) (L : list Event) : Prop :=
  exists target args r,
    In (EvInvoke target (methodOf g) args r) L /\
    match r with
    | Returned _ => True
    | Thrown e => alreadyDone g e = true
    end.

(** Every flag set in [p] was set in [fl0] or has its call in [L]. *)
Definition flagsSourced (fl0 : Flags) (L : list Event) (p : Progress) : Prop :=
  (versionConfigured p = true -> fst (fst (fst fl0)) = true \/ versionAdded L) /\
  (forall g, flagOf g p = true -> flagIn g fl0 = true \/ settled g L).

Definition flagsWrite (fl0 : Flags) (L : list Event) (ev : Event) : Prop :=
  match ev with
  | EvSave d => flagsSourced fl0 L (progress d)
  | EvBackup _ d => flagsSourced fl0 L (progress d)
  | _ => True
  end.

Lemma flagsSourced_more fl0 L L' p :
  (forall ev, In ev L -> In ev L') ->
  flagsSourced fl0 L p -> flagsSourced fl0 L' p.
Proof.
  intros Hsub [Hv Hg]. split.
  - intros H. destruct (Hv H) as [H0 | (t & args & Hin)]; [now left|].
    right. exists t, args. auto.
  - intros g H. destruct (Hg g H) as [H0 | (t & args & r & Hin & Hr)]; [now left|].
    right. exists t, args, r. auto.
Qed.

Lemma flagsWrite_more fl0 L L' ev :
  (forall ev, In ev L -> In ev L') ->
  flagsWrite fl0 L ev -> flagsWrite fl0 L' ev.
Proof. destruct ev; simpl; auto; apply flagsSourced_more. Qed.

Lemma flagsSourced_same fl0 L p p' :
  flagsOf p' = flagsOf p -> flagsSourced fl0 L p -> flagsSourced fl0 L p'.
Proof.
  intros Hfl [Hv Hg].
  destruct p as [n d l v i x a], p' as [n' d' l' v' i' x' a'].
  simpl in Hfl. injection Hfl as -> -> -> ->.
  split; [exact Hv|]. intros g. specialize (Hg g). destruct g; exact Hg.
Qed.

Section Flagged.

Context {W : Type} (cl : Client W).
Variable fl0 : Flags.

Definition Flagged (s : St W) : Prop :=
  flagsSourced fl0 (log s) (progress (ds s)) /\
  Forall (flagsWrite fl0 (log s)) (log s).

Lemma Flagged_step (s s' : St W) l :
  Flagged s ->
  log s' = log s ++ l ->
  flagsSourced fl0 (log s ++ l) (progress (ds s')) ->
  Forall (flagsWrite fl0 (log s ++ l)) l ->
  Flagged s'.
Proof.
  intros (Hds & Hlog) Hl Hnew Hall. unfold Flagged. rewrite Hl.
  split; [exact Hnew|]. apply Forall_app. split; [|exact Hall].
  eapply Forall_impl; [|exact Hlog]. intros ev.
  apply flagsWrite_more. intros ev' Hin. apply in_or_app. now left.
Qed.

(** [ev] writes no ledger, or one with the flags [fl]. *)
Definition writesFlags (fl : Flags) (ev : Event) : Prop :=
  match ev with
  | EvSave d => flagsOf (progress d) = fl
  | EvBackup _ d => flagsOf (progress d) = fl
  | _ => True
  end.

(** A step that leaves the flags as they are. *)
Lemma Flagged_same (s s' : St W) l :
  Flagged s ->
  log s' = log s ++ l ->
  flagsOf (progress (ds s')) = flagsOf (progress (ds s)) ->
  Forall (writesFlags (flagsOf (progress (ds s)))) l ->
  Flagged s'.
Proof.
  intros Hs Hl Hfl Hall.
  assert (Hmore : flagsSourced fl0 (log s ++ l) (progress (ds s))).
  { eapply flagsSourced_more; [|apply Hs]. intros ev Hin. apply in_or_app. now left. }
  eapply Flagged_step; eauto.
  - eapply flagsSourced_same; eauto.
  - eapply Forall_impl; [|exact Hall].
    intros [a r|V f args r|t m args r|d|ms d]; simpl; auto; intros Hd;
      eapply flagsSourced_same; eauto.
Qed.

Lemma writesFlags_query fl l : Forall isQuery l -> Forall (writesFlags fl) l.
Proof.
  intros H. eapply Forall_impl; [|exact H].
  intros [a r|V f args r|t m args r|d|ms d]; simpl; tauto.
Qed.

Notation "'fair' m" := (triple Flagged m (fun _ => Flagged) (fun _ => Flagged))
  (at level 10, m at level 9).

Lemma fair_quiet {A} (m : M W A) :
  (forall s, onlyQueries s (final (m s))) -> fair m.
Proof.
  intros Hq s Hs. specialize (Hq s).
  assert (H : Flagged (final (m s))).
  { destruct Hq as (Hd & _ & _ & l & Hl & Hall).
    eapply Flagged_same; eauto; [now rewrite Hd | now apply writesFlags_query]. }
  destruct (m s); exact H.
Qed.

Lemma fair_updateProgress n desc cn ca : fair (updateProgress cl n desc cn ca).
Proof.
  intros s Hs. rewrite updateProgress_run.
  destruct (clock cl (world s)) as [t w]. cbv zeta.
  destruct cn as [name|]; [destruct ca as [addr|]|];
    try destruct (truthy (Some name) && truthy (Some addr));
    (eapply Flagged_same; [exact Hs | reflexivity | reflexivity |]);
    repeat constructor.
Qed.

Lemma fair_redeploy V f args (s : St W) :
  Flagged s ->
  match redeploy cl V f args s with
  | Ok _ s' => Flagged s'
  | Throw _ s' => Flagged s'
  end.
Proof.
  intros Hs. rewrite redeploy_run.
  destruct (deployContract cl (world s) f args) as [[a|e] w]; cbv zeta.
  - eapply Flagged_same;
      [exact Hs | simpl; rewrite <- app_assoc; reflexivity | reflexivity |].
    repeat constructor.
  - eapply Flagged_same; [exact Hs | reflexivity | reflexivity |].
    repeat constructor.
Qed.

Lemma fair_deployIfNeeded force V f args : fair (deployIfNeeded cl force V f args).
Proof.
  intros s Hs.
  assert (Hq : forall s1, onlyQueries s s1 -> Flagged s1).
  { intros s1 (Hd & _ & _ & l & Hl & Hall).
    eapply Flagged_same; eauto; [now rewrite Hd | now apply writesFlags_query]. }
  assert (Hre : forall s1, Flagged s1 ->
                  match redeploy cl V f args s1 with
                  | Ok h s' => Flagged s'
                  | Throw _ s' => Flagged s'
                  end) by (intros s1; apply fair_redeploy).
  destruct (deployIfNeeded_cases cl force V f args s)
    as [(a & s1 & _ & _ & _ & Hq1 & ->) | [(s1 & Hq1 & ->) | (s1 & Hq1 & ->)]].
  - auto.
  - apply Hre. auto.
  - apply Hre.
    eapply Flagged_same with (l := []);
      [apply Hq; exact Hq1 | simpl; now rewrite app_nil_r | reflexivity
       | constructor].
Qed.

Lemma fair_configureVersion ia token ctr ir irs tir mc :
  fair (configureVersion cl ia token ctr ir irs tir mc).
Proof.
  intros s Hs. rewrite configureVersion_run.
  destruct (needsVersionConfig (ds s)); [|exact Hs]. cbv zeta.
  destruct (invokeMethod cl (world s) (address ia) _ _) as [[[]|e] w].
  - eapply Flagged_step; [exact Hs | reflexivity | | repeat constructor].
    destruct Hs as [[Hv Hg] _]. split.
    + intros _. right. eexists _, _. apply in_or_app. right. now left.
    + intros g Hflag. simpl in Hflag.
      assert (H : flagOf g (progress (ds s)) = true).
      { destruct (progress (ds s)), g; exact Hflag. }
      destruct (Hg g H) as [H0 | (t & args & r & Hin & Hr)]; [now left|].
      right. exists t, args, r. split; [apply in_or_app; now left | exact Hr].
  - eapply Flagged_same; [exact Hs | reflexivity | reflexivity |].
    repeat constructor.
Qed.

Lemma fair_runGuarded g target arg : fair (runGuarded cl g target arg).
Proof.
  intros s Hs. rewrite runGuarded_run.
  destruct (flagOf g (progress (ds s))); [exact Hs|]. cbv zeta.
  assert (Hraise : forall r w,
             match r with
             | Returned _ => True
             | Thrown e => alreadyDone g e = true
             end ->
             Flagged (flagged (raiseFlag g)
                        (called (address target) (methodOf g)
                                [VStr (address arg)] r w s))).
  { intros r w Hr.
    eapply Flagged_step; [exact Hs | reflexivity | | repeat constructor].
    destruct Hs as [[Hv Hg] _]. simpl. split.
    - intros Hflag.
      assert (H : versionConfigured (progress (ds s)) = true).
      { destruct (progress (ds s)), g; exact Hflag. }
      destruct (Hv H) as [H0 | (t & args & Hin)]; [now left|].
      right. exists t, args. apply in_or_app. now left.
    - intros g' Hflag.
      assert (Hcase : g' = g \/ flagOf g' (progress (ds s)) = true).
      { destruct (progress (ds s)), g, g'; simpl in Hflag; auto. }
      destruct Hcase as [-> | H].
      + right. eexists _, _, r. split; [apply in_or_app; right; now left | exact Hr].
      + destruct (Hg g' H) as [H0 | (t & args & r' & Hin & Hr')]; [now left|].
        right. exists t, args, r'. split; [apply in_or_app; now left | exact Hr']. }
  destruct (invokeMethod cl (world s) (address target) _ _) as [[[]|e] w].
  - apply (Hraise (Returned tt) w I).
  - destruct (alreadyDone g e) eqn:Hdone.
    + apply (Hraise (Thrown e) w Hdone).
    + eapply Flagged_same; [exact Hs | reflexivity | reflexivity |].
      repeat constructor.
Qed.

Lemma fair_complete : fair (complete cl).
Proof.
  intros s Hs. rewrite complete_run.
  destruct (clock cl (world s)) as [t1 w1]. cbv zeta.
  destruct (clock cl w1) as [t2 w2].
  destruct (clockMs cl w2) as [ms w3].
  eapply Flagged_same;
    [exact Hs | simpl; rewrite <- !app_assoc; reflexivity | reflexivity |].
  repeat constructor.
Qed.

Lemma fair_initDeployer accounts : fair (initDeployer cl accounts).
Proof.
  intros s Hs. rewrite initDeployer_run.
  destruct (negb (truthy (deployer (ds s)))); [|exact Hs].
  apply fair_updateProgress.
  eapply Flagged_same with (l := []);
    [exact Hs | simpl; now rewrite app_nil_r | reflexivity | constructor].
Qed.

Lemma fair_verifyExisting : fair (verifyExisting cl).
Proof.
  intros s Hs. unfold verifyExisting, bind at 1, getState. unfold bind at 1.
  destruct (contractsToRemove_quiet cl (contracts (ds s)) s)
    as (names & s1 & -> & Hd & _ & _ & l & Hl & Hall).
  unfold modifyState.
  eapply Flagged_same; [exact Hs | exact Hl | simpl; now rewrite Hd |].
  now apply writesFlags_query.
Qed.

Lemma fair_steps force accounts : fair (steps cl force accounts).
Proof.
  unfold steps.
  repeat lazymatch goal with
         | |- triple _ (bind _ _) _ _ =>
             eapply triple_bind;
             [ first [ apply fair_updateProgress
                     | apply fair_quiet; apply getContractArtifact_quiet
                     | apply fair_quiet; apply getOnchainIDContractFactory_quiet
                     | apply fair_deployIfNeeded
                     | apply fair_configureVersion
                     | apply (fair_runGuarded AddTokenFactory)
                     | apply (fair_runGuarded SetTREXFactory)
                     | apply (fair_runGuarded SetIAFactory) ]
             | intros ?; cbv beta ]
         end.
  apply fair_complete.
Qed.

Lemma fair_deploy force accounts : fair (deploy cl force accounts).
Proof.
  unfold deploy.
  eapply triple_bind; [apply fair_initDeployer | intros ?; cbv beta].
  eapply triple_bind; [apply fair_quiet; apply call_quiet | intros ?; cbv beta].
  apply fair_steps.
Qed.

End Flagged.

Section FlaggedRun.

Context {W : Type} (cl : Client W).

(** X17. No flag is set without cause: a configuration flag that is set in
    the ledger object a run leaves, or in any ledger it wrote to the file
    or to a backup, was already set in the ledger the run resumed, or the
    run made the call the flag stands for and the call returned.  For the
    three guarded actions a call that failed with a message their [catch]
    takes for work already done counts as well; for the version
    configuration only a call that returned does. *)
Theorem ledger_flags_are_sourced forceRedeploy (w : W) f bk :
  let s' := final (runMain cl forceRedeploy w f bk) in
  let fl0 := startFlags forceRedeploy f in
  flagsSourced fl0 (log s') (progress (ds s')) /\
  Forall (flagsWrite fl0 (log s')) (log s').
Proof.
  cbv zeta.
  enough (H : Flagged (startFlags forceRedeploy f)
                      (final (runMain cl forceRedeploy w f bk))) by exact H.
  assert (Hstart : forall fl0 d (w0 : W) f0 bk0,
             flagsOf (progress d) = fl0 ->
             Flagged fl0 (mkSt d w0 f0 bk0 [])).
  { intros fl0 d w0 f0 bk0 H. split; [|constructor]. simpl.
    destruct (progress d) as [n de l v i x a]. simpl in H. subst fl0.
    split; [now left|]. intros g Hg. left. destruct g; exact Hg. }
  assert (Hdeploy : forall fl0 accounts s,
             Flagged fl0 s ->
             Flagged fl0 (final (deploy cl forceRedeploy accounts s))).
  { intros fl0 accounts s Hs.
    pose proof (fair_deploy cl fl0 forceRedeploy accounts s Hs) as H.
    destruct (deploy cl forceRedeploy accounts s); exact H. }
  assert (Hnone : forall fl0 d (w0 : W) f0 bk0,
             flagsOf (progress d) = (false, false, false, false) ->
             Flagged fl0 (mkSt d w0 f0 bk0 [])).
  { intros fl0 d w0 f0 bk0 H. split; [|constructor]. simpl.
    destruct (progress d) as [n de l v i x a]. simpl in H.
    injection H as -> -> -> ->.
    split; [discriminate|]. intros g Hg. destruct g; discriminate Hg. }
  unfold runMain, main, start, bind at 1 2 3 4, now, ask, modifyState at 1, call at 1.
  cbn [ds world file backups log].
  destruct (clock cl w) as [t w1]. cbn [ds world file backups log].
  destruct (listAccounts cl w1) as [[accounts|err] w2];
    cbn [ds world file backups log app final].
  2:{ apply Hnone. reflexivity. }
  destruct forceRedeploy; cbn [negb startFlags].
  - unfold ret, bind, modifyState. cbn [ds world file backups log].
    apply Hdeploy, Hstart. reflexivity.
  - unfold loadExistingDeployment. cbn [file].
    destruct (parsed f) as [[e listed]|].
    + unfold bind at 1, modifyState. cbn [ds world file backups log].
      destruct (completed e).
      * destruct listed; apply Hstart; reflexivity.
      * unfold bind at 1.
        match goal with
        | |- context [verifyExisting cl ?s] =>
            assert (Hs : Flagged (flagsOf (progress e)) s)
              by (apply Hstart; reflexivity);
            pose proof (fair_verifyExisting cl (flagsOf (progress e)) s Hs) as Hv;
            destruct (verifyExisting cl s) as [[] s1|e1 s1]
        end.
        -- apply Hdeploy. exact Hv.
        -- exact Hv.
    + apply Hdeploy, Hstart. reflexivity.
Qed.

End FlaggedRun.
